(** * publisher-Themes: the fetch-and-resolve pipeline

    A shallow embedding of the scripts under [.scripts/]:
    - [fetch_publisher_images.py]: candidate scoring and ranking, key
      normalisation, the resolution cache, the per-publisher step of
      [main], and [make_square];
    - [comixology-to-ubooquity.py]: [get_random_delay],
      [get_adjust_delay] and the throttled [request] of
      [make_requests_session].

    Python [str] values are lists of Unicode code points.  Functions of the
    Python library whose tables are not part of the repository (case
    mapping, NFKD, [urljoin], the HTML tokenizer, the image decoder and
    the mode conversion) are fields of an interface; what is assumed about
    them is stated in [UnicodeLaws] and nowhere else. *)

From Stdlib Require Import ZArith QArith Lia Lqa Bool List Permutation Sorted String Ascii.
From stdpp Require Import gmap list.
Close Scope Q_scope.
Set Warnings "-register-all".

(** ** Strings *)

Abbreviation codepoint := N (only parsing).
Abbreviation str := (list N) (only parsing).

(** The attributes of a start tag as [HTMLParser] reports them: a value is
    [None] for an attribute written without [=]. *)
Abbreviation attr_list := (list (str * option str)) (only parsing).

(** A literal of the source, as code points. *)
Definition cps (s : string) : str :=
  List.map N_of_ascii (list_ascii_of_string s).

(** [s.startswith(p)] *)
Fixpoint startswith (p s : str) : bool :=
  match p, s with
  | [], _ => true
  | _ :: _, [] => false
  | a :: p', b :: s' => N.eqb a b && startswith p' s'
  end.

(** [s.endswith(p)] *)
Definition endswith (p s : str) : bool := startswith (rev p) (rev s).

(** [p in s] *)
Fixpoint contains (p s : str) : bool :=
  startswith p s ||
  match s with
  | [] => false
  | _ :: s' => contains p s'
  end.

(** [sep.join(parts)] *)
Fixpoint join (sep : str) (parts : list str) : str :=
  match parts with
  | [] => []
  | [x] => x
  | x :: rest => x ++ sep ++ join sep rest
  end.

Definition str_eqb (a b : str) : bool := bool_decide (a = b).

(** Truthiness of a string, and [x or d]. *)
Definition nonempty (s : str) : bool :=
  match s with [] => false | _ => true end.

(** ** The library interface *)

Class PyLib := {
  lower : str -> str;                 (* str.lower *)
  nfkd : str -> str;                  (* unicodedata.normalize("NFKD", _) *)
  combining : codepoint -> Z;         (* unicodedata.combining *)
  urljoin : str -> str -> str         (* urllib.parse.urljoin *)
}.

Definition space : codepoint := 32%N.

(** The characters a normalised key is made of. *)
Definition is_lower_alnum (c : codepoint) : bool :=
  ((97 <=? c) && (c <=? 122) || (48 <=? c) && (c <=? 57))%N.

Definition key_char (c : codepoint) : bool :=
  is_lower_alnum c || N.eqb c space.

(** What the development uses of the Unicode tables: lowercase ASCII
    letters, digits and spaces are fixed by NFKD and by [lower] and are not
    combining marks, and [lower] works piece by piece on a string joined
    with spaces (a space is neither cased nor case-ignorable, so the
    final-sigma rule never looks across it). *)
Record UnicodeLaws (L : PyLib) : Prop := {
  nfkd_key : forall s, forallb key_char s = true -> nfkd s = s;
  lower_key : forall s, forallb key_char s = true -> lower s = s;
  combining_key : forall c, key_char c = true -> combining c = 0%Z;
  lower_join : forall a b, lower (a ++ space :: b) = lower a ++ space :: lower b
}.

(** An instance over ASCII: no decomposition, no combining marks, and
    [A-Z] mapped to [a-z]. *)
Definition ascii_lower_char (c : codepoint) : codepoint :=
  if ((65 <=? c) && (c <=? 90))%N then (c + 32)%N else c.

Definition ascii_urljoin (base u : str) : str :=
  if contains (cps "://") u then u else base ++ u.

Definition ascii_lib : PyLib := {|
  lower := List.map ascii_lower_char;
  nfkd := fun s => s;
  combining := fun _ => 0%Z;
  urljoin := ascii_urljoin
|}.

(** ** CandidateRanker: [score_image_candidate] *)

Section Scoring.
Context {L : PyLib}.

Definition score_image_candidate (url alt klass img_id : str) : Z :=
  let score := 0%Z in
  let text := lower (join (cps " ") [url; alt; klass; img_id]) in
  let score := if contains (cps "logo") text then (score + 6)%Z else score in
  let score := if contains (cps "brand") text then (score + 3)%Z else score in
  let score :=
    if contains (cps "header") text || contains (cps "banner") text
    then (score + 1)%Z else score in
  let score :=
    if contains (cps "sprite") text || contains (cps "icon") text
    then (score - 2)%Z else score in
  let score :=
    if existsb (fun e => endswith e (lower url))
         [cps ".png"; cps ".jpg"; cps ".jpeg"; cps ".webp"; cps ".gif"]
    then (score + 2)%Z else score in
  let score :=
    if endswith (cps ".svg") (lower url) then (score - 2)%Z else score in
  score.

(** The heuristic of the specification, attribute by attribute. *)
Definition mentions (word : string) (fields : list str) : bool :=
  existsb (fun f => contains (cps word) (lower f)) fields.

Definition has_extension (exts : list string) (url : str) : bool :=
  existsb (fun e => endswith (cps e) (lower url)) exts.

Definition heuristic_score (url alt klass img_id : str) : Z :=
  let fields := [url; alt; klass; img_id] in
  ((if mentions "logo" fields then 6 else 0)
   + (if mentions "brand" fields then 3 else 0)
   + (if mentions "header" fields || mentions "banner" fields then 1 else 0)
   + (if mentions "sprite" fields || mentions "icon" fields then -2 else 0)
   + (if has_extension [".png"; ".jpg"; ".jpeg"; ".webp"; ".gif"]%string url
      then 2 else 0)
   + (if has_extension [".svg"]%string url then -2 else 0))%Z.

(** ** CandidateRanker: [SimpleHTMLImageParser] *)

Inductive source_kind := SrcMeta | SrcIcon | SrcImg.

Record candidate := Candidate {
  cand_url : str;
  cand_score : Z;
  cand_source : source_kind
}.

Record image_parser := ImageParser {
  base_url : str;
  candidates : list candidate
}.

(** [SimpleHTMLImageParser(base_url)] *)
Definition new_parser (base : str) : image_parser :=
  {| base_url := base; candidates := [] |}.

(** [{k.lower(): v for k, v in attrs if k}] *)
Definition make_attrs_dict (attrs : attr_list) : gmap str (option str) :=
  fold_left
    (fun d kv => if nonempty (fst kv) then <[lower (fst kv) := snd kv]> d else d)
    attrs ∅.

(** [attrs_dict.get(k)] *)
Definition attr_get (d : gmap str (option str)) (k : string) : option str :=
  match d !! cps k with
  | Some v => v
  | None => None
  end.

(** [v or d] for an optional string *)
Definition or_str (v : option str) (d : str) : str :=
  match v with
  | Some (c :: s) => c :: s
  | _ => d
  end.

Definition _add_candidate (p : image_parser) (url : str) (score : Z)
    (source : source_kind) : image_parser :=
  if negb (nonempty url) || startswith (cps "data:") url then p
  else
    let full_url := urljoin (base_url p) url in
    {| base_url := base_url p;
       candidates := candidates p ++ [Candidate full_url score source] |}.

Definition handle_starttag (p : image_parser) (tag : str) (attrs : attr_list)
    : image_parser :=
  let attrs_dict := make_attrs_dict attrs in
  if str_eqb (lower tag) (cps "base") then
    match attr_get attrs_dict "href" with
    | Some (c :: h) => {| base_url := c :: h; candidates := candidates p |}
    | _ => p
    end
  else if str_eqb (lower tag) (cps "meta") then
    let prop :=
      lower (or_str (attr_get attrs_dict "property")
               (or_str (attr_get attrs_dict "name") [])) in
    let content := or_str (attr_get attrs_dict "content") [] in
    if existsb (str_eqb prop)
         [cps "og:image"; cps "twitter:image"; cps "twitter:image:src"]
       && nonempty content
    then _add_candidate p content 8 SrcMeta
    else p
  else if str_eqb (lower tag) (cps "link") then
    let rel := lower (or_str (attr_get attrs_dict "rel") []) in
    let href := or_str (attr_get attrs_dict "href") [] in
    if nonempty href
       && (contains (cps "icon") rel || contains (cps "apple-touch-icon") rel)
    then _add_candidate p href 6 SrcIcon
    else p
  else if str_eqb (lower tag) (cps "img") then
    let src := or_str (attr_get attrs_dict "src") [] in
    if negb (nonempty src) then p
    else
      let alt := or_str (attr_get attrs_dict "alt") [] in
      let klass := or_str (attr_get attrs_dict "class") [] in
      let img_id := or_str (attr_get attrs_dict "id") [] in
      let score := score_image_candidate src alt klass img_id in
      _add_candidate p src score SrcImg
  else p.

(** [parser.feed(text)], over the start tags the tokenizer finds, in
    document order. *)
Definition feed (p : image_parser) (tags : list (str * attr_list))
    : image_parser :=
  fold_left (fun q t => handle_starttag q (fst t) (snd t)) tags p.

(** [sorted(xs, key=lambda c: c["score"], reverse=True)]: Python's sort is
    stable, also with [reverse=True].  Insertion from the right: an element
    moves past the strictly greater scores only, so it stays in front of
    the later elements of equal score. *)
Fixpoint insert_desc (c : candidate) (l : list candidate) : list candidate :=
  match l with
  | [] => [c]
  | d :: l' =>
      if (cand_score c <? cand_score d)%Z then d :: insert_desc c l'
      else c :: d :: l'
  end.

Fixpoint sorted_by_score_desc (l : list candidate) : list candidate :=
  match l with
  | [] => []
  | c :: l' => insert_desc c (sorted_by_score_desc l')
  end.

(** The pure part of [fetch_html_candidates]: a fresh parser on the final
    URL of the response, fed with the page, candidates sorted. *)
Definition rank_candidates (final_url : str) (tags : list (str * attr_list))
    : list candidate :=
  sorted_by_score_desc (candidates (feed (new_parser final_url) tags)).

End Scoring.

(** ** Key normalisation: [normalize_key] and [slugify_bdbase] *)

(** [str.isspace] of one character, which is also [\s] of [re] on [str]
    patterns. *)
Definition is_space (c : codepoint) : bool :=
  ((9 <=? c) && (c <=? 13) || (28 <=? c) && (c <=? 32)
   || (c =? 133) || (c =? 160) || (c =? 5760)
   || (8192 <=? c) && (c <=? 8202)
   || (c =? 8232) || (c =? 8233) || (c =? 8239) || (c =? 8287)
   || (c =? 12288))%N.

(** [text.replace(old, new)] for a one-character [old] *)
Definition replace_char (old : codepoint) (new : str) (s : str) : str :=
  flat_map (fun c => if N.eqb c old then new else [c]) s.

(** [re.sub("[...]+", rep, s)] for a character class [cls]: every maximal
    run of characters of the class becomes one [rep]. *)
Fixpoint sub_runs (cls : codepoint -> bool) (rep : str) (s : str) : str :=
  match s with
  | [] => []
  | c :: s' =>
      if cls c then
        match s' with
        | d :: _ => if cls d then sub_runs cls rep s' else rep ++ sub_runs cls rep s'
        | [] => rep
        end
      else c :: sub_runs cls rep s'
  end.

(** [re.sub("[...]", rep, s)]: every character of the class becomes [rep]. *)
Definition sub_chars (cls : codepoint -> bool) (rep : str) (s : str) : str :=
  flat_map (fun c => if cls c then rep else [c]) s.

Fixpoint lstrip_by (cls : codepoint -> bool) (s : str) : str :=
  match s with
  | [] => []
  | c :: s' => if cls c then lstrip_by cls s' else s
  end.

(** [s.strip()] and [s.strip(chars)] *)
Definition strip_by (cls : codepoint -> bool) (s : str) : str :=
  rev (lstrip_by cls (rev (lstrip_by cls s))).

Definition strip (s : str) : str := strip_by is_space s.

(** The class ['`’] *)
Definition is_apostrophe (c : codepoint) : bool :=
  ((c =? 39) || (c =? 96) || (c =? 8217))%N.

Definition is_hyphen (c : codepoint) : bool := (c =? 45)%N.

Section Keys.
Context {L : PyLib}.

Definition normalize_key (name : str) : str :=
  let text := nfkd name in
  let text := List.filter (fun c => Z.eqb (combining c) 0) text in
  let text := lower text in
  let text := replace_char 38 (cps "and") text in
  let text := sub_chars is_apostrophe [] text in
  let text := strip (sub_runs (fun c => negb (is_lower_alnum c)) (cps " ") text) in
  sub_runs is_space (cps " ") text.

(** [re.sub("-{2,}", "-", s)]: a run of one hyphen is replaced by itself. *)
Definition slugify_bdbase (name : str) : str :=
  let text := nfkd name in
  let text := List.filter (fun c => Z.eqb (combining c) 0) text in
  let text := lower text in
  let text := replace_char 38 (cps " et ") text in
  let text := sub_chars is_apostrophe (cps " ") text in
  let text :=
    strip_by is_hyphen
      (sub_runs (fun c => negb (is_lower_alnum c)) (cps "-") text) in
  sub_runs is_hyphen (cps "-") text.

End Keys.

(** ** Exceptions and the effect monad

    Effectful code is a function from a state to a state and either a
    value or a raised exception. *)

Inductive exn :=
| ConnectionError        (* requests.exceptions.ConnectionError *)
| HTTPError              (* raise_for_status *)
| JSONDecodeError        (* json.load, resp.json *)
| AttributeError         (* a method looked up on a value that lacks it *)
| TypeError
| KeyError
| IndexError
| ValueError
| UnicodeEncodeError     (* str.encode of a lone surrogate *)
| OtherException.

Inductive result (A : Type) :=
| Returned (a : A)
| Raised (e : exn).
Arguments Returned {A} a.
Arguments Raised {A} e.

Definition M (S A : Type) : Type := S -> S * result A.

Definition ret {S A} (a : A) : M S A := fun s => (s, Returned a).
Definition raise {S A} (e : exn) : M S A := fun s => (s, Raised e).
Definition bind {S A B} (m : M S A) (k : A -> M S B) : M S B :=
  fun s => match m s with
           | (s', Returned a) => k a s'
           | (s', Raised e) => (s', Raised e)
           end.
(** [try: m except Exception: h] *)
Definition catch {S A} (m : M S A) (h : M S A) : M S A :=
  fun s => match m s with
           | (s', Returned a) => (s', Returned a)
           | (s', Raised _) => h s'
           end.
Definition get_state {S} : M S S := fun s => (s, Returned s).
Definition modify {S} (f : S -> S) : M S unit := fun s => (f s, Returned tt).

#[global] Instance M_ret {S} : MRet (M S) := fun A a => ret a.
#[global] Instance M_bind {S} : MBind (M S) := fun A B k m => bind m k.

(** ** ThrottledTransport: numbers

    A Python [float] is a rational, an infinity or NaN.  Only comparisons
    decide what the pacing functions return, and comparisons of floats are
    exact; the arithmetic is the exact one.  The rounding of binary64 is
    not modelled: what is stated below about the sign of a result or the
    side of a bound it falls on carries over to the floats, whose rounding
    is monotone and keeps the bounds, which are floats themselves; the
    exact value of a sum or a difference does not. *)

Inductive pyfloat :=
| FNan
| FNegInf
| FFin (q : Q)
| FPosInf.

(** [a < b] *)
Definition flt (a b : pyfloat) : bool :=
  match a, b with
  | FNan, _ | _, FNan => false
  | FNegInf, FNegInf => false
  | FNegInf, _ => true
  | FFin _, FNegInf => false
  | FFin p, FFin q => negb (Qle_bool q p)
  | FFin _, FPosInf => true
  | FPosInf, _ => false
  end.

(** [a <= b] *)
Definition fle (a b : pyfloat) : bool :=
  match a, b with
  | FNan, _ | _, FNan => false
  | FNegInf, _ => true
  | FFin _, FNegInf => false
  | FFin p, FFin q => Qle_bool p q
  | FFin _, FPosInf => true
  | FPosInf, FPosInf => true
  | FPosInf, _ => false
  end.

Definition fneg (a : pyfloat) : pyfloat :=
  match a with
  | FNan => FNan
  | FNegInf => FPosInf
  | FFin q => FFin (Qopp q)
  | FPosInf => FNegInf
  end.

Definition fadd (a b : pyfloat) : pyfloat :=
  match a, b with
  | FNan, _ | _, FNan => FNan
  | FNegInf, FPosInf | FPosInf, FNegInf => FNan
  | FNegInf, _ | _, FNegInf => FNegInf
  | FPosInf, _ | _, FPosInf => FPosInf
  | FFin p, FFin q => FFin (Qplus p q)
  end.

Definition fsub (a b : pyfloat) : pyfloat := fadd a (fneg b).

(** [a / k] for a positive integer constant [k] *)
Definition fdiv_const (a : pyfloat) (k : positive) : pyfloat :=
  match a with
  | FFin q => FFin (Qmult q (Qmake 1 k))
  | _ => a
  end.

(** [max(a, b)] and [min(a, b)] of two arguments: the first one is kept
    unless the second compares strictly better. *)
Definition py_max (a b : pyfloat) : pyfloat := if flt a b then b else a.
Definition py_min (a b : pyfloat) : pyfloat := if flt b a then b else a.

Definition fzero : pyfloat := FFin (Qmake 0 1).

(** [normalvariate mu sigma] stands for the draw [random.normalvariate]
    returns. *)
Definition get_random_delay (normalvariate : pyfloat -> pyfloat -> pyfloat)
    (lower upper : pyfloat) : pyfloat :=
  let range_ := fsub upper lower in
  let mean := fdiv_const (fadd upper lower) 2 in
  let delay := normalvariate mean (fdiv_const range_ 4) in
  py_max lower (py_min upper delay).

(** [now] is the reading of [time.time()]. *)
Definition get_adjust_delay (now : pyfloat) (delay last_request_time : pyfloat)
    : pyfloat :=
  py_max fzero (fsub delay (fsub now last_request_time)).

(** ** ThrottledTransport: [make_requests_session.request] *)

(** [range(lo, hi)] *)
Definition py_range (lo hi : Z) : list Z :=
  List.map (fun i => (lo + Z.of_nat i)%Z) (seq 0 (Z.to_nat (hi - lo))).

Section Transport.
Context {response : Type}.

(** The command line: [--request-attempts] and [--delay-range]. *)
Record arguments := Arguments {
  request_attempts : Z;
  delay_range : pyfloat * pyfloat
}.

(** The outside world of one session: the draws of the random generator,
    and for every dispatch what the wrapped [session.request] does and how
    long it takes. *)
Record environment := Environment {
  normalvariate : nat -> pyfloat -> pyfloat -> pyfloat;
  original_request : nat -> str -> str -> result response;
  latency : nat -> pyfloat;
  netloc_of : str -> str            (* urllib.parse.urlsplit(url).netloc *)
}.

Inductive event :=
| Sleep (host : str) (delay : pyfloat)
| Dispatch (host : str) (method url : str).

Record session := Session {
  _last_request_times : gmap str pyfloat;
  clock : pyfloat;
  draws : nat;
  dispatches : nat;
  events : list event
}.

(** [collections.defaultdict(float)]: a missing key reads as [0.0]. *)
Definition last_request_time (s : session) (host : str) : pyfloat :=
  default fzero (_last_request_times s !! host).

Definition is_dispatch (e : event) : bool :=
  match e with Dispatch _ _ _ => true | Sleep _ _ => false end.

Definition count_dispatches (l : list event) : nat :=
  length (List.filter is_dispatch l).

Variable env : environment.
Variable args : arguments.

(** The pacing in front of one dispatch: draw, adjust, sleep, stamp. *)
Definition pace (netloc : str) (s : session) : session :=
  let raw_delay :=
    get_random_delay (normalvariate env (draws s))
      (fst (delay_range args)) (snd (delay_range args)) in
  let delay := get_adjust_delay (clock s) raw_delay (last_request_time s netloc) in
  let slept := flt fzero delay in
  let now := if slept then fadd (clock s) delay else clock s in
  {| _last_request_times := <[netloc := now]> (_last_request_times s);
     clock := now;
     draws := S (draws s);
     dispatches := dispatches s;
     events := events s ++ (if slept then [Sleep netloc delay] else []) |}.

(** The call of the wrapped [session.request]. *)
Definition dispatch (netloc method url : str) (s : session)
    : session * result response :=
  ({| _last_request_times := _last_request_times s;
      clock := fadd (clock s) (latency env (dispatches s));
      draws := draws s;
      dispatches := S (dispatches s);
      events := events s ++ [Dispatch netloc method url] |},
   original_request env (dispatches s) method url).

(** The body of [for attempt in range(1, attempts)], over the attempts that
    are left; a loop that runs out ends the function without a [return],
    which in Python returns [None]. *)
Fixpoint request_loop (attempts : Z) (todo : list Z) (method url : str)
    : M session (option response) :=
  match todo with
  | [] => ret None
  | attempt :: todo' =>
      fun s =>
        let netloc := netloc_of env url in
        match dispatch netloc method url (pace netloc s) with
        | (s', Returned r) => (s', Returned (Some r))
        | (s', Raised ConnectionError) =>
            if (attempts <=? attempt)%Z then (s', Raised ConnectionError)
            else request_loop attempts todo' method url s'
        | (s', Raised e) => (s', Raised e)
        end
  end.

Definition request (method url : str) : M session (option response) :=
  let attempts := Z.max 1 (request_attempts args) in
  request_loop attempts (py_range 1 attempts) method url.

(** [requests.session()] with the empty throttle state. *)
Definition new_session (now : pyfloat) : session :=
  {| _last_request_times := ∅; clock := now; draws := 0; dispatches := 0;
     events := [] |}.

End Transport.

(** ** JSON documents: what [json.load] and [resp.json()] return *)

(** A number that is read as a [float]: a literal [mantissa * 10 ^ exp10],
    or one of the constants the decoder accepts. *)
Inductive float_literal :=
| Decimal (mantissa exp10 : Z)
| LitNaN
| LitInfinity (negative : bool).

Inductive json :=
| JNull                               (* None *)
| JBool (b : bool)
| JInt (z : Z)
| JFloat (f : float_literal)
| JStr (s : str)
| JArr (l : list json)
| JObj (m : list (str * json)).

(** [float(literal) == 0.0]: the literal is zero, or it rounds to zero
    (no more than half of the least subnormal, [2^-1075]). *)
Definition reads_as_zero (f : float_literal) : bool :=
  match f with
  | Decimal m e =>
      if (0 <=? e)%Z then (m =? 0)%Z
      else (Z.abs m * 2 ^ 1075 <=? 10 ^ (- e))%Z
  | _ => false
  end.

(** [bool(value)] *)
Definition truthy (j : json) : bool :=
  match j with
  | JNull => false
  | JBool b => b
  | JInt z => negb (z =? 0)%Z
  | JFloat f => negb (reads_as_zero f)
  | JStr s => nonempty s
  | JArr l => match l with [] => false | _ => true end
  | JObj m => match m with [] => false | _ => true end
  end.

(** A Python [dict] with string keys keeps its keys in insertion order:
    [d.get(k)] and [d[k] = v] on the list of its items. *)
Fixpoint dict_lookup (k : str) (m : list (str * json)) : option json :=
  match m with
  | [] => None
  | (k', v) :: m' => if str_eqb k' k then Some v else dict_lookup k m'
  end.

Fixpoint dict_set (k : str) (v : json) (m : list (str * json))
    : list (str * json) :=
  match m with
  | [] => [(k, v)]
  | (k', v') :: m' =>
      if str_eqb k' k then (k, v) :: m' else (k', v') :: dict_set k v m'
  end.

Definition is_json_ws (c : codepoint) : bool :=
  ((c =? 32) || (c =? 9) || (c =? 10) || (c =? 13))%N.

Definition skip_ws (s : str) : str := lstrip_by is_json_ws s.

Definition is_digit (c : codepoint) : bool := ((48 <=? c) && (c <=? 57))%N.

Definition hex_value (c : codepoint) : option N :=
  if is_digit c then Some (c - 48)%N
  else if ((97 <=? c) && (c <=? 102))%N then Some (c - 87)%N
  else if ((65 <=? c) && (c <=? 70))%N then Some (c - 55)%N
  else None.

(** Four hexadecimal digits after a backslash-u. *)
Definition scan_hex4 (s : str) : option (N * str) :=
  match s with
  | a :: b :: c :: d :: rest =>
      match hex_value a, hex_value b, hex_value c, hex_value d with
      | Some x, Some y, Some z, Some w =>
          Some ((((x * 16 + y) * 16 + z) * 16 + w)%N, rest)
      | _, _, _, _ => None
      end
  | _ => None
  end.

(** The body of a string literal after its opening quote (strict mode:
    no control character, only the escapes of the grammar, surrogate pairs
    joined). *)
Fixpoint scan_string (fuel : nat) (acc : str) (s : str) : option (str * str) :=
  match fuel with
  | O => None
  | S fuel' =>
      match s with
      | [] => None
      | c :: rest =>
          if (c =? 34)%N then Some (acc, rest)
          else if (c <? 32)%N then None
          else if (c =? 92)%N then
            match rest with
            | [] => None
            | e :: rest' =>
                if (e =? 117)%N then
                  match scan_hex4 rest' with
                  | None => None
                  | Some (u, rest2) =>
                      let plain := scan_string fuel' (acc ++ [u]) rest2 in
                      if ((55296 <=? u) && (u <=? 56319))%N then
                        match rest2 with
                        | 92%N :: 117%N :: rest3 =>
                            match scan_hex4 rest3 with
                            | Some (v, rest4) =>
                                if ((56320 <=? v) && (v <=? 57343))%N then
                                  scan_string fuel'
                                    (acc ++ [(65536 + (u - 55296) * 1024
                                              + (v - 56320))%N])
                                    rest4
                                else plain
                            | None => plain
                            end
                        | _ => plain
                        end
                      else plain
                  end
                else
                  let simple (x : N) := scan_string fuel' (acc ++ [x]) rest' in
                  if (e =? 34)%N then simple 34%N
                  else if (e =? 92)%N then simple 92%N
                  else if (e =? 47)%N then simple 47%N
                  else if (e =? 98)%N then simple 8%N
                  else if (e =? 102)%N then simple 12%N
                  else if (e =? 110)%N then simple 10%N
                  else if (e =? 114)%N then simple 13%N
                  else if (e =? 116)%N then simple 9%N
                  else None
            end
          else scan_string fuel' (acc ++ [c]) rest
      end
  end.

(** A maximal run of decimal digits. *)
Fixpoint scan_digits (s : str) : str * str :=
  match s with
  | c :: rest =>
      if is_digit c then
        let '(ds, r) := scan_digits rest in (c :: ds, r)
      else ([], s)
  | [] => ([], [])
  end.

Definition digits_value (ds : str) : Z :=
  fold_left (fun v c => (v * 10 + Z.of_N (c - 48))%Z) ds 0%Z.

(** The number pattern of the decoder: an optional minus sign, then a zero
    or a digit string without leading zero, then optionally a point with
    digits, then optionally an exponent with digits. *)
Definition scan_number (s : str) : option (json * str) :=
  let '(neg, s1) :=
    match s with
    | 45%N :: r => (true, r)
    | _ => (false, s)
    end in
  let '(ds, s2) := scan_digits s1 in
  match ds with
  | [] => None
  | d0 :: _ =>
      let '(int_digits, s2) :=
        if (d0 =? 48)%N then ([d0], skipn 1 s1) else (ds, s2) in
      let '(frac_digits, s3) :=
        match s2 with
        | 46%N :: r =>
            match scan_digits r with
            | ([], _) => ([], s2)
            | (fs, r') => (fs, r')
            end
        | _ => ([], s2)
        end in
      let has_frac := nonempty frac_digits in
      let '(exp, s4) :=
        match s3 with
        | e :: r =>
            if ((e =? 101) || (e =? 69))%N then
              let '(eneg, r1) :=
                match r with
                | 45%N :: r' => (true, r')
                | 43%N :: r' => (false, r')
                | _ => (false, r)
                end in
              match scan_digits r1 with
              | ([], _) => (None, s3)
              | (es, r2) =>
                  (Some (if eneg then (- digits_value es)%Z else digits_value es),
                   r2)
              end
            else (None, s3)
        | [] => (None, s3)
        end in
      let sign (z : Z) := if neg then (- z)%Z else z in
      match has_frac, exp with
      | false, None => Some (JInt (sign (digits_value int_digits)), s4)
      | _, _ =>
          Some (JFloat
                  (Decimal (sign (digits_value (int_digits ++ frac_digits)))
                     (default 0%Z exp - Z.of_nat (length frac_digits))),
                s4)
      end
  end.

(** The scanner of the decoder: one value at the head of [s].  Each call
    passes a smaller fuel to the calls for the parts of the value. *)
Fixpoint scan_value (fuel : nat) (s : str) : option (json * str) :=
  match fuel with
  | O => None
  | S fuel' =>
      match s with
      | 34%N :: rest =>
          match scan_string (length rest) [] rest with
          | Some (v, r) => Some (JStr v, r)
          | None => None
          end
      | 123%N :: rest =>
          match skip_ws rest with
          | 125%N :: r => Some (JObj [], r)
          | r => scan_members fuel' [] r
          end
      | 91%N :: rest =>
          match skip_ws rest with
          | 93%N :: r => Some (JArr [], r)
          | r => scan_elements fuel' [] r
          end
      | _ =>
          if startswith (cps "null") s then Some (JNull, skipn 4 s)
          else if startswith (cps "true") s then Some (JBool true, skipn 4 s)
          else if startswith (cps "false") s then Some (JBool false, skipn 5 s)
          else
            match scan_number s with
            | Some r => Some r
            | None =>
                if startswith (cps "NaN") s then
                  Some (JFloat LitNaN, skipn 3 s)
                else if startswith (cps "Infinity") s then
                  Some (JFloat (LitInfinity false), skipn 8 s)
                else if startswith (cps "-Infinity") s then
                  Some (JFloat (LitInfinity true), skipn 9 s)
                else None
            end
      end
  end
with scan_elements (fuel : nat) (acc : list json) (s : str)
    : option (json * str) :=
  match fuel with
  | O => None
  | S fuel' =>
      match scan_value fuel' s with
      | None => None
      | Some (v, r) =>
          match skip_ws r with
          | 93%N :: r' => Some (JArr (acc ++ [v]), r')
          | 44%N :: r' => scan_elements fuel' (acc ++ [v]) (skip_ws r')
          | _ => None
          end
      end
  end
with scan_members (fuel : nat) (acc : list (str * json)) (s : str)
    : option (json * str) :=
  match fuel with
  | O => None
  | S fuel' =>
      match s with
      | 34%N :: rest =>
          match scan_string (length rest) [] rest with
          | None => None
          | Some (key, r) =>
              match skip_ws r with
              | 58%N :: r1 =>
                  match scan_value fuel' (skip_ws r1) with
                  | None => None
                  | Some (v, r2) =>
                      match skip_ws r2 with
                      | 125%N :: r3 => Some (JObj (dict_set key v acc), r3)
                      | 44%N :: r3 =>
                          scan_members fuel' (dict_set key v acc) (skip_ws r3)
                      | _ => None
                      end
                  end
              | _ => None
              end
          end
      | _ => None
      end
  end.

(** [json.loads(text)]: one value between optional white space and nothing
    else; [None] stands for [JSONDecodeError]. *)
Definition json_loads (text : str) : option json :=
  match scan_value (S (2 * length text)) (skip_ws text) with
  | Some (v, r) =>
      match skip_ws r with
      | [] => Some v
      | _ => None
      end
  | None => None
  end.

(** ** ImageNormalizer: [make_square]

    A PIL image is its mode, its size and its raster.  The raster is kept
    as the history of the operations that produced it: the resampling
    filter and the mode conversions are the library's, their arithmetic on
    pixel values is not modelled.  Which modes [convert("RGB")] accepts is
    the library's too, and changes with its version: it is an argument of
    the functions here and a field of the world of a run. *)

(** The modes of PIL ("1", "L", "LA", "La", "P", "PA", "RGB", "RGBA",
    "RGBa", "RGBX", "CMYK", "YCbCr", "LAB", "HSV", "I", "I;16", "F"). *)
Inductive image_mode :=
| Mode1 | ModeL | ModeLA | ModeLa | ModeP | ModePA | ModeRGB | ModeRGBA
| ModeRGBa | ModeRGBX | ModeCMYK | ModeYCbCr | ModeLAB | ModeHSV | ModeI
| ModeI16 | ModeF.

(** The modes whose last band is an alpha band ([image.getbands()] ends
    with "A" or "a"). *)
Definition has_alpha_band (m : image_mode) : bool :=
  match m with
  | ModeLA | ModeLa | ModePA | ModeRGBA | ModeRGBa => true
  | _ => false
  end.

Inductive raster :=
| Decoded (file : list N)
    (* the pixels Image.open reads from a file *)
| PastedOnWhite (src : raster)
    (* Image.new("RGB", size, (255, 255, 255)) with src pasted through
       its last band as mask *)
| ConvertedRGB (src : raster)
    (* convert("RGB") *)
| Cropped (left_ top right_ bottom : Z) (src : raster)
    (* crop((left, top, right, bottom)) *)
| ResizedLanczos (width height : Z) (src : raster).
    (* resize((width, height), Image.LANCZOS) *)

Record pil_image := PilImage {
  mode : image_mode;
  width : Z;
  height : Z;
  pixels : raster
}.

(** [image.crop(box)] *)
Definition crop (im : pil_image) (left_ top right_ bottom : Z) : pil_image :=
  {| mode := mode im;
     width := right_ - left_;
     height := bottom - top;
     pixels := Cropped left_ top right_ bottom (pixels im) |}.

(** [image.resize((w, h), Image.LANCZOS)]: PIL refuses a target without
    pixels ("height and width must be > 0"). *)
Definition resize (im : pil_image) (w h : Z) : result pil_image :=
  if (0 <? w)%Z && (0 <? h)%Z then
    Returned {| mode := mode im; width := w; height := h;
                pixels := ResizedLanczos w h (pixels im) |}
  else Raised ValueError.

(** [image.mode in ("RGBA", "LA")] *)
Definition is_rgba_or_la (m : image_mode) : bool :=
  match m with
  | ModeRGBA | ModeLA => true
  | _ => false
  end.

(** The first statement of [make_square]: an opaque three-channel image.
    [convert_rgb m] is what [image.convert("RGB")] does with an image of
    mode [m]: [None] when it converts it, and the exception it raises when
    it has no conversion from that mode ("conversion from La to RGB not
    supported"). *)
Definition flatten (convert_rgb : image_mode -> option exn)
    (image : pil_image) : result pil_image :=
  if is_rgba_or_la (mode image) then
    Returned {| mode := ModeRGB; width := width image; height := height image;
                pixels := PastedOnWhite (pixels image) |}
  else
    match mode image with
    | ModeRGB => Returned image
    | m =>
        match convert_rgb m with
        | None =>
            Returned {| mode := ModeRGB; width := width image;
                        height := height image;
                        pixels := ConvertedRGB (pixels image) |}
        | Some e => Raised e
        end
    end.

(** The crop box of [make_square], from the size of the flattened image. *)
Definition square_box (w h : Z) : Z * Z * Z * Z :=
  let min_side := Z.min w h in
  let left_ := ((w - min_side) / 2)%Z in
  let top := ((h - min_side) / 2)%Z in
  let right_ := (left_ + min_side)%Z in
  let bottom := (top + min_side)%Z in
  (left_, top, right_, bottom).

Definition make_square (convert_rgb : image_mode -> option exn)
    (image : pil_image) (size : Z) : result pil_image :=
  match flatten convert_rgb image with
  | Returned image =>
      let '(left_, top, right_, bottom) :=
        square_box (width image) (height image) in
      let image := crop image left_ top right_ bottom in
      resize image size size
  | Raised e => Raised e
  end.

(** The conversion table of the worlds of the examples: every mode is
    converted but the premultiplied "La", for which [convert] raises
    [ValueError] ("conversion from La to RGB not supported"). *)
Definition pillow_convert_rgb (m : image_mode) : option exn :=
  match m with
  | ModeLa => Some ValueError
  | _ => None
  end.

(** ** Operations of Python on the values of a document *)

(** [j.get(k, d)]: only a [dict] has the method. *)
Definition py_get (j : json) (k : str) (d : json) : result json :=
  match j with
  | JObj m => Returned (default d (dict_lookup k m))
  | _ => Raised AttributeError
  end.

(** [j[0]] *)
Definition py_first (j : json) : result json :=
  match j with
  | JArr (x :: _) => Returned x
  | JArr [] => Raised IndexError
  | JStr (c :: _) => Returned (JStr [c])
  | JStr [] => Raised IndexError
  | JObj _ => Raised KeyError
  | _ => Raised TypeError
  end.

(** [j[k]] for a string [k] *)
Definition py_item (j : json) (k : str) : result json :=
  match j with
  | JObj m =>
      match dict_lookup k m with
      | Some v => Returned v
      | None => Raised KeyError
      end
  | _ => Raised TypeError
  end.

(** [k in j] for a string [k] *)
Definition py_in (k : str) (j : json) : result bool :=
  match j with
  | JObj m => Returned (bool_decide (is_Some (dict_lookup k m)))
  | JStr s => Returned (contains k s)
  | JArr l =>
      Returned
        (existsb (fun e => match e with JStr t => str_eqb t k | _ => false end) l)
  | _ => Raised TypeError
  end.

(** [j[k] = v] for a string [k] *)
Definition py_setitem (j : json) (k : str) (v : json) : result json :=
  match j with
  | JObj m => Returned (JObj (dict_set k v m))
  | _ => Raised TypeError
  end.

(** [a or b], the second operand evaluated only when needed *)
Definition py_or (a : json) (b : result json) : result json :=
  if truthy a then Returned a else b.

Definition opt_json (o : option str) : json :=
  match o with
  | Some s => JStr s
  | None => JNull
  end.

(** ** The web and the state of one run of [main] *)

Record http_response := HttpResponse {
  status_code : Z;
  resp_url : str;                    (* the URL after redirects *)
  content_type : option str;         (* headers.get("Content-Type") *)
  text : str;
  chunks : list (list N)             (* iter_content(chunk_size=8192) *)
}.

(** The function of the script that issues a request. *)
Inductive caller :=
| ByWikiSearch
| ByWikiPageprops
| ByWikidataClaims
| ByHtmlCandidates
| ByBdbaseLogo
| ByBdbaseDetails
| ByDownloadImage.

Record request_record := RequestRecord {
  req_by : caller;
  req_url : str;
  req_query : json                   (* srsearch, titles or ids *)
}.

(** What the program does not decide: the answer to the n-th request, and
    the library functions that read a page or a file or convert an
    image. *)
Record web := Web {
  http_get : nat -> str -> json -> result http_response;
  start_tags : str -> list (str * attr_list);   (* HTMLParser's tokenizer *)
  open_image : list N -> option pil_image;      (* Image.open and load *)
  convert_rgb : image_mode -> option exn;       (* the error of convert("RGB") *)
  bdbase_logo_in : str -> option str;           (* the static-asset pattern *)
  bdbase_description_in : str -> option str;    (* the "pre" block, stripped *)
  bdbase_website_in : str -> option str         (* the data-url attribute *)
}.

Record run := Run {
  cache : json;                                 (* the dict in memory *)
  cache_writes : list json;                     (* every save_cache *)
  requests : list request_record;               (* every requests.get *)
  report : list (list json);                    (* the rows written *)
  disk_images : gmap str pil_image;             (* the folder.jpg files *)
  folder_info_updates : list (str * json * json)
}.

Definition set_cache (c : json) (s : run) : run :=
  {| cache := c; cache_writes := cache_writes s; requests := requests s;
     report := report s; disk_images := disk_images s;
     folder_info_updates := folder_info_updates s |}.

(** [save_cache(cache_path, cache)] *)
Definition save_cache : M run unit :=
  modify (fun s =>
    {| cache := cache s; cache_writes := cache_writes s ++ [cache s];
       requests := requests s; report := report s;
       disk_images := disk_images s;
       folder_info_updates := folder_info_updates s |}).

(** [write_report_row(writer, row)] *)
Definition write_report_row (row : list json) : M run unit :=
  modify (fun s =>
    {| cache := cache s; cache_writes := cache_writes s;
       requests := requests s; report := report s ++ [row];
       disk_images := disk_images s;
       folder_info_updates := folder_info_updates s |}).

(** [image.save(path, format="JPEG", quality=90)] *)
Definition save_image (path : str) (image : pil_image) : M run unit :=
  modify (fun s =>
    {| cache := cache s; cache_writes := cache_writes s;
       requests := requests s; report := report s;
       disk_images := <[path := image]> (disk_images s);
       folder_info_updates := folder_info_updates s |}).

(** [update_folder_info(path, description, website)]; the HTML block it
    writes is not modelled. *)
Definition update_folder_info (path : str) (description website : json)
    : M run unit :=
  modify (fun s =>
    {| cache := cache s; cache_writes := cache_writes s;
       requests := requests s; report := report s;
       disk_images := disk_images s;
       folder_info_updates :=
         folder_info_updates s ++ [(path, description, website)] |}).

Definition lift {A} (r : result A) : M run A := fun s => (s, r).

(** [load_cache(cache_path)], from the content of the file if it exists. *)
Definition load_cache (file : option str) : result json :=
  match file with
  | None => Returned (JObj [])
  | Some content =>
      match json_loads content with
      | Some document => Returned document
      | None => Raised JSONDecodeError
      end
  end.

(** ** [requests.utils.quote]

    [urllib.parse.quote] with its default [safe="/"]: the string is
    encoded in UTF-8, and every byte but the ASCII letters, the digits and
    the characters [_ . - ~ /] is written as a percent sign and two
    uppercase hexadecimal digits. *)

(** The UTF-8 bytes of a code point.  A surrogate has none:
    [str.encode] raises [UnicodeEncodeError] (a [str] has no code point
    from 0x110000 on). *)
Definition utf8_encode (c : codepoint) : option (list N) :=
  if (c <? 128)%N then Some [c]
  else if (c <? 2048)%N then Some [192 + c / 64; 128 + c mod 64]%N
  else if (c <? 65536)%N then
    if ((55296 <=? c) && (c <=? 57343))%N then None
    else Some [224 + c / 4096; 128 + (c / 64) mod 64; 128 + c mod 64]%N
  else if (c <? 1114112)%N then
    Some [240 + c / 262144; 128 + (c / 4096) mod 64;
          128 + (c / 64) mod 64; 128 + c mod 64]%N
  else None.

(** The code points that have an encoding: all but the surrogates. *)
Definition is_scalar_value (c : codepoint) : bool :=
  ((c <? 55296) || (57343 <? c) && (c <? 1114112))%N.

(** The bytes [quote] leaves as they are. *)
Definition is_quote_safe (b : N) : bool :=
  ((65 <=? b) && (b <=? 90) || (97 <=? b) && (b <=? 122)
   || (48 <=? b) && (b <=? 57)
   || (b =? 95) || (b =? 46) || (b =? 45) || (b =? 126) || (b =? 47))%N.

Definition hex_digit (d : N) : codepoint :=
  if (d <? 10)%N then (48 + d)%N else (55 + d)%N.

Definition quote_byte (b : N) : str :=
  if is_quote_safe b then [b] else [37%N; hex_digit (b / 16); hex_digit (b mod 16)].

Fixpoint quote (s : str) : result str :=
  match s with
  | [] => Returned []
  | c :: s' =>
      match utf8_encode c with
      | None => Raised UnicodeEncodeError
      | Some bytes =>
          match quote s' with
          | Returned q => Returned (flat_map quote_byte bytes ++ q)
          | Raised e => Raised e
          end
      end
  end.

(** ** SourceResolver: the fetchers *)

(** What a source returns: [(image, source_url)], or [(None, None)]. *)
Abbreviation found := (option pil_image * option str)%type (only parsing).

Section Resolver.
Context {L : PyLib}.
Variable w : web.

(** [requests.get(url, ...)]: the request is recorded, the web answers. *)
Definition requests_get (by_ : caller) (url : str) (query : json)
    : M run http_response :=
  fun s =>
    ({| cache := cache s; cache_writes := cache_writes s;
        requests := requests s ++ [RequestRecord by_ url query];
        report := report s; disk_images := disk_images s;
        folder_info_updates := folder_info_updates s |},
     http_get w (length (requests s)) url query).

(** [resp.raise_for_status()] *)
Definition raise_for_status (resp : http_response) : M run unit :=
  if (400 <=? status_code resp)%Z && (status_code resp <? 600)%Z
  then raise HTTPError else ret tt.

(** [resp.json()] *)
Definition resp_json (resp : http_response) : M run json :=
  match json_loads (text resp) with
  | Some data => ret data
  | None => raise JSONDecodeError
  end.

Definition api_url (lang : str) : str :=
  cps "https://" ++ lang ++ cps ".wikipedia.org/w/api.php".

Definition wiki_search (name lang : str) : M run json :=
  resp ← requests_get ByWikiSearch (api_url lang) (JStr name);
  raise_for_status resp;;
  data ← resp_json resp;
  query ← lift (py_get data (cps "query") (JObj []));
  results ← lift (py_get query (cps "search") (JArr []));
  if negb (truthy results) then ret JNull
  else
    hit ← lift (py_first results);
    lift (py_item hit (cps "title")).

(** [for page in pages.values(): ... return ...]: the first value, if any. *)
Definition wiki_pageprops (title : json) (lang : str) : M run json :=
  resp ← requests_get ByWikiPageprops (api_url lang) title;
  raise_for_status resp;;
  data ← resp_json resp;
  query ← lift (py_get data (cps "query") (JObj []));
  pages ← lift (py_get query (cps "pages") (JObj []));
  match pages with
  | JObj [] => ret JNull
  | JObj ((_, page) :: _) =>
      props ← lift (py_get page (cps "pageprops") (JObj []));
      lift (py_get props (cps "wikibase_item") JNull)
  | _ => raise AttributeError
  end.

(** [d.get(qid, {})] with a value of the document as key: a list or a
    dict is not hashable, a number or a boolean is no key of a document. *)
Definition py_get_by (d : json) (key : json) (dflt : json) : result json :=
  match d with
  | JObj m =>
      match key with
      | JStr k => Returned (default dflt (dict_lookup k m))
      | JArr _ | JObj _ => Raised TypeError
      | _ => Returned dflt
      end
  | _ => Raised AttributeError
  end.

Definition wikidata_claims (qid : json) : M run json :=
  resp ← requests_get ByWikidataClaims
           (cps "https://www.wikidata.org/w/api.php") qid;
  raise_for_status resp;;
  data ← resp_json resp;
  entities ← lift (py_get data (cps "entities") (JObj []));
  entity ← lift (py_get_by entities qid (JObj []));
  lift (py_get entity (cps "claims") (JObj [])).

Definition first_claim_value (claims : json) (prop : str) : result json :=
  match py_get claims prop JNull with
  | Raised e => Raised e
  | Returned values =>
      if negb (truthy values) then Returned JNull
      else
        match py_first values with
        | Raised e => Raised e
        | Returned v0 =>
            match py_get v0 (cps "mainsnak") (JObj []) with
            | Raised e => Raised e
            | Returned mainsnak =>
                match py_get mainsnak (cps "datavalue") (JObj []) with
                | Raised e => Raised e
                | Returned datavalue => py_get datavalue (cps "value") JNull
                end
            end
        end
  end.

Definition make_info (title : json) (lang : str) (qid official_url logo : json)
    : json :=
  JObj [(cps "wiki_title", title); (cps "wiki_lang", JStr lang);
        (cps "qid", qid); (cps "official_url", official_url);
        (cps "logo_filename", logo)].

Definition resolve_publisher_info (name lang : str) : M run json :=
  title ← wiki_search name lang;
  '(title, lang) ←
    (if negb (truthy title) && negb (str_eqb lang (cps "en")) then
       title' ← wiki_search name (cps "en");
       ret (title', if truthy title' then cps "en" else lang)
     else ret (title, lang));
  if negb (truthy title) then ret (make_info JNull lang JNull JNull JNull)
  else
    qid ← wiki_pageprops title lang;
    if negb (truthy qid) then ret (make_info title lang JNull JNull JNull)
    else
      claims ← wikidata_claims qid;
      official_url ← lift (first_claim_value claims (cps "P856"));
      p154 ← lift (first_claim_value claims (cps "P154"));
      logo_filename ← lift (py_or p154 (first_claim_value claims (cps "P18")));
      ret (make_info title lang qid official_url logo_filename).

Definition fetch_html_candidates (url : str) : M run (list candidate) :=
  resp ← requests_get ByHtmlCandidates url JNull;
  raise_for_status resp;;
  ret (rank_candidates (resp_url resp) (start_tags w (text resp))).

(** The loop over [resp.iter_content]: [None] when the cap is exceeded. *)
Fixpoint read_chunks (max_bytes downloaded : Z) (data : list N)
    (cs : list (list N)) : option (list N) :=
  match cs with
  | [] => Some data
  | chunk :: cs' =>
      match chunk with
      | [] => Some data
      | _ =>
          let downloaded := (downloaded + Z.of_nat (length chunk))%Z in
          if (max_bytes <? downloaded)%Z then None
          else read_chunks max_bytes downloaded (data ++ chunk) cs'
      end
  end.

Definition max_bytes_default : Z := 5 * 1024 * 1024.

Definition download_image (url : str) : M run (option pil_image) :=
  resp ← requests_get ByDownloadImage url JNull;
  raise_for_status resp;;
  let content_type := lower (or_str (content_type resp) []) in
  if contains (cps "image/svg") content_type then ret None
  else
    match read_chunks max_bytes_default 0 [] (chunks resp) with
    | None => ret None
    | Some data => ret (open_image w data)
    end.

Definition fetch_bdbase_logo_by_slug (slug : str) : M run (option str) :=
  resp ← requests_get ByBdbaseLogo
           (cps "https://www.bdbase.fr/editeurs/" ++ slug) JNull;
  if negb (status_code resp =? 200)%Z then ret None
  else ret (bdbase_logo_in w (text resp)).

Definition fetch_bdbase_details (name : str) : M run (option json) :=
  let slug := slugify_bdbase name in
  let url := cps "https://www.bdbase.fr/editeurs/" ++ slug in
  resp ← requests_get ByBdbaseDetails url JNull;
  if negb (status_code resp =? 200)%Z then ret None
  else
    ret (Some (JObj [(cps "bdbase_url", JStr url);
                     (cps "description",
                      opt_json (bdbase_description_in w (text resp)));
                     (cps "website",
                      opt_json (bdbase_website_in w (text resp)))])).

(** ** SourceResolver: the three sources *)

(** The loop of [find_image_from_official_site] over the ranked
    candidates: the first one whose download gives an image. *)
Fixpoint first_usable (cands : list candidate) : M run found :=
  match cands with
  | [] => ret (None, None)
  | c :: rest =>
      image ← catch (download_image (cand_url c)) (ret None);
      match image with
      | Some im => ret (Some im, Some (cand_url c))
      | None => first_usable rest
      end
  end.

Definition find_image_from_official_site (url : json) : M run found :=
  if negb (truthy url) then ret (None, None)
  else
    match url with
    | JStr u =>
        cands ← catch (l ← fetch_html_candidates u; ret (Some l)) (ret None);
        match cands with
        | None => ret (None, None)
        | Some l => first_usable l
        end
    | _ => ret (None, None)   (* requests refuses it inside the try *)
    end.

Definition wikimedia_file_url (filename : str) : result str :=
  match quote filename with
  | Returned q =>
      Returned (cps "https://commons.wikimedia.org/wiki/Special:FilePath/" ++ q)
  | Raised e => Raised e
  end.

Definition find_image_from_wikimedia (filename : json) : M run found :=
  if negb (truthy filename) then ret (None, None)
  else
    match filename with
    | JStr f =>
        file_url ← lift (wikimedia_file_url f);   (* outside the try *)
        image ← catch (download_image file_url) (ret None);
        match image with
        | Some im => ret (Some im, Some file_url)
        | None => ret (None, None)
        end
    | _ => raise TypeError    (* quote, outside the try *)
    end.

Definition find_image_from_bdbase (name : str) (bdbase_map : gmap str str)
    : M run found :=
  let key := normalize_key name in
  let url := if decide (bdbase_map = ∅) then None else bdbase_map !! key in
  url ←
    (match url with
     | Some (c :: u) => ret (Some (c :: u))
     | _ => fetch_bdbase_logo_by_slug (slugify_bdbase name)
     end);
  match url with
  | Some (c :: u) =>
      image ← catch (download_image (c :: u)) (ret None);
      match image with
      | Some im => ret (Some im, Some (c :: u))
      | None => ret (None, None)
      end
  | _ => ret (None, None)
  end.

End Resolver.

(** ** [main]: the step for one publisher *)

Inductive preference := PreferOfficial | PreferWikimedia.

(** The options of the command line that the loop reads. *)
Record options := Options {
  output_root : str;
  opt_size : Z;                 (* --size *)
  prefer : preference;          (* --prefer *)
  dry_run : bool;
  use_bdbase : bool;
  opt_update_folder_info : bool (* --update-folder-info *)
}.

(** The class of characters [sanitize_folder_name] replaces:
    backslash, slash, colon, star, question mark, double quote, angle
    brackets and bar. *)
Definition is_unsafe_path_char (c : codepoint) : bool :=
  ((c =? 92) || (c =? 47) || (c =? 58) || (c =? 42) || (c =? 63)
   || (c =? 34) || (c =? 60) || (c =? 62) || (c =? 124))%N.

Definition sanitize_folder_name (name : str) : str :=
  sub_chars is_unsafe_path_char (cps "-") (strip name).

(** [os.path.join(a, b)] for a relative [b] *)
Definition path_join (a b : str) : str :=
  match a with
  | [] => b
  | _ => if endswith (cps "/") a then a ++ b else a ++ cps "/" ++ b
  end.

Section Main.
Context {L : PyLib}.
Variable w : web.
Variable args : options.
Variable bdbase_map : gmap str str.

(** Lines 569 to 573: the cached record, or a resolution that is cached
    and saved. *)
Definition cached_or_resolved (name : str) : M run json :=
  s ← get_state;
  info ← lift (py_get (cache s) name JNull);
  if negb (truthy info) then
    info ← resolve_publisher_info w name (cps "fr");
    s ← get_state;
    cache' ← lift (py_setitem (cache s) name info);
    modify (set_cache cache');;
    save_cache;;
    ret info
  else ret info.

(** Lines 575 to 587: the description and the website of the directory
    site, fetched once and kept in the record. *)
Definition supplemental (name : str) (info : json) : M run (json * json * json) :=
  if opt_update_folder_info args && use_bdbase args then
    has_d ← lift (py_in (cps "bdbase_description") info);
    has_w ← (if negb has_d then ret false
             else lift (py_in (cps "bdbase_website") info));
    info ←
      (if negb has_d || negb has_w then
         details ← fetch_bdbase_details w name;
         match details with
         | Some d =>
             v1 ← lift (py_get d (cps "description") JNull);
             info ← lift (py_setitem info (cps "bdbase_description") v1);
             v2 ← lift (py_get d (cps "website") JNull);
             info ← lift (py_setitem info (cps "bdbase_website") v2);
             v3 ← lift (py_get d (cps "bdbase_url") JNull);
             info ← lift (py_setitem info (cps "bdbase_url") v3);
             s ← get_state;
             cache' ← lift (py_setitem (cache s) name info);
             modify (set_cache cache');;
             save_cache;;
             ret info
         | None => ret info
         end
       else ret info);
    description ← lift (py_get info (cps "bdbase_description") JNull);
    website ← lift (py_get info (cps "bdbase_website") JNull);
    ret (info, description, website)
  else ret (info, JNull, JNull).

(** Lines 597 to 611: the sources in the order of [--prefer]. *)
Definition acquire_image (name : str) (info : json) : M run found :=
  match prefer args with
  | PreferOfficial =>
      official_url ← lift (py_get info (cps "official_url") JNull);
      r ← find_image_from_official_site w official_url;
      r ← (if negb (bool_decide (is_Some (fst r))) && use_bdbase args
           then find_image_from_bdbase w name bdbase_map else ret r);
      if negb (bool_decide (is_Some (fst r))) then
        logo_filename ← lift (py_get info (cps "logo_filename") JNull);
        find_image_from_wikimedia w logo_filename
      else ret r
  | PreferWikimedia =>
      logo_filename ← lift (py_get info (cps "logo_filename") JNull);
      r ← find_image_from_wikimedia w logo_filename;
      r ← (if negb (bool_decide (is_Some (fst r))) && use_bdbase args
           then find_image_from_bdbase w name bdbase_map else ret r);
      if negb (bool_decide (is_Some (fst r))) then
        official_url ← lift (py_get info (cps "official_url") JNull);
        find_image_from_official_site w official_url
      else ret r
  end.

Definition info_row (name safe_name : str) (info : json) (source_url : json)
    (target_image : str) (status : string) : M run (list json) :=
  wiki_title ← lift (py_get info (cps "wiki_title") JNull);
  wiki_lang ← lift (py_get info (cps "wiki_lang") JNull);
  qid ← lift (py_get info (cps "qid") JNull);
  official_url ← lift (py_get info (cps "official_url") JNull);
  logo_filename ← lift (py_get info (cps "logo_filename") JNull);
  ret [JStr name; JStr safe_name; wiki_title; wiki_lang; qid; official_url;
       logo_filename; source_url; JStr target_image; JStr (cps status)].

Definition exists_row (name safe_name target_image : str) : list json :=
  [JStr name; JStr safe_name; JStr []; JStr []; JStr []; JStr []; JStr [];
   JStr []; JStr target_image; JStr (cps "exists")].

(** The body of the loop over the publishers ([print], [time.sleep] and
    the creation of folders leave the state as it is). *)
Definition process_publisher (name : str) : M run unit :=
  let safe_name := sanitize_folder_name name in
  let target_dir := path_join (output_root args) safe_name in
  let target_image := path_join target_dir (cps "folder.jpg") in
  let folder_info_path := path_join target_dir (cps "folder-info.html") in
  s ← get_state;
  let image_exists := bool_decide (is_Some (disk_images s !! target_image)) in
  if image_exists && negb (opt_update_folder_info args) then
    write_report_row (exists_row name safe_name target_image)
  else
    info ← cached_or_resolved name;
    '(info, description, website) ← supplemental name info;
    let wants_block :=
      opt_update_folder_info args && (truthy description || truthy website) in
    if image_exists then
      (if wants_block
       then update_folder_info folder_info_path description website
       else ret tt);;
      write_report_row (exists_row name safe_name target_image)
    else
      '(image, source_url) ← acquire_image name info;
      match image with
      | None =>
          row ← info_row name safe_name info
                  (JStr (default [] source_url)) target_image "no_image";
          write_report_row row;;
          (if wants_block
           then update_folder_info folder_info_path description website
           else ret tt)
      | Some image =>
          (if negb (dry_run args) then
             image ← lift (make_square (convert_rgb w) image (opt_size args));
             save_image target_image image;;
             (if wants_block
              then update_folder_info folder_info_path description website
              else ret tt)
           else ret tt);;
          row ← info_row name safe_name info (opt_json source_url)
                  target_image (if dry_run args then "dry_run" else "ok");
          write_report_row row
      end.

(** The loop itself: an exception ends the run. *)
Fixpoint process_all (names : list str) : M run unit :=
  match names with
  | [] => ret tt
  | name :: rest => process_publisher name;; process_all rest
  end.

End Main.

(** ** [main]: from the cache file to the end of the loop *)

(** The state before the first publisher. *)
Definition initial_run (c : json) (images : gmap str pil_image) : run :=
  {| cache := c; cache_writes := []; requests := []; report := [];
     disk_images := images; folder_info_updates := [] |}.

(** [main], given the content of the cache file if there is one, the
    images already on disk, the map [fetch_bdbase_map] gives and the
    publishers left after [--only-missing], [--start] and [--limit].  The
    cache is loaded before anything else; when loading raises, [cache] is
    never bound. *)
Definition main {L : PyLib} (w : web) (args : options)
    (bdbase_map : gmap str str) (cache_file : option str)
    (images : gmap str pil_image) (publishers : list str)
    : run * result unit :=
  match load_cache cache_file with
  | Raised e => (initial_run JNull images, Raised e)
  | Returned c => process_all w args bdbase_map publishers (initial_run c images)
  end.

(** The requests that resolve the metadata of a publisher. *)
Definition is_metadata_call (c : caller) : bool :=
  match c with
  | ByWikiSearch | ByWikiPageprops | ByWikidataClaims => true
  | _ => false
  end.

(** [s'] has the requests of [s] and then some, all of them by callers
    in [P]. *)
Definition extends_requests (P : caller -> bool) (s s' : run) : Prop :=
  exists new,
    requests s' = requests s ++ new
    /\ Forall (fun rq => P (req_by rq) = true) new.

Definition only_calls {A} (P : caller -> bool) (m : M run A) : Prop :=
  forall s, extends_requests P s (fst (m s)).

(** ** Notions used in the statements *)

(** What the specification asks of the result for an image: an opaque RGB
    square of the target size, resampled from the centred square crop of
    the raster [flat] on the smaller side of the image. *)
Definition square_of (image : pil_image) (size : Z) (flat : raster)
    (out : pil_image) : Prop :=
  exists l t r b,
    out = {| mode := ModeRGB; width := size; height := size;
             pixels := ResizedLanczos size size (Cropped l t r b flat) |}
    /\ (r - l = Z.min (width image) (height image)
        /\ b - t = Z.min (width image) (height image)
        /\ 0 <= l /\ r <= width image /\ 0 <= t /\ b <= height image
        /\ l <= width image - r <= l + 1
        /\ t <= height image - b <= t + 1)%Z.

(** The default configuration, [--request-attempts 3] and
    [--delay-range 1 3], against a host that refuses every connection. *)
Definition refusing_host : @environment unit :=
  {| normalvariate := fun _ mean _ => mean;
     original_request := fun _ _ _ => Raised ConnectionError;
     latency := fun _ => FFin (Qmake 1 10);
     netloc_of := fun u => u |}.

Definition default_arguments : arguments :=
  {| request_attempts := 3;
     delay_range := (FFin (Qmake 1 1), FFin (Qmake 3 1)) |}.

(** Descending order of the scores. *)
Definition score_ge (a b : candidate) : Prop :=
  (cand_score b <= cand_score a)%Z.

Section Specified.
Context {L : PyLib}.

(** The value of an attribute of a tag, as [handle_starttag] reads it. *)
Definition tag_attr (attrs : attr_list) (k : string) : str :=
  or_str (attr_get (make_attrs_dict attrs) k) [].

(** The base URL in effect after the tags [before]: the [href] of the
    last [base] tag that has one, and the URL of the page without one. *)
Fixpoint page_base (base : str) (before : list (str * attr_list)) : str :=
  match before with
  | [] => base
  | t :: rest =>
      page_base
        (if str_eqb (lower (fst t)) (cps "base")
            && nonempty (tag_attr (snd t) "href")
         then tag_attr (snd t) "href" else base)
        rest
  end.

(** What the specification says of a candidate, by the kind of tag it
    comes from: where its URL is read, resolved against the base, and how
    it is scored.  The heuristic of an [img] tag is over the value of its
    [src] attribute as written in the page. *)
Definition scored_as_specified (base tag : str) (attrs : attr_list)
    (c : candidate) : Prop :=
  match cand_source c with
  | SrcMeta =>
      lower tag = cps "meta"
      /\ In (lower (or_str (attr_get (make_attrs_dict attrs) "property")
                      (tag_attr attrs "name")))
           [cps "og:image"; cps "twitter:image"; cps "twitter:image:src"]
      /\ cand_url c = urljoin base (tag_attr attrs "content")
      /\ cand_score c = 8%Z
  | SrcIcon =>
      lower tag = cps "link"
      /\ cand_url c = urljoin base (tag_attr attrs "href")
      /\ cand_score c = 6%Z
      /\ contains (cps "icon") (lower (tag_attr attrs "rel")) = true
  | SrcImg =>
      lower tag = cps "img"
      /\ cand_url c = urljoin base (tag_attr attrs "src")
      /\ cand_score c
         = heuristic_score (tag_attr attrs "src") (tag_attr attrs "alt")
             (tag_attr attrs "class") (tag_attr attrs "id")
  end.

End Specified.

(** The shape of a key: lowercase letters, digits and spaces, and no space
    next to another one. *)
Fixpoint spaced (s : str) : bool :=
  match s with
  | [] => true
  | c :: s' =>
      key_char c
      && (if N.eqb c space
          then match s' with d :: _ => negb (N.eqb d space) | [] => true end
          else true)
      && spaced s'
  end.

Definition starts_clean (s : str) : bool :=
  match s with
  | c :: _ => negb (N.eqb c space)
  | [] => true
  end.

(** Only key characters, single spaces, and no space at either end. *)
Definition well_formed_key (s : str) : bool :=
  spaced s && starts_clean s && starts_clean (rev s).

Definition not_alnum (c : codepoint) : bool := negb (is_lower_alnum c).

(** The requests of the image sources. *)
Definition is_image_call (c : caller) : bool := negb (is_metadata_call c).


(** The requests of the scan of the official site. *)
Definition is_official_call (c : caller) : bool :=
  match c with
  | ByHtmlCandidates | ByDownloadImage => true
  | _ => false
  end.

(** The answer to a request passes [raise_for_status]. *)
Definition status_ok (resp : http_response) : bool :=
  negb ((400 <=? status_code resp)%Z && (status_code resp <? 600)%Z).

(** ** Worlds for the examples *)

Definition acme : str := cps "Acme Comics".

Definition acme_site : str := cps "https://acme.example/".

Definition acme_info : json :=
  make_info (JStr (cps "Acme Comics")) (cps "fr") (JStr (cps "Q1"))
    (JStr acme_site) (JStr (cps "Acme logo.png")).

(** No host can be reached. *)
Definition offline : web :=
  {| http_get := fun _ _ _ => Raised ConnectionError;
     start_tags := fun _ => [];
     open_image := fun _ => None;
     convert_rgb := pillow_convert_rgb;
     bdbase_logo_in := fun _ => None;
     bdbase_description_in := fun _ => None;
     bdbase_website_in := fun _ => None |}.

Definition acme_logo : pil_image :=
  {| mode := ModeRGB; width := 1200; height := 630; pixels := Decoded [1; 2; 3]%N |}.

(** The official site answers with a page whose head has an og:image, the
    image itself can be downloaded, and nothing else is reachable. *)
Definition acme_web : web :=
  {| http_get := fun _ url _ =>
       if str_eqb url acme_site then
         Returned {| status_code := 200; resp_url := acme_site;
                     content_type := Some (cps "text/html");
                     text := cps "<html>"; chunks := [] |}
       else if str_eqb url (cps "https://acme.example/og.png") then
         Returned {| status_code := 200;
                     resp_url := cps "https://acme.example/og.png";
                     content_type := Some (cps "image/png");
                     text := []; chunks := [[1; 2; 3]%N] |}
       else Raised ConnectionError;
     start_tags := fun _ =>
       [(cps "meta", [(cps "property", Some (cps "og:image"));
                      (cps "content", Some (cps "og.png"))]);
        (cps "img", [(cps "src", Some (cps "banner.svg"))])];
     open_image := fun _ => Some acme_logo;
     convert_rgb := pillow_convert_rgb;
     bdbase_logo_in := fun _ => None;
     bdbase_description_in := fun _ => None;
     bdbase_website_in := fun _ => None |}.

Definition default_options : options :=
  {| output_root := cps "/out"; opt_size := 312; prefer := PreferOfficial;
     dry_run := false; use_bdbase := false; opt_update_folder_info := false |}.

(** The text of a cache file cut off in the middle of a record. *)
Definition truncated_cache : str :=
  [123; 34; 65; 34; 58; 32; 123; 34; 113; 105; 100; 34; 58]%N.


(** What [request] makes of the outcome of a dispatch. *)
Definition request_outcome {response} (out : result response)
    : result (option response) :=
  match out with
  | Returned r => Returned (Some r)
  | Raised e => Raised e
  end.

(** A host that refuses the first connection and answers the second. *)
Definition flaky_host : @environment nat :=
  {| normalvariate := fun _ mean _ => mean;
     original_request := fun n _ _ =>
       match n with
       | O => Raised ConnectionError
       | S _ => Returned n
       end;
     latency := fun _ => FFin (Qmake 1 10);
     netloc_of := fun u => u |}.

Definition single_attempt : arguments :=
  {| request_attempts := 1;
     delay_range := (FFin (Qmake 1 1), FFin (Qmake 3 1)) |}.

(** A computation leaves a part [f] of the state as it found it. *)
Definition preserves {X A} (f : run -> X) (m : M run A) : Prop :=
  forall s, f (fst (m s)) = f s.

(** The parts of the state the fetchers never write: they only add to the
    list of requests. *)
Definition fetch_frame {X} (f : run -> X) : Prop :=
  forall s rq,
    f {| cache := cache s; cache_writes := cache_writes s;
         requests := rq; report := report s;
         disk_images := disk_images s;
         folder_info_updates := folder_info_updates s |} = f s.

(** The path of the image of a publisher. *)
Definition target_image_of (args : options) (name : str) : str :=
  path_join (path_join (output_root args) (sanitize_folder_name name))
    (cps "folder.jpg").

(** The first column of a row of the report. *)
Definition row_publisher (row : list json) : json := nth 0 row JNull.

Definition dry_options : options :=
  {| output_root := cps "/out"; opt_size := 312; prefer := PreferOfficial;
     dry_run := true; use_bdbase := false; opt_update_folder_info := false |}.

(** What a step may do to the images on disk: nothing, or, outside a dry
    run, save one RGB square of the configured size as the image of the
    publisher. *)
Definition saved_square (args : options) (name : str) (s s' : run) : Prop :=
  disk_images s' = disk_images s
  \/ exists im,
       disk_images s' = <[target_image_of args name := im]> (disk_images s)
       /\ mode im = ModeRGB
       /\ width im = opt_size args
       /\ height im = opt_size args
       /\ dry_run args = false.

(** [s'] has the requests of [s] and at most [n] more, all by callers in
    [P]. *)
Definition extends_within (n : nat) (P : caller -> bool) (s s' : run) : Prop :=
  exists new,
    requests s' = requests s ++ new
    /\ length new <= n
    /\ Forall (fun rq => P (req_by rq) = true) new.

Definition calls_within {A} (n : nat) (P : caller -> bool) (m : M run A)
    : Prop :=
  forall s, extends_within n P s (fst (m s)).

(** The search answers with one hit, and nothing else is reachable. *)
Definition search_only_web : web :=
  {| http_get := fun n _ _ =>
       match n with
       | O => Returned {| status_code := 200; resp_url := [];
                          content_type := None;
                          text := [123; 34; 113; 117; 101; 114; 121; 34; 58;
                                   123; 34; 115; 101; 97; 114; 99; 104; 34;
                                   58; 91; 123; 34; 116; 105; 116; 108; 101;
                                   34; 58; 34; 65; 34; 125; 93; 125; 125]%N;
                          chunks := [] |}
       | S _ => Returned {| status_code := 200; resp_url := [];
                            content_type := None;
                            text := [123; 125]%N; chunks := [] |}
       end;
     start_tags := fun _ => [];
     open_image := fun _ => None;
     convert_rgb := pillow_convert_rgb;
     bdbase_logo_in := fun _ => None;
     bdbase_description_in := fun _ => None;
     bdbase_website_in := fun _ => None |}.

(** ** Text helpers of the two scripts *)

(** [parse_publishers], over the lines of the source list. *)
Definition parse_publishers (lines : list str) : list str :=
  flat_map
    (fun line =>
       let line := strip line in
       if startswith (cps "- ") line then [strip (skipn 2 line)] else [])
    lines.

(** [strip_tags], over the text chunks [TextExtractor.handle_data]
    receives: the chunks that are not empty, joined with spaces, white
    space collapsed, stripped. *)
Definition strip_tags (chunks : list str) : str :=
  strip (sub_runs is_space (cps " ")
           (join (cps " ") (List.filter nonempty chunks))).

(** [re.sub("[...][...]+", rep, s)]: every maximal run of two or more
    characters of the class becomes one [rep]; [in_run] says that the
    characters just before belonged to such a run. *)
Fixpoint sub_long_runs (cls : codepoint -> bool) (rep : str) (in_run : bool)
    (s : str) : str :=
  match s with
  | [] => []
  | c :: s' =>
      if cls c then
        if in_run then sub_long_runs cls rep true s'
        else
          match s' with
          | d :: _ =>
              if cls d then rep ++ sub_long_runs cls rep true s'
              else c :: sub_long_runs cls rep false s'
          | [] => [c]
          end
      else c :: sub_long_runs cls rep false s'
  end.

(** [normalize_whitespace] of comixology-to-ubooquity.py:
    [WHITESPACE_REGEX.sub(' ', string).strip()]. *)
Definition normalize_whitespace (s : str) : str :=
  strip (sub_long_runs is_space (cps " ") false s).

(** [get_safe_file_name]: the characters of [UNSAFE_CHARACTERS] (slash,
    angle brackets, colon, double quote, backslash, bar, question mark and
    star) are replaced. *)
Definition get_safe_file_name (file_name replacement : str) : str :=
  sub_chars is_unsafe_path_char replacement file_name.

(** No two characters of the class next to each other. *)
Fixpoint separated (cls : codepoint -> bool) (s : str) : bool :=
  match s with
  | [] => true
  | c :: s' =>
      (if cls c
       then match s' with d :: _ => negb (cls d) | [] => true end
       else true)
      && separated cls s'
  end.

(** No character of the class at either end. *)
Definition trimmed (cls : codepoint -> bool) (s : str) : Prop :=
  match s with c :: _ => cls c = false | [] => True end
  /\ match rev s with c :: _ => cls c = false | [] => True end.

(** A slug: lowercase letters, digits and single hyphens between them. *)
Definition well_formed_slug (s : str) : Prop :=
  forallb (fun c => is_lower_alnum c || is_hyphen c) s = true
  /\ separated is_hyphen s = true
  /\ trimmed is_hyphen s.

(** ** The directory site: [BdbaseEditorParser] and [fetch_bdbase_map] *)

(** What [HTMLParser.feed] reports, in document order. *)
Inductive html_event :=
| StartTag (tag : str) (attrs : attr_list)
| TextData (data : str)
| EndTag (tag : str).

Record editor_parser := EditorParser {
  entries : list (str * str);
  _last_image_src : option str;
  _last_image_alt : option str;
  _in_link : bool;
  _link_text : str
}.

(** [BdbaseEditorParser()] *)
Definition new_editor_parser : editor_parser :=
  {| entries := []; _last_image_src := None; _last_image_alt := None;
     _in_link := false; _link_text := [] |}.

Section Editors.
Context {L : PyLib}.

Definition editor_starttag (p : editor_parser) (tag : str) (attrs : attr_list)
    : editor_parser :=
  let attrs_dict := make_attrs_dict attrs in
  if str_eqb (lower tag) (cps "img") then
    let src := or_str (attr_get attrs_dict "src") [] in
    if contains (cps "/images/editeurs/") src then
      {| entries := entries p;
         _last_image_src := Some src;
         _last_image_alt := Some (or_str (attr_get attrs_dict "alt") []);
         _in_link := _in_link p; _link_text := _link_text p |}
    else p
  else if str_eqb (lower tag) (cps "a") then
    let href := or_str (attr_get attrs_dict "href") [] in
    if startswith (cps "/editeurs/") href then
      {| entries := entries p;
         _last_image_src := _last_image_src p;
         _last_image_alt := _last_image_alt p;
         _in_link := true; _link_text := [] |}
    else p
  else p.

Definition editor_data (p : editor_parser) (data : str) : editor_parser :=
  if _in_link p then
    {| entries := entries p;
       _last_image_src := _last_image_src p;
       _last_image_alt := _last_image_alt p;
       _in_link := true; _link_text := _link_text p ++ data |}
  else p.

Definition editor_endtag (p : editor_parser) (tag : str) : editor_parser :=
  if str_eqb (lower tag) (cps "a") && _in_link p then
    let name :=
      match strip (_link_text p) with
      | c :: t => Some (c :: t)
      | [] => _last_image_alt p
      end in
    let entries' :=
      match name, _last_image_src p with
      | Some (c :: n), Some (d :: src) =>
          entries p ++ [(c :: n, d :: src)]
      | _, _ => entries p
      end in
    {| entries := entries';
       _last_image_src := _last_image_src p;
       _last_image_alt := _last_image_alt p;
       _in_link := false; _link_text := [] |}
  else p.

Definition editor_event (p : editor_parser) (e : html_event) : editor_parser :=
  match e with
  | StartTag tag attrs => editor_starttag p tag attrs
  | TextData data => editor_data p data
  | EndTag tag => editor_endtag p tag
  end.

(** [parser.feed(text)] on a fresh parser, and its [entries]. *)
Definition editor_entries (events : list html_event) : list (str * str) :=
  entries (fold_left editor_event events new_editor_parser).

(** The loop of [fetch_bdbase_map] over the entries: the first image of a
    key is kept, names without a key are skipped. *)
Definition bdbase_map_step (m : gmap str str) (entry : str * str)
    : gmap str str :=
  let key := normalize_key (fst entry) in
  if nonempty key && negb (bool_decide (is_Some (m !! key)))
  then <[key := snd entry]> m else m.

Definition bdbase_map_of (found : list (str * str)) : gmap str str :=
  fold_left bdbase_map_step found ∅.

(** The first entry whose name has the key. *)
Definition first_with_key (key : str) (found : list (str * str))
    : option str :=
  option_map snd
    (List.find (fun entry => str_eqb (normalize_key (fst entry)) key) found).

(** An entry taken from an image of the editors' directory. *)
Definition from_editor_image (entry : str * str) : Prop :=
  fst entry <> []
  /\ contains (cps "/images/editeurs/") (snd entry) = true.

(** A candidate that a tag can add: a URL joined from a value that is
    neither empty nor inline data. *)
Definition joined_from_link (c : candidate) : Prop :=
  exists base u,
    cand_url c = urljoin base u
    /\ nonempty u = true
    /\ startswith (cps "data:") u = false.

End Editors.

(** ** PaginatedCrawler: [scrape_publisher_list] and
    [scrape_publisher_series_list] *)

Section Crawler.
Context {L : PyLib} {response item : Type}.
Variable env : @environment response.
Variable args : arguments.
(** What the page scraper of the caller reads from the page of a response
    (it raises on an item without its image link), the next-page link (its
    [href] may be missing), and [response.url]. *)
Variable items_of : response -> result (list item).
Variable next_of : response -> result (option str).
Variable url_of : response -> str.

(** The [while True] loop, with the pages it may still visit as fuel;
    [None] stands for a loop that has not ended by then.  [session.get]
    is [request] with the method GET, and reading the page of [None]
    raises [AttributeError]. *)
Fixpoint scrape_list (fuel : nat) (page_url : str) (found : list item)
    : M session (option (list item)) :=
  match fuel with
  | O => ret None
  | S fuel' =>
      fun s =>
        match request env args (cps "GET") page_url s with
        | (s', Returned (Some resp)) =>
            match items_of resp with
            | Returned items =>
                let found := found ++ items in
                match next_of resp with
                | Returned None => (s', Returned (Some found))
                | Returned (Some href) =>
                    scrape_list fuel' (urljoin (url_of resp) href) found s'
                | Raised e => (s', Raised e)
                end
            | Raised e => (s', Raised e)
            end
        | (s', Returned None) => (s', Raised AttributeError)
        | (s', Raised e) => (s', Raised e)
        end
  end.

(** Every dispatch of a GET of [url] is answered with [resp]. *)
Definition serves (url : str) (resp : response) : Prop :=
  forall n, original_request env n (cps "GET") url = Returned resp.

(** A listing: the items of the pages reached from [url] by following the
    next-page links, up to a page without one. *)
Inductive listing : str -> list (list item) -> Prop :=
| listing_last url resp items :
    serves url resp ->
    items_of resp = Returned items ->
    next_of resp = Returned None ->
    listing url [items]
| listing_next url resp items href rest :
    serves url resp ->
    items_of resp = Returned items ->
    next_of resp = Returned (Some href) ->
    listing (urljoin (url_of resp) href) rest ->
    listing url (items :: rest).

End Crawler.

(** Three pages of two, one and no item. *)
Definition three_pages : @environment nat :=
  {| normalvariate := fun _ mean _ => mean;
     original_request := fun _ _ url =>
       if str_eqb url (cps "p1") then Returned 1
       else if str_eqb url (cps "p2") then Returned 2
       else Returned 3;
     latency := fun _ => FFin (Qmake 1 10);
     netloc_of := fun u => u |}.

Definition three_pages_items (resp : nat) : result (list nat) :=
  match resp with
  | 1 => Returned [10; 11]
  | 2 => Returned [20]
  | _ => Returned []
  end.

Definition three_pages_next (resp : nat) : result (option (list N)) :=
  match resp with
  | 1 => Returned (Some (cps "p2"))
  | 2 => Returned (Some (cps "p3"))
  | _ => Returned None
  end.

(** * Properties *)


(** ** Strings *)

(** [contains] is the substring test. *)
Lemma startswith_spec p s : startswith p s = true <-> exists t, s = p ++ t.
Proof.
  revert s. induction p as [| a p IH]; intros s; cbn.
  - split; [intros _; exists s; reflexivity | reflexivity].
  - destruct s as [| b s]; [split; [discriminate | intros [t Ht]; discriminate] |].
    rewrite andb_true_iff, N.eqb_eq, IH. split.
    + intros [-> [t ->]]. exists t. reflexivity.
    + intros [t Ht]. injection Ht as -> ->. split; [reflexivity | exists t; reflexivity].
Qed.

Lemma contains_spec p s :
  contains p s = true <-> exists a b, s = a ++ p ++ b.
Proof.
  induction s as [| c s IH]; cbn [contains]; rewrite orb_true_iff, startswith_spec.
  - split.
    + intros [[t Ht] | H]; [| discriminate]. exists [], t. exact Ht.
    + intros (a & b & H). left.
      destruct a; [exists b; exact H | discriminate].
  - rewrite IH. split.
    + intros [[t Ht] | (a & b & ->)].
      * exists [], t. exact Ht.
      * exists (c :: a), b. reflexivity.
    + intros (a & b & H). destruct a as [| x a].
      * left. exists b. exact H.
      * right. injection H as -> ->. exists a, b. reflexivity.
Qed.

(** A word without a space does not reach across one. *)
Lemma startswith_app_space p a b :
  Forall (fun c => c <> space) p ->
  startswith p (a ++ space :: b) = startswith p a.
Proof.
  intros Hp. revert a. induction Hp as [| x p Hx Hp IH]; intros a; [reflexivity |].
  destruct a as [| y a]; cbn.
  - destruct (N.eqb_spec x space); [contradiction | reflexivity].
  - rewrite IH. reflexivity.
Qed.

Lemma contains_app_space p a b :
  p <> [] -> Forall (fun c => c <> space) p ->
  contains p (a ++ space :: b) = contains p a || contains p b.
Proof.
  intros Hne Hp. induction a as [| y a IH].
  - change ([] ++ space :: b) with (space :: b). cbn [contains].
    rewrite <- (startswith_app_space p [] b Hp).
    destruct p as [| x p]; [contradiction |]. cbn.
    inversion Hp as [| ? ? Hx _]; subst.
    destruct (N.eqb_spec x space); [contradiction | reflexivity].
  - change ((y :: a) ++ space :: b) with (y :: (a ++ space :: b)).
    cbn [contains].
    change (y :: (a ++ space :: b)) with ((y :: a) ++ space :: b).
    rewrite startswith_app_space by exact Hp.
    rewrite IH, orb_assoc. reflexivity.
Qed.

Section ScoreFacts.
Context {L : PyLib}.
Hypothesis laws : UnicodeLaws L.

Lemma lower_join4 (a b c d : str) :
  lower (join (cps " ") [a; b; c; d])
  = lower a ++ space :: lower b ++ space :: lower c ++ space :: lower d.
Proof.
  change (join (cps " ") [a; b; c; d])
    with (a ++ space :: (b ++ space :: (c ++ space :: d))).
  rewrite !(lower_join L laws). reflexivity.
Qed.

Lemma mentions_join word (a b c d : str) :
  cps word <> [] -> Forall (fun c => c <> space) (cps word) ->
  contains (cps word) (lower (join (cps " ") [a; b; c; d]))
  = mentions word [a; b; c; d].
Proof.
  intros Hne Hp. rewrite lower_join4. unfold mentions. cbn [existsb].
  rewrite !contains_app_space by assumption.
  rewrite orb_false_r, !orb_assoc. reflexivity.
Qed.

Ltac word_ok :=
  first [ discriminate
        | repeat constructor; discriminate ].

(** The score of the code is the additive heuristic, attribute by
    attribute. *)
Lemma score_is_heuristic (url alt klass img_id : str) :
  score_image_candidate url alt klass img_id
  = heuristic_score url alt klass img_id.
Proof.
  unfold score_image_candidate, heuristic_score, has_extension.
  rewrite !mentions_join by (vm_compute; word_ok).
  cbn [existsb List.map]. rewrite !orb_false_r.
  repeat match goal with
         | |- context [if ?b then _ else _] => destruct b
         end; reflexivity.
Qed.

End ScoreFacts.



(** ** CandidateRanker: the range of the score *)

(** C10: for all url, alt text, class and id, [score_image_candidate]
    returns an integer between -4 and 12. *)
Theorem score_image_candidate_range `{L : PyLib} (url alt klass img_id : str) :
  (-4 <= score_image_candidate url alt klass img_id <= 12)%Z.
Proof.
  unfold score_image_candidate.
  repeat match goal with
         | |- context [if ?b then _ else _] => destruct b
         end; lia.
Qed.

(** Both ends of the range are reached. *)
Example score_reaches_12 :
  @score_image_candidate ascii_lib
    (cps "/img/Logo-Brand.PNG") (cps "header") [] [] = 12%Z.
Proof. reflexivity. Qed.

Example score_reaches_minus_4 :
  @score_image_candidate ascii_lib (cps "/img/sprite.svg") [] [] [] = (-4)%Z.
Proof. reflexivity. Qed.

(** ** ThrottledTransport: the pacing delay *)

Lemma flt_fle a b : flt a b = true -> fle a b = true.
Proof.
  destruct a, b; simpl; try reflexivity; try discriminate.
  intros H. apply negb_true_iff in H.
  apply Qle_bool_iff. apply Qlt_le_weak. apply Qnot_le_lt.
  intros Hle. apply Qle_bool_iff in Hle. congruence.
Qed.

Lemma fle_refl_l a b : fle a b = true -> fle a a = true.
Proof.
  destruct a, b; simpl; try reflexivity; try discriminate;
    intros _; apply Qle_bool_iff, Qle_refl.
Qed.

Lemma fle_refl_r a b : fle a b = true -> fle b b = true.
Proof.
  destruct a, b; simpl; try reflexivity; try discriminate;
    intros _; apply Qle_bool_iff, Qle_refl.
Qed.

(** Clamping a value, NaN included, into a range. *)
Lemma clamp_in_range lo hi d :
  fle lo hi = true ->
  fle lo (py_max lo (py_min hi d)) = true /\
  fle (py_max lo (py_min hi d)) hi = true.
Proof.
  intros Hr. unfold py_max, py_min.
  destruct (flt d hi) eqn:Hd.
  - destruct (flt lo d) eqn:Hl.
    + split; apply flt_fle; assumption.
    + split; [eapply fle_refl_l; eassumption | assumption].
  - destruct (flt lo hi) eqn:Hl.
    + split; [assumption | eapply fle_refl_r; eassumption].
    + split; [eapply fle_refl_l; eassumption | assumption].
Qed.

(** C7: for every range with [lower <= upper] and every draw of the normal
    distribution, the delay [get_random_delay] returns lies in the
    range. *)
Theorem get_random_delay_in_range
    (normalvariate : pyfloat -> pyfloat -> pyfloat) (lower upper : pyfloat) :
  fle lower upper = true ->
  fle lower (get_random_delay normalvariate lower upper) = true /\
  fle (get_random_delay normalvariate lower upper) upper = true.
Proof. intros H. unfold get_random_delay. apply clamp_in_range, H. Qed.

Lemma get_random_delay_in_range_witness :
  let lo := FFin (Qmake 1 1) in
  let hi := FFin (Qmake 3 1) in
  let draw := fun _ _ : pyfloat => FFin (Qmake 17 2) in
  fle lo hi = true /\
  fle lo (get_random_delay draw lo hi) = true /\
  fle (get_random_delay draw lo hi) hi = true.
Proof.
  split; [reflexivity |].
  apply (get_random_delay_in_range _ (FFin (Qmake 1 1)) (FFin (Qmake 3 1))).
  reflexivity.
Defined.

(** The draw may be anything a float can be. *)
Example get_random_delay_nan :
  get_random_delay (fun _ _ => FNan) (FFin (Qmake 1 1)) (FFin (Qmake 3 1))
  = FFin (Qmake 3 1).
Proof. reflexivity. Qed.


(** ** ThrottledTransport: retries *)

Section TransportFacts.
Context {response : Type}.
Variable env : @environment response.
Variable args : arguments.

Lemma count_dispatches_app (l1 l2 : list event) :
  count_dispatches (l1 ++ l2) = count_dispatches l1 + count_dispatches l2.
Proof.
  unfold count_dispatches. rewrite List.filter_app, length_app. reflexivity.
Qed.

Lemma pace_dispatches netloc s :
  dispatches (pace env args netloc s) = dispatches s /\
  count_dispatches (events (pace env args netloc s)) = count_dispatches (events s).
Proof.
  unfold pace; cbn [dispatches events]. split; [reflexivity |].
  rewrite count_dispatches_app.
  destruct (flt fzero _); cbn; lia.
Qed.

Lemma dispatch_counts netloc method url s :
  dispatches (fst (dispatch env netloc method url s)) = S (dispatches s) /\
  count_dispatches (events (fst (dispatch env netloc method url s)))
    = S (count_dispatches (events s)) /\
  snd (dispatch env netloc method url s)
    = original_request env (dispatches s) method url.
Proof.
  unfold dispatch; cbn [fst snd dispatches events].
  rewrite count_dispatches_app. cbn. repeat split; lia.
Qed.

(** While the attempt number stays below [attempts], a connection error
    only moves the loop on; when the attempts are used up the loop ends
    without an exception. *)
Lemma request_loop_all_fail attempts method url :
  (forall n m u, original_request env n m u = Raised ConnectionError) ->
  forall todo s,
    Forall (fun attempt => (attempt < attempts)%Z) todo ->
    exists s',
      request_loop env args attempts todo method url s = (s', Returned None)
      /\ dispatches s' = dispatches s + length todo
      /\ count_dispatches (events s')
         = count_dispatches (events s) + length todo.
Proof.
  intros Hfail todo. induction todo as [| attempt todo IH]; intros s Hlt.
  - exists s. cbn. repeat split; lia.
  - inversion Hlt as [| ? ? Ha Hrest]; subst.
    cbn [request_loop].
    destruct (pace_dispatches (netloc_of env url) s) as [Hp1 Hp2].
    destruct (dispatch_counts (netloc_of env url) method url
                (pace env args (netloc_of env url) s)) as (Hd1 & Hd2 & Hd3).
    destruct (dispatch env (netloc_of env url) method url
                (pace env args (netloc_of env url) s)) as [s1 r] eqn:E.
    cbn [fst snd] in Hd1, Hd2, Hd3. rewrite Hfail in Hd3. subst r.
    assert (Hc : (attempts <=? attempt)%Z = false) by (apply Z.leb_gt; lia).
    rewrite Hc.
    destruct (IH s1 Hrest) as (s' & Hrun & Hn & Hm).
    exists s'. rewrite Hrun. cbn [length]. repeat split; lia.
Qed.

Lemma py_range_below lo hi :
  Forall (fun i => (i < hi)%Z) (py_range lo hi).
Proof.
  unfold py_range. apply List.Forall_forall. intros x Hx.
  apply List.in_map_iff in Hx. destruct Hx as (i & <- & Hi).
  apply List.in_seq in Hi. lia.
Qed.

Lemma py_range_length lo hi : length (py_range lo hi) = Z.to_nat (hi - lo).
Proof. unfold py_range. rewrite length_map, length_seq. reflexivity. Qed.

(** C1, what the code does: when every dispatch fails with a connection
    error, [request] dispatches [attempts - 1] times, where [attempts] is
    the configured number (at least 1), and then returns [None]; the
    connection error is never raised to the caller. *)
Theorem request_all_dispatches_fail (method url : str) (s : session) :
  (forall n m u, original_request env n m u = Raised ConnectionError) ->
  exists s',
    request env args method url s = (s', Returned None)
    /\ dispatches s'
       = dispatches s + Z.to_nat (Z.max 1 (request_attempts args) - 1)
    /\ count_dispatches (events s')
       = count_dispatches (events s)
         + Z.to_nat (Z.max 1 (request_attempts args) - 1).
Proof.
  intros Hfail. unfold request.
  destruct (request_loop_all_fail (Z.max 1 (request_attempts args)) method url
              Hfail (py_range 1 (Z.max 1 (request_attempts args))) s
              (py_range_below _ _)) as (s' & Hrun & Hn & Hm).
  exists s'. rewrite py_range_length in Hn, Hm.
  repeat split; [exact Hrun | lia | lia].
Qed.

End TransportFacts.

Lemma request_all_dispatches_fail_witness :
  (forall n m u, original_request refusing_host n m u = Raised ConnectionError)
  /\ exists s',
    request refusing_host default_arguments (cps "GET") (cps "h")
      (new_session fzero) = (s', Returned None)
    /\ dispatches s' = dispatches (new_session fzero) + 2
    /\ count_dispatches (events s')
       = count_dispatches (events (new_session fzero)) + 2.
Proof.
  split; [reflexivity |].
  exact (request_all_dispatches_fail refusing_host default_arguments
           (cps "GET") (cps "h") (new_session fzero)
           (fun _ _ _ => eq_refl)).
Defined.

(** With three configured attempts the failing host is dispatched to
    twice, and the caller gets [None] instead of the connection error. *)
Example request_three_attempts :
  let '(s', r) := request refusing_host default_arguments (cps "GET") (cps "h")
                    (new_session fzero) in
  (r, dispatches s', List.map is_dispatch (events s'))
  = (Returned None, 2, [false; true; false; true]).
Proof. vm_compute. reflexivity. Qed.


(** ** CandidateRanker: the order of the candidates *)

Lemma insert_desc_perm c l : Permutation (c :: l) (insert_desc c l).
Proof.
  induction l as [| d l IH]; cbn; [reflexivity |].
  destruct (cand_score c <? cand_score d)%Z; [| reflexivity].
  rewrite perm_swap. apply perm_skip, IH.
Qed.

Lemma sorted_by_score_desc_perm l : Permutation l (sorted_by_score_desc l).
Proof.
  induction l as [| c l IH]; cbn; [reflexivity |].
  rewrite <- insert_desc_perm. apply perm_skip, IH.
Qed.

Lemma insert_desc_sorted c l :
  StronglySorted score_ge l -> StronglySorted score_ge (insert_desc c l).
Proof.
  induction l as [| d l IH]; intros Hs; cbn.
  - constructor; constructor.
  - inversion Hs as [| ? ? Hl Hd]; subst.
    destruct (cand_score c <? cand_score d)%Z eqn:E.
    + apply Z.ltb_lt in E. constructor; [apply IH, Hl |].
      apply (Permutation_Forall (insert_desc_perm c l)).
      constructor; [unfold score_ge; lia | exact Hd].
    + apply Z.ltb_ge in E. constructor; [exact Hs |].
      constructor; [exact E |].
      eapply List.Forall_impl; [| exact Hd].
      unfold score_ge. intros; lia.
Qed.

Lemma sorted_by_score_desc_sorted l :
  StronglySorted score_ge (sorted_by_score_desc l).
Proof.
  induction l as [| c l IH]; cbn; [constructor | apply insert_desc_sorted, IH].
Qed.

(** Candidates of one score keep their order. *)
Lemma insert_desc_stable k c l :
  filter (fun x => cand_score x = k) (insert_desc c l)
  = filter (fun x => cand_score x = k) (c :: l).
Proof.
  induction l as [| d l IH]; cbn [insert_desc]; [reflexivity |].
  destruct (cand_score c <? cand_score d)%Z eqn:E; [| reflexivity].
  apply Z.ltb_lt in E.
  rewrite (filter_cons _ d), IH, !(filter_cons _ c), (filter_cons _ d).
  repeat case_decide; try reflexivity; lia.
Qed.

Lemma sorted_by_score_desc_stable k l :
  filter (fun x => cand_score x = k) (sorted_by_score_desc l)
  = filter (fun x => cand_score x = k) l.
Proof.
  induction l as [| c l IH]; cbn [sorted_by_score_desc]; [reflexivity |].
  rewrite insert_desc_stable, !(filter_cons _ c), IH. reflexivity.
Qed.

(** C6: the ranking of a page is a function of its final URL and its tags
    alone; the ranked sequence holds exactly the candidates of the page, by
    descending score, and candidates of equal score are in document
    order. *)
Theorem rank_candidates_sorted_stable `{L : PyLib}
    (final_url : str) (tags : list (str * list (str * option str))) :
  let found := candidates (feed (new_parser final_url) tags) in
  let ranked := rank_candidates final_url tags in
  (forall again, again = rank_candidates final_url tags -> again = ranked)
  /\ Permutation found ranked
  /\ StronglySorted score_ge ranked
  /\ (forall k, filter (fun c => cand_score c = k) ranked
                = filter (fun c => cand_score c = k) found).
Proof.
  cbv zeta. unfold rank_candidates. repeat split.
  - intros again ->. reflexivity.
  - apply sorted_by_score_desc_perm.
  - apply sorted_by_score_desc_sorted.
  - intros k. apply sorted_by_score_desc_stable.
Qed.

Example rank_ties_in_document_order :
  List.map (fun c => (cand_score c, cand_source c))
    (@rank_candidates ascii_lib (cps "http://h/")
       [(cps "img", [(cps "src", Some (cps "a.png"))]);
        (cps "img", [(cps "src", Some (cps "logo.png"))]);
        (cps "meta", [(cps "property", Some (cps "og:image"));
                      (cps "content", Some (cps "o.jpg"))]);
        (cps "link", [(cps "rel", Some (cps "icon"));
                      (cps "href", Some (cps "f.ico"))])])
  = [(8%Z, SrcImg); (8%Z, SrcMeta); (6%Z, SrcIcon); (2%Z, SrcImg)].
Proof. vm_compute. reflexivity. Qed.


(** The ASCII instance satisfies the laws. *)
Lemma key_char_not_upper c :
  key_char c = true -> ascii_lower_char c = c.
Proof.
  unfold key_char, is_lower_alnum, ascii_lower_char, space. intros H.
  destruct ((65 <=? c)%N && (c <=? 90)%N) eqn:E; [| reflexivity].
  apply andb_true_iff in E. destruct E as [E1 E2].
  apply N.leb_le in E1, E2.
  rewrite !orb_true_iff, !andb_true_iff, !N.leb_le, N.eqb_eq in H. lia.
Qed.

Lemma ascii_lib_laws : UnicodeLaws ascii_lib.
Proof.
  constructor; cbn.
  - reflexivity.
  - intros s. induction s as [| c s IH]; cbn; [reflexivity |].
    rewrite andb_true_iff. intros [Hc Hs].
    rewrite key_char_not_upper, IH by assumption. reflexivity.
  - reflexivity.
  - intros a b. rewrite List.map_app. reflexivity.
Qed.

Section ParserFacts.
Context {L : PyLib}.
Hypothesis laws : UnicodeLaws L.

Lemma _add_candidate_adds p url score source :
  exists new,
    candidates (_add_candidate p url score source) = candidates p ++ new
    /\ Forall (fun c => cand_url c = urljoin (base_url p) url
                        /\ cand_score c = score /\ cand_source c = source) new.
Proof.
  unfold _add_candidate.
  destruct (negb (nonempty url) || startswith (cps "data:") url).
  - exists []. rewrite app_nil_r. split; [reflexivity | constructor].
  - eexists [_]. cbn. split; [reflexivity |].
    constructor; [repeat split | constructor].
Qed.

Lemma _add_candidate_base p url score source :
  base_url (_add_candidate p url score source) = base_url p.
Proof.
  unfold _add_candidate.
  destruct (negb (nonempty url) || startswith (cps "data:") url); reflexivity.
Qed.

Lemma handle_starttag_adds p tag attrs :
  exists new,
    candidates (handle_starttag p tag attrs) = candidates p ++ new
    /\ Forall (scored_as_specified (base_url p) tag attrs) new.
Proof.
  assert (Hnone : exists new : list candidate,
             candidates p = candidates p ++ new
             /\ Forall (scored_as_specified (base_url p) tag attrs) new).
  { exists []. rewrite app_nil_r. split; [reflexivity | constructor]. }
  unfold handle_starttag.
  destruct (str_eqb (lower tag) (cps "base")).
  { destruct (attr_get (make_attrs_dict attrs) "href") as [[| c h] |];
      cbn [candidates]; exact Hnone. }
  destruct (str_eqb (lower tag) (cps "meta")) eqn:Et.
  { apply bool_decide_eq_true in Et.
    match goal with |- context [if ?b then _ else _] => destruct b eqn:E end;
      [| exact Hnone].
    destruct (_add_candidate_adds p
                (or_str (attr_get (make_attrs_dict attrs) "content") [])
                8 SrcMeta) as (new & -> & Hnew).
    exists new. split; [reflexivity |].
    eapply List.Forall_impl; [| exact Hnew].
    intros c (Hu & Hs & Hk). unfold scored_as_specified. rewrite Hk.
    split; [exact Et |]. split; [| split; assumption].
    apply andb_true_iff in E. destruct E as [E _].
    apply existsb_exists in E. destruct E as (x & Hx & E).
    apply bool_decide_eq_true in E. unfold tag_attr. rewrite E. exact Hx. }
  destruct (str_eqb (lower tag) (cps "link")) eqn:El.
  { apply bool_decide_eq_true in El.
    match goal with |- context [if ?b then _ else _] => destruct b eqn:E end;
      [| exact Hnone].
    destruct (_add_candidate_adds p
                (or_str (attr_get (make_attrs_dict attrs) "href") [])
                6 SrcIcon) as (new & -> & Hnew).
    exists new. split; [reflexivity |].
    eapply List.Forall_impl; [| exact Hnew].
    intros c (Hu & Hs & Hk). unfold scored_as_specified. rewrite Hk.
    split; [exact El |]. split; [exact Hu |]. split; [exact Hs |].
    apply andb_true_iff in E. destruct E as [_ E].
    apply orb_true_iff in E. destruct E as [E | E]; [exact E |].
    apply contains_spec in E. destruct E as (a & b & E).
    apply contains_spec. unfold tag_attr. rewrite E.
    exists (a ++ cps "apple-touch-"), b.
    rewrite <- !app_assoc. reflexivity. }
  destruct (str_eqb (lower tag) (cps "img")) eqn:Ei; [| exact Hnone].
  apply bool_decide_eq_true in Ei.
  destruct (negb (nonempty (or_str (attr_get (make_attrs_dict attrs) "src") [])));
    [exact Hnone |].
  match goal with
  | |- context [_add_candidate p ?u ?sc SrcImg] =>
      destruct (_add_candidate_adds p u sc SrcImg) as (new & -> & Hnew)
  end.
  exists new. split; [reflexivity |].
  eapply List.Forall_impl; [| exact Hnew].
  intros c (Hu & Hs & Hk). unfold scored_as_specified. rewrite Hk, Hs.
  split; [exact Ei |]. split; [exact Hu |].
  apply (score_is_heuristic laws).
Qed.

Lemma handle_starttag_base p tag attrs :
  base_url (handle_starttag p tag attrs)
  = page_base (base_url p) [(tag, attrs)].
Proof.
  unfold handle_starttag, page_base, tag_attr. cbn [fst snd].
  destruct (str_eqb (lower tag) (cps "base")) eqn:Eb; cbn [andb].
  { destruct (attr_get (make_attrs_dict attrs) "href") as [[| c h] |];
      reflexivity. }
  destruct (str_eqb (lower tag) (cps "meta")).
  { match goal with |- context [if ?b then _ else _] => destruct b end;
      [apply _add_candidate_base | reflexivity]. }
  destruct (str_eqb (lower tag) (cps "link")).
  { match goal with |- context [if ?b then _ else _] => destruct b end;
      [apply _add_candidate_base | reflexivity]. }
  destruct (str_eqb (lower tag) (cps "img")); [| reflexivity].
  match goal with |- context [if ?b then _ else _] => destruct b end;
    [reflexivity | apply _add_candidate_base].
Qed.

Lemma feed_adds tags : forall p,
  exists new,
    candidates (feed p tags) = candidates p ++ new
    /\ Forall (fun c => exists before tag attrs after,
                 tags = before ++ (tag, attrs) :: after
                 /\ scored_as_specified (page_base (base_url p) before)
                      tag attrs c) new.
Proof.
  induction tags as [| [tag attrs] tags IH]; intros p.
  - exists []. rewrite app_nil_r. split; [reflexivity | constructor].
  - cbn [feed fold_left fst snd].
    destruct (handle_starttag_adds p tag attrs) as (n1 & E1 & H1).
    destruct (IH (handle_starttag p tag attrs)) as (n2 & E2 & H2).
    exists (n1 ++ n2). unfold feed in E2. rewrite E2, E1, app_assoc.
    split; [reflexivity |]. apply List.Forall_app. split.
    + eapply List.Forall_impl; [| exact H1].
      intros c Hc. exists [], tag, attrs, tags. split; [reflexivity | exact Hc].
    + eapply List.Forall_impl; [| exact H2].
      intros c (before & tag' & attrs' & after & Ht & Hc).
      exists ((tag, attrs) :: before), tag', attrs', after.
      split; [rewrite Ht; reflexivity |].
      rewrite handle_starttag_base in Hc. exact Hc.
Qed.

End ParserFacts.


(** C5, as the code has it: every candidate extracted from a page comes
    from one of its tags, its URL is the address that tag gives, resolved
    against the base URL in effect at the tag, and it is scored as
    specified for that tag: 8 for a meta image, 6 for an icon link (whose
    rel contains "icon"), and for an img tag the additive heuristic: +6
    for "logo", +3 for "brand", +1 for "header" or "banner", -2 for
    "sprite" or "icon" in the value of src, alt, class or id, +2 for a
    raster extension and -2 for ".svg" at the end of the value of src.
    The heuristic reads the src attribute as the page has it, not the
    resolved URL of the candidate. *)
Theorem candidates_scored_as_specified `{L : PyLib}
    (final_url : str) (tags : list (str * list (str * option str)))
    (c : candidate) :
  UnicodeLaws L ->
  In c (rank_candidates final_url tags) ->
  exists before tag attrs after,
    tags = before ++ (tag, attrs) :: after
    /\ scored_as_specified (page_base final_url before) tag attrs c.
Proof.
  intros laws Hin. unfold rank_candidates in Hin.
  apply (Permutation_in _ (Permutation_sym (sorted_by_score_desc_perm _))) in Hin.
  destruct (feed_adds laws tags (new_parser final_url)) as (new & E & Hnew).
  rewrite E in Hin. cbn in Hin.
  rewrite List.Forall_forall in Hnew.
  exact (Hnew c Hin).
Qed.

Lemma candidates_scored_as_specified_witness :
  exists before tag attrs after,
    [(cps "img", [(cps "src", Some (cps "/img/logo.png"));
                  (cps "alt", Some (cps "Acme"))])]
    = before ++ (tag, attrs) :: after
    /\ @scored_as_specified ascii_lib
         (@page_base ascii_lib (cps "http://h") before) tag attrs
         (Candidate (cps "http://h/img/logo.png") 8 SrcImg).
Proof.
  apply (@candidates_scored_as_specified ascii_lib (cps "http://h")
           [(cps "img", [(cps "src", Some (cps "/img/logo.png"));
                         (cps "alt", Some (cps "Acme"))])]
           (Candidate (cps "http://h/img/logo.png") 8 SrcImg)
           ascii_lib_laws).
  vm_compute. left. reflexivity.
Defined.

(** The score does not see the resolved URL: on a site whose host name
    contains "logo", an image written as [a.png] is a candidate whose URL
    contains "logo", and its score is the 2 of the extension alone, where
    the heuristic over the URL of the candidate gives 8. *)
Lemma img_score_not_from_candidate_url :
  @rank_candidates ascii_lib (cps "https://logo.example/")
    [(cps "img", [(cps "src", Some (cps "a.png"))])]
  = [Candidate (cps "https://logo.example/a.png") 2 SrcImg]
  /\ @heuristic_score ascii_lib (cps "https://logo.example/a.png") [] [] []
     = 8%Z.
Proof. split; vm_compute; reflexivity. Qed.


(** ** Key normalisation *)

Ltac chars :=
  unfold key_char, is_lower_alnum, is_space, is_apostrophe, space in *;
  repeat match goal with
         | H : _ = false |- _ => apply not_true_iff_false in H
         | |- _ = false => apply not_true_iff_false; intro
         | H : negb _ = true |- _ => apply negb_true_iff in H
         | |- negb _ = true => apply negb_true_iff
         end;
  repeat progress
    rewrite ?orb_true_iff, ?andb_true_iff, ?N.leb_le, ?N.eqb_eq in *;
  try lia.

Lemma alnum_not_space c : is_lower_alnum c = true -> N.eqb c space = false.
Proof. intros H. chars. Qed.

Lemma alnum_key_char c : is_lower_alnum c = true -> key_char c = true.
Proof. intros H. unfold key_char. rewrite H. reflexivity. Qed.

Lemma key_char_space : key_char space = true.
Proof. reflexivity. Qed.

Lemma sub_runs_keep cls rep c t :
  cls c = false -> sub_runs cls rep (c :: t) = c :: sub_runs cls rep t.
Proof. intros H. cbn [sub_runs]. rewrite H. reflexivity. Qed.

Lemma sub_runs_spaced t : spaced (sub_runs not_alnum [space] t) = true.
Proof.
  induction t as [| c t IH]; [reflexivity |].
  destruct (is_lower_alnum c) eqn:Ec.
  - rewrite sub_runs_keep by (unfold not_alnum; rewrite Ec; reflexivity).
    cbn [spaced]. rewrite (alnum_key_char c Ec), (alnum_not_space c Ec), IH.
    reflexivity.
  - cbn [sub_runs]. unfold not_alnum at 1. rewrite Ec. cbn [negb].
    destruct t as [| d t]; [reflexivity |].
    unfold not_alnum at 1.
    destruct (is_lower_alnum d) eqn:Ed; cbn [negb]; [| exact IH].
    rewrite sub_runs_keep in IH |- *
      by (unfold not_alnum; rewrite Ed; reflexivity).
    cbn [app].
    change (spaced (space :: d :: sub_runs not_alnum [space] t))
      with (key_char space
            && negb (N.eqb d space)
            && spaced (d :: sub_runs not_alnum [space] t)).
    rewrite IH, (alnum_not_space d Ed). reflexivity.
Qed.

Lemma spaced_app_r a b : spaced (a ++ b) = true -> spaced b = true.
Proof.
  induction a as [| c a IH]; [trivial |].
  cbn [app spaced]. rewrite !andb_true_iff. intros [_ H]. exact (IH H).
Qed.

Lemma spaced_app_l a b : spaced (a ++ b) = true -> spaced a = true.
Proof.
  induction a as [| c a IH]; [reflexivity |].
  cbn [app spaced]. rewrite !andb_true_iff. intros [[Hk Hm] H].
  repeat split; [exact Hk | | exact (IH H)].
  destruct (N.eqb c space); [| reflexivity].
  destruct a as [| d a]; [reflexivity | exact Hm].
Qed.

Lemma spaced_key_chars s : spaced s = true -> forallb key_char s = true.
Proof.
  induction s as [| c s IH]; [reflexivity |].
  cbn [spaced forallb]. rewrite !andb_true_iff. intros [[Hk _] H].
  split; [exact Hk | exact (IH H)].
Qed.

(** [lstrip_by] removes a prefix and stops at a character outside the
    class. *)
Lemma lstrip_by_suffix cls s : exists pre, s = pre ++ lstrip_by cls s.
Proof.
  induction s as [| c s [pre IH]]; [exists []; reflexivity |].
  cbn [lstrip_by]. destruct (cls c).
  - exists (c :: pre). cbn. rewrite <- IH. reflexivity.
  - exists []. reflexivity.
Qed.

Lemma lstrip_by_head cls s :
  match lstrip_by cls s with
  | c :: _ => cls c = false
  | [] => True
  end.
Proof.
  induction s as [| c s IH]; [exact I |].
  cbn [lstrip_by]. destruct (cls c) eqn:E; [exact IH | exact E].
Qed.

Lemma lstrip_by_id cls s :
  match s with c :: _ => cls c = false | [] => True end ->
  lstrip_by cls s = s.
Proof. destruct s as [| c s]; [reflexivity |]. cbn. intros ->. reflexivity. Qed.

Lemma strip_by_parts cls s :
  (exists pre post, s = pre ++ strip_by cls s ++ post)
  /\ match strip_by cls s with c :: _ => cls c = false | [] => True end
  /\ match rev (strip_by cls s) with c :: _ => cls c = false | [] => True end.
Proof.
  unfold strip_by.
  destruct (lstrip_by_suffix cls s) as [pre Hs].
  pose proof (lstrip_by_head cls s) as Ha.
  set (a := lstrip_by cls s) in *.
  destruct (lstrip_by_suffix cls (rev a)) as [pre' Hr].
  pose proof (lstrip_by_head cls (rev a)) as Hb.
  set (b := lstrip_by cls (rev a)) in *.
  assert (Ea : a = rev b ++ rev pre').
  { rewrite <- rev_app_distr, <- Hr, rev_involutive. reflexivity. }
  repeat split.
  - exists pre, (rev pre'). rewrite <- Ea. exact Hs.
  - destruct (rev b) as [| c v] eqn:Ev; [exact I |].
    rewrite Ea in Ha. exact Ha.
  - rewrite rev_involutive. exact Hb.
Qed.

Lemma strip_by_id cls s :
  match s with c :: _ => cls c = false | [] => True end ->
  match rev s with c :: _ => cls c = false | [] => True end ->
  strip_by cls s = s.
Proof.
  intros H1 H2. unfold strip_by.
  rewrite (lstrip_by_id cls s H1), (lstrip_by_id cls (rev s) H2).
  apply rev_involutive.
Qed.

(** On a key, a substitution of runs that can only meet single spaces
    changes nothing. *)
Lemma sub_runs_id cls s :
  (forall c, key_char c = true -> cls c = true -> c = space) ->
  spaced s = true -> sub_runs cls [space] s = s.
Proof.
  intros Hcls. induction s as [| c s IH]; [reflexivity |].
  cbn [spaced]. rewrite !andb_true_iff. intros [[Hk Hm] Hs].
  cbn [sub_runs]. destruct (cls c) eqn:Ec.
  - pose proof (Hcls c Hk Ec) as ->.
    destruct s as [| d s]; [reflexivity |].
    change (N.eqb space space) with true in Hm. cbn iota in Hm.
    assert (Hd : cls d = false).
    { destruct (cls d) eqn:Ed; [| reflexivity].
      cbn [spaced] in Hs. rewrite !andb_true_iff in Hs.
      destruct Hs as [[Hkd _] _].
      rewrite (Hcls d Hkd Ed) in Hm. discriminate. }
    rewrite Hd, (IH Hs). reflexivity.
  - rewrite (IH Hs). reflexivity.
Qed.

Lemma replace_char_id old new s :
  forallb (fun c => negb (N.eqb c old)) s = true -> replace_char old new s = s.
Proof.
  unfold replace_char. induction s as [| c s IH]; [reflexivity |].
  cbn [forallb flat_map]. rewrite andb_true_iff. intros [Hc Hs].
  apply negb_true_iff in Hc. rewrite Hc, (IH Hs). reflexivity.
Qed.

Lemma sub_chars_id cls rep s :
  forallb (fun c => negb (cls c)) s = true -> sub_chars cls rep s = s.
Proof.
  unfold sub_chars. induction s as [| c s IH]; [reflexivity |].
  cbn [forallb flat_map]. rewrite andb_true_iff. intros [Hc Hs].
  apply negb_true_iff in Hc. rewrite Hc, (IH Hs). reflexivity.
Qed.

Lemma filter_id {A} (f : A -> bool) l :
  forallb f l = true -> List.filter f l = l.
Proof.
  induction l as [| x l IH]; [reflexivity |].
  cbn. rewrite andb_true_iff. intros [-> H]. rewrite (IH H). reflexivity.
Qed.

Lemma forallb_impl {A} (f g : A -> bool) l :
  (forall x, f x = true -> g x = true) ->
  forallb f l = true -> forallb g l = true.
Proof.
  intros Hfg. induction l as [| x l IH]; [reflexivity |].
  cbn. rewrite !andb_true_iff. intros [Hx H]. split; [apply Hfg, Hx | apply IH, H].
Qed.

Section KeyFacts.
Context {L : PyLib}.

(** Whatever the Unicode tables do, the last three steps give a key. *)
Lemma key_tail_well_formed t :
  let v := strip (sub_runs not_alnum [space] t) in
  sub_runs is_space [space] v = v /\ well_formed_key v = true.
Proof.
  cbv zeta. unfold strip.
  set (u := sub_runs not_alnum [space] t).
  pose proof (sub_runs_spaced t) as Hu. fold u in Hu.
  destruct (strip_by_parts is_space u) as ((pre & post & Eu) & Hh & Hl).
  set (v := strip_by is_space u) in *.
  assert (Hv : spaced v = true).
  { rewrite Eu in Hu. apply spaced_app_r in Hu. apply spaced_app_l in Hu.
    exact Hu. }
  split.
  - apply sub_runs_id; [| exact Hv]. intros c Hk Hc. chars.
  - unfold well_formed_key. rewrite Hv. cbn [andb].
    apply andb_true_iff. split.
    + destruct v as [| c v']; [reflexivity |]. cbn. chars.
    + destruct (rev v) as [| c v']; [reflexivity |]. cbn. chars.
Qed.

Lemma normalize_key_tail name :
  exists t, normalize_key name
            = sub_runs is_space [space] (strip (sub_runs not_alnum [space] t)).
Proof. eexists. unfold normalize_key. reflexivity. Qed.

Lemma normalize_key_well_formed name :
  well_formed_key (normalize_key name) = true.
Proof.
  destruct (normalize_key_tail name) as [t ->].
  destruct (key_tail_well_formed t) as [-> H]. exact H.
Qed.

Hypothesis laws : UnicodeLaws L.

(** A key is normalised to itself. *)
Lemma normalize_key_fixes_keys s :
  well_formed_key s = true -> normalize_key s = s.
Proof.
  unfold well_formed_key. rewrite !andb_true_iff. intros [[Hs Hh] Hl].
  pose proof (spaced_key_chars s Hs) as Hk.
  unfold normalize_key.
  rewrite (nfkd_key L laws s Hk).
  rewrite filter_id.
  2:{ eapply forallb_impl; [| exact Hk]. intros c Hc. cbn beta.
      rewrite (combining_key L laws c Hc). reflexivity. }
  rewrite (lower_key L laws s Hk).
  rewrite replace_char_id.
  2:{ eapply forallb_impl; [| exact Hk]. intros c Hc. cbn beta. chars. }
  rewrite sub_chars_id.
  2:{ eapply forallb_impl; [| exact Hk]. intros c Hc. cbn beta. chars. }
  change (cps " ") with [space].
  change (fun c => negb (is_lower_alnum c)) with not_alnum.
  rewrite (sub_runs_id not_alnum s).
  2:{ intros c Hc Hn. unfold not_alnum in Hn. chars. }
  2:{ exact Hs. }
  unfold strip. rewrite strip_by_id.
  - apply sub_runs_id; [| exact Hs]. intros c Hc Hn. chars.
  - destruct s as [| c s']; [exact I |]. cbn in Hh, Hk. chars.
  - assert (Hr : forallb key_char (rev s) = true).
    { apply forallb_forall. intros c Hc. apply List.in_rev in Hc.
      revert c Hc. apply forallb_forall, Hk. }
    destruct (rev s) as [| c s']; [exact I |]. cbn in Hl, Hr. chars.
Qed.

End KeyFacts.

(** C9: [normalize_key] is idempotent, and its result holds only lowercase
    ASCII letters, digits and single spaces, none of them at either end. *)
Theorem normalize_key_idempotent_well_formed `{L : PyLib} (name : str) :
  UnicodeLaws L ->
  normalize_key (normalize_key name) = normalize_key name
  /\ well_formed_key (normalize_key name) = true.
Proof.
  intros laws. split.
  - apply (normalize_key_fixes_keys laws), normalize_key_well_formed.
  - apply normalize_key_well_formed.
Qed.

Lemma normalize_key_idempotent_well_formed_witness :
  UnicodeLaws ascii_lib
  /\ @normalize_key ascii_lib
       (@normalize_key ascii_lib (cps "  Glenat & Cie -- L'Association!! "))
     = @normalize_key ascii_lib (cps "  Glenat & Cie -- L'Association!! ")
  /\ well_formed_key
       (@normalize_key ascii_lib (cps "  Glenat & Cie -- L'Association!! "))
     = true.
Proof.
  split; [exact ascii_lib_laws |].
  exact (@normalize_key_idempotent_well_formed ascii_lib
           (cps "  Glenat & Cie -- L'Association!! ") ascii_lib_laws).
Defined.

Example normalize_key_example :
  @normalize_key ascii_lib (cps "  Glenat & Cie -- L'Association!! ")
  = cps "glenat and cie lassociation".
Proof. vm_compute. reflexivity. Qed.


(** ** ImageNormalizer *)

Lemma flatten_returned convert_rgb image im :
  flatten convert_rgb image = Returned im ->
  mode im = ModeRGB /\ width im = width image /\ height im = height image.
Proof.
  unfold flatten. destruct image as [m w h p]. cbn [mode width height pixels].
  destruct m; cbn [is_rgba_or_la];
    try destruct (convert_rgb _);
    intros H; try discriminate H; injection H as <-; repeat split.
Qed.

(** The crop box is a centred square on the smaller side, inside the
    image. *)
Lemma square_box_centred w h :
  (0 <= w)%Z -> (0 <= h)%Z ->
  match square_box w h with
  | (l, t, r, b) =>
      (r - l = Z.min w h /\ b - t = Z.min w h /\
       0 <= l /\ r <= w /\ 0 <= t /\ b <= h /\
       l <= w - r <= l + 1 /\ t <= h - b <= t + 1)%Z
  end.
Proof.
  intros Hw Hh. unfold square_box.
  pose proof (Z.div_mod (w - Z.min w h) 2 ltac:(lia)) as Ex.
  pose proof (Z.mod_pos_bound (w - Z.min w h) 2 ltac:(lia)) as Bx.
  pose proof (Z.div_mod (h - Z.min w h) 2 ltac:(lia)) as Ey.
  pose proof (Z.mod_pos_bound (h - Z.min w h) 2 ltac:(lia)) as By_.
  lia.
Qed.

Lemma squared_from convert_rgb image size flat :
  (0 < width image)%Z -> (0 < height image)%Z -> (0 < size)%Z ->
  flatten convert_rgb image =
    Returned {| mode := ModeRGB; width := width image; height := height image;
                pixels := flat |} ->
  exists out,
    make_square convert_rgb image size = Returned out
    /\ square_of image size flat out.
Proof.
  intros Hw Hh Hs Hf.
  pose proof (square_box_centred (width image) (height image)
                ltac:(lia) ltac:(lia)) as Hbox.
  unfold make_square. rewrite Hf. cbn [width height].
  destruct (square_box (width image) (height image)) as [[[l t] r] b].
  unfold resize, crop. cbn [mode width height pixels].
  assert (E : (0 <? size)%Z = true) by (apply Z.ltb_lt; lia).
  rewrite E. cbn [andb]. eexists. split; [reflexivity |].
  exists l, t, r, b. split; [reflexivity | exact Hbox].
Qed.

(** C8, as the code has it: for an image with positive sides and a
    positive target size, what [make_square] does depends on the mode only
    through three cases.  In mode RGBA or LA the image is pasted on white,
    in mode RGB it is taken as it is, and in every other mode, with or
    without an alpha band, it goes through [convert("RGB")]; in each case
    the result is an opaque RGB image of exactly size by size pixels,
    resampled from the centred square crop on the smaller side, except
    that [make_square] raises the error of [convert] for a mode that has
    no conversion. *)
Theorem make_square_spec (convert_rgb : image_mode -> option exn)
    (image : pil_image) (size : Z) :
  (0 < width image)%Z -> (0 < height image)%Z -> (0 < size)%Z ->
  (mode image = ModeRGBA \/ mode image = ModeLA ->
   exists out,
     make_square convert_rgb image size = Returned out
     /\ square_of image size (PastedOnWhite (pixels image)) out)
  /\ (mode image = ModeRGB ->
      exists out,
        make_square convert_rgb image size = Returned out
        /\ square_of image size (pixels image) out)
  /\ (mode image <> ModeRGBA -> mode image <> ModeLA ->
      mode image <> ModeRGB ->
      match convert_rgb (mode image) with
      | None =>
          exists out,
            make_square convert_rgb image size = Returned out
            /\ square_of image size (ConvertedRGB (pixels image)) out
      | Some e => make_square convert_rgb image size = Raised e
      end).
Proof.
  intros Hw Hh Hs. split; [| split].
  - intros Hm. apply squared_from; try assumption.
    unfold flatten. destruct Hm as [-> | ->]; reflexivity.
  - intros Hm. apply squared_from; try assumption.
    unfold flatten. rewrite Hm. cbn [is_rgba_or_la].
    destruct image as [m w h p]. cbn in Hm. subst m. reflexivity.
  - intros H1 H2 H3.
    assert (Hf : flatten convert_rgb image
                 = match convert_rgb (mode image) with
                   | None =>
                       Returned {| mode := ModeRGB; width := width image;
                                   height := height image;
                                   pixels := ConvertedRGB (pixels image) |}
                   | Some e => Raised e
                   end).
    { unfold flatten. destruct (mode image); try reflexivity; congruence. }
    destruct (convert_rgb (mode image)) as [e |] eqn:Ec.
    + unfold make_square. rewrite Hf. reflexivity.
    + apply squared_from; assumption.
Qed.

Lemma make_square_spec_witness :
  (ModeRGBA = ModeRGBA \/ ModeRGBA = ModeLA ->
   exists out,
     make_square pillow_convert_rgb
       {| mode := ModeRGBA; width := 16; height := 9; pixels := Decoded [] |}
       312 = Returned out
     /\ square_of
          {| mode := ModeRGBA; width := 16; height := 9; pixels := Decoded [] |}
          312 (PastedOnWhite (Decoded [])) out)
  /\ (ModeRGBA = ModeRGB ->
      exists out,
        make_square pillow_convert_rgb
          {| mode := ModeRGBA; width := 16; height := 9; pixels := Decoded [] |}
          312 = Returned out
        /\ square_of
             {| mode := ModeRGBA; width := 16; height := 9;
                pixels := Decoded [] |}
             312 (Decoded []) out)
  /\ (ModeRGBA <> ModeRGBA -> ModeRGBA <> ModeLA -> ModeRGBA <> ModeRGB ->
      match pillow_convert_rgb ModeRGBA with
      | None =>
          exists out,
            make_square pillow_convert_rgb
              {| mode := ModeRGBA; width := 16; height := 9;
                 pixels := Decoded [] |}
              312 = Returned out
            /\ square_of
                 {| mode := ModeRGBA; width := 16; height := 9;
                    pixels := Decoded [] |}
                 312 (ConvertedRGB (Decoded [])) out
      | Some e =>
          make_square pillow_convert_rgb
            {| mode := ModeRGBA; width := 16; height := 9;
               pixels := Decoded [] |}
            312 = Raised e
      end).
Proof.
  exact (make_square_spec pillow_convert_rgb
           {| mode := ModeRGBA; width := 16; height := 9;
              pixels := Decoded [] |} 312
           ltac:(reflexivity) ltac:(reflexivity) ltac:(reflexivity)).
Defined.

(** A palette image with an alpha band is not pasted on white: its mode
    is neither RGBA nor LA, so it goes through [convert("RGB")]. *)
Lemma make_square_palette_alpha_not_on_white :
  has_alpha_band ModePA = true /\
  make_square pillow_convert_rgb
    {| mode := ModePA; width := 4; height := 2; pixels := Decoded [] |} 3 =
    Returned {| mode := ModeRGB; width := 3; height := 3;
                pixels := ResizedLanczos 3 3
                            (Cropped 1 0 3 2 (ConvertedRGB (Decoded []))) |}.
Proof. split; reflexivity. Qed.

(** An image in the premultiplied mode "La" is not normalised at all:
    [convert] has no conversion from it, and its [ValueError] leaves
    [make_square]. *)
Example make_square_unconvertible_raises :
  has_alpha_band ModeLa = true /\
  make_square pillow_convert_rgb
    {| mode := ModeLa; width := 4; height := 2; pixels := Decoded [] |} 3
  = Raised ValueError.
Proof. split; reflexivity. Qed.

(** The four aspect ratios of the specification. *)
Example make_square_sizes :
  List.map (fun wh => match make_square pillow_convert_rgb
                          {| mode := ModeRGB; width := fst wh;
                             height := snd wh; pixels := Decoded [] |} 312 with
                   | Returned im => Some (width im, height im)
                   | Raised _ => None
                   end)
    [(10, 10); (16, 9); (9, 16); (1, 5)]%Z
  = [Some (312, 312); Some (312, 312); Some (312, 312); Some (312, 312)]%Z.
Proof. reflexivity. Qed.

(** ** ResolutionCache and SourceResolver *)


(** ** The requests of a computation *)

Lemma extends_requests_refl P s : extends_requests P s s.
Proof. exists []. rewrite app_nil_r. split; [reflexivity | constructor]. Qed.

Lemma extends_requests_same P s s' :
  requests s' = requests s -> extends_requests P s s'.
Proof. intros E. exists []. rewrite app_nil_r. split; [exact E | constructor]. Qed.

Lemma extends_requests_trans P s1 s2 s3 :
  extends_requests P s1 s2 -> extends_requests P s2 s3 ->
  extends_requests P s1 s3.
Proof.
  intros (n1 & E1 & H1) (n2 & E2 & H2). exists (n1 ++ n2).
  rewrite E2, E1, app_assoc. split; [reflexivity |].
  apply List.Forall_app. split; assumption.
Qed.

Lemma only_calls_ret {A} P (a : A) : only_calls P (mret a).
Proof. intros s. apply extends_requests_refl. Qed.

Lemma only_calls_ret' {A} P (a : A) : only_calls P (ret a).
Proof. intros s. apply extends_requests_refl. Qed.

Lemma only_calls_raise {A} P e : only_calls P (@raise run A e).
Proof. intros s. apply extends_requests_refl. Qed.

Lemma only_calls_lift {A} P (r : result A) : only_calls P (lift r).
Proof. intros s. apply extends_requests_refl. Qed.

Lemma only_calls_get_state P : only_calls P get_state.
Proof. intros s. apply extends_requests_refl. Qed.

Lemma only_calls_modify P f :
  (forall s, requests (f s) = requests s) -> only_calls P (modify f).
Proof. intros H s. apply extends_requests_same, H. Qed.

Lemma only_calls_bind {A B} P (m : M run A) (k : A -> M run B) :
  only_calls P m -> (forall a, only_calls P (k a)) -> only_calls P (m ≫= k).
Proof.
  intros Hm Hk s. specialize (Hm s).
  unfold mbind, M_bind, bind. destruct (m s) as [s1 [a | e]]; cbn [fst] in *.
  - eapply extends_requests_trans; [exact Hm | apply Hk].
  - exact Hm.
Qed.

Lemma only_calls_catch {A} P (m h : M run A) :
  only_calls P m -> only_calls P h -> only_calls P (catch m h).
Proof.
  intros Hm Hh s. specialize (Hm s).
  unfold catch. destruct (m s) as [s1 [a | e]]; cbn [fst] in *.
  - exact Hm.
  - eapply extends_requests_trans; [exact Hm | apply Hh].
Qed.

Lemma only_calls_requests_get P w by_ url query :
  P by_ = true -> only_calls P (requests_get w by_ url query).
Proof.
  intros H s. unfold requests_get. cbn [fst requests].
  eexists [_]. split; [reflexivity |]. constructor; [exact H | constructor].
Qed.

Create HintDb calls.
#[export] Hint Extern 1 (_ = true) => reflexivity : calls.

Ltac only_calls_step :=
  match goal with
  | |- only_calls _ (mret _) => apply only_calls_ret
  | |- only_calls _ (ret _) => apply only_calls_ret'
  | |- only_calls _ (raise _) => apply only_calls_raise
  | |- only_calls _ (lift _) => apply only_calls_lift
  | |- only_calls _ get_state => apply only_calls_get_state
  | |- only_calls _ (modify _) => apply only_calls_modify; reflexivity
  | |- only_calls _ (requests_get _ _ _ _) =>
      apply only_calls_requests_get; first [reflexivity | assumption]
  | |- only_calls _ (catch _ _) => apply only_calls_catch
  | |- only_calls _ (mbind _ _) => apply only_calls_bind; [| intros ?]
  | |- only_calls _ (if ?b then _ else _) => destruct b
  | |- only_calls _ (match ?x with _ => _ end) => destruct x
  | |- only_calls _ _ => solve [auto with calls nocore]
  end.

Ltac only_calls_auto := repeat only_calls_step.

Section RequestFacts.
Context {L : PyLib}.
Variable w : web.

Lemma only_calls_download_image P url :
  P ByDownloadImage = true -> only_calls P (download_image w url).
Proof.
  intros H. unfold download_image, raise_for_status. only_calls_auto.
Qed.
#[local] Hint Resolve only_calls_download_image : calls.

Lemma only_calls_fetch_html_candidates P url :
  P ByHtmlCandidates = true -> only_calls P (fetch_html_candidates w url).
Proof.
  intros H. unfold fetch_html_candidates, raise_for_status. only_calls_auto.
Qed.
#[local] Hint Resolve only_calls_fetch_html_candidates : calls.

Lemma only_calls_first_usable P cands :
  P ByDownloadImage = true -> only_calls P (first_usable w cands).
Proof.
  intros H. induction cands as [| c rest IH]; cbn [first_usable].
  - only_calls_auto.
  - apply only_calls_bind.
    + only_calls_auto.
    + intros [im |]; [only_calls_auto | exact IH].
Qed.
#[local] Hint Resolve only_calls_first_usable : calls.

Lemma only_calls_official P url :
  P ByHtmlCandidates = true -> P ByDownloadImage = true ->
  only_calls P (find_image_from_official_site w url).
Proof.
  intros H1 H2. unfold find_image_from_official_site.
  destruct (negb (truthy url)); [only_calls_auto |].
  destruct url; only_calls_auto.
Qed.

Lemma only_calls_wikimedia P filename :
  P ByDownloadImage = true ->
  only_calls P (find_image_from_wikimedia w filename).
Proof.
  intros H. unfold find_image_from_wikimedia.
  destruct (negb (truthy filename)); [only_calls_auto |].
  destruct filename; only_calls_auto.
Qed.

Lemma only_calls_bdbase P name bdbase_map :
  P ByBdbaseLogo = true -> P ByDownloadImage = true ->
  only_calls P (find_image_from_bdbase w name bdbase_map).
Proof.
  intros H1 H2. unfold find_image_from_bdbase, fetch_bdbase_logo_by_slug.
  apply only_calls_bind.
  - only_calls_auto.
  - intros [[| c u] |]; only_calls_auto.
Qed.

#[local] Hint Resolve only_calls_official only_calls_wikimedia
  only_calls_bdbase : calls.

Variable args : options.
Variable bdbase_map : gmap str str.

Lemma only_calls_acquire_image name info :
  only_calls is_image_call (acquire_image w args bdbase_map name info).
Proof. unfold acquire_image. only_calls_auto. Qed.

Lemma only_calls_supplemental name info :
  only_calls is_image_call (supplemental w args name info).
Proof.
  unfold supplemental, fetch_bdbase_details, save_cache. only_calls_auto.
Qed.

Lemma only_calls_info_row P name safe_name info source_url target status :
  only_calls P (info_row name safe_name info source_url target status).
Proof. unfold info_row. only_calls_auto. Qed.

#[local] Hint Resolve only_calls_acquire_image only_calls_supplemental
  only_calls_info_row : calls.

(** A cached record that is not empty is used as it is: the state is
    left alone, so nothing is requested. *)
Lemma cached_or_resolved_hit name s m info :
  cache s = JObj m -> dict_lookup name m = Some info -> truthy info = true ->
  cached_or_resolved w name s = (s, Returned info).
Proof.
  intros Hc Hl Ht. unfold cached_or_resolved.
  unfold mbind, M_bind, bind, get_state, lift. rewrite Hc. cbn [py_get].
  rewrite Hl. cbn [default]. cbv beta iota. unfold id. rewrite Ht. reflexivity.
Qed.

Lemma bind_after {A B} P (m : M run A) (k : A -> M run B) s a :
  m s = (s, Returned a) -> only_calls P (k a) ->
  extends_requests P s (fst ((m ≫= k) s)).
Proof.
  intros Hm Hk. unfold mbind, M_bind, bind. rewrite Hm. apply Hk.
Qed.

End RequestFacts.

(** C2, as the code has it: for a publisher whose name is a key of the
    cache with a record that is not empty, the lookup of lines 569 to 573
    returns the cached record itself and leaves the state as it is (no
    request, no write), and in the whole step for that publisher no request
    is made by the metadata functions ([wiki_search], [wiki_pageprops],
    [wikidata_claims]). *)
Theorem cached_record_skips_metadata_requests `{L : PyLib}
    (w : web) (args : options) (bdbase_map : gmap str str)
    (name : str) (s : run) (m : list (str * json)) (info : json) :
  cache s = JObj m -> dict_lookup name m = Some info -> truthy info = true ->
  cached_or_resolved w name s = (s, Returned info)
  /\ extends_requests (fun c => negb (is_metadata_call c)) s
       (fst (process_publisher w args bdbase_map name s)).
Proof.
  intros Hc Hl Ht.
  pose proof (cached_or_resolved_hit w name s m info Hc Hl Ht) as Hhit.
  split; [exact Hhit |].
  unfold process_publisher.
  change (fun c => negb (is_metadata_call c)) with is_image_call.
  match goal with
  | |- extends_requests _ _ (fst ((get_state ≫= ?k) s)) =>
      change (extends_requests is_image_call s (fst (k s s)))
  end.
  cbv beta.
  match goal with |- context [if ?b then _ else _] => destruct b end.
  - apply only_calls_modify. reflexivity.
  - apply (bind_after _ _ _ _ _ Hhit).
    unfold write_report_row, update_folder_info, save_image.
    only_calls_auto.
    all: first [ apply only_calls_supplemental
               | apply only_calls_acquire_image
               | apply only_calls_info_row ].
Qed.


(** ** ResolutionCache *)

Lemma cached_record_skips_metadata_requests_witness :
  cache (initial_run (JObj [(acme, acme_info)]) ∅) = JObj [(acme, acme_info)]
  /\ dict_lookup acme [(acme, acme_info)] = Some acme_info
  /\ truthy acme_info = true
  /\ cached_or_resolved offline acme
       (initial_run (JObj [(acme, acme_info)]) ∅)
     = (initial_run (JObj [(acme, acme_info)]) ∅, Returned acme_info)
  /\ extends_requests (fun c => negb (is_metadata_call c))
       (initial_run (JObj [(acme, acme_info)]) ∅)
       (fst (@process_publisher ascii_lib offline default_options ∅ acme
               (initial_run (JObj [(acme, acme_info)]) ∅))).
Proof.
  split; [reflexivity |]. split; [reflexivity |]. split; [reflexivity |].
  exact (@cached_record_skips_metadata_requests ascii_lib offline
           default_options ∅ acme (initial_run (JObj [(acme, acme_info)]) ∅)
           [(acme, acme_info)] acme_info eq_refl eq_refl eq_refl).
Defined.

(** A publisher that is in the cache can still cost requests: with the
    complete record of an earlier run the official site and the file of
    the logo are requested again, and with an empty record the search is
    done again. *)
Lemma cached_publisher_still_requests :
  List.map (fun rq => (req_by rq, req_url rq))
    (requests (fst (@process_publisher ascii_lib offline default_options ∅ acme
                      (initial_run (JObj [(acme, acme_info)]) ∅))))
  = [(ByHtmlCandidates, acme_site);
     (ByDownloadImage,
      cps "https://commons.wikimedia.org/wiki/Special:FilePath/Acme%20logo.png")]
  /\ List.map req_by
       (requests (fst (@process_publisher ascii_lib offline default_options ∅
                         acme (initial_run (JObj [(acme, JObj [])]) ∅))))
     = [ByWikiSearch].
Proof. split; vm_compute; reflexivity. Qed.

(** C3, as the code has it: a missing cache file gives the empty cache;
    a file whose content is not a JSON document makes [load_cache] raise
    the decoder's error, and [main] ends with that error before any
    request is made or any row written. *)
Theorem load_cache_missing_or_unparseable `{L : PyLib}
    (w : web) (args : options) (bdbase_map : gmap str str)
    (images : gmap str pil_image) (publishers : list str) (content : str) :
  json_loads content = None ->
  load_cache None = Returned (JObj [])
  /\ load_cache (Some content) = Raised JSONDecodeError
  /\ main w args bdbase_map (Some content) images publishers
     = (initial_run JNull images, Raised JSONDecodeError)
  /\ requests (fst (main w args bdbase_map (Some content) images publishers)) = []
  /\ report (fst (main w args bdbase_map (Some content) images publishers)) = [].
Proof.
  intros H. unfold main, load_cache. rewrite H. repeat split.
Qed.

Lemma load_cache_missing_or_unparseable_witness :
  json_loads truncated_cache = None
  /\ load_cache None = Returned (JObj [])
  /\ load_cache (Some truncated_cache) = Raised JSONDecodeError
  /\ @main ascii_lib offline default_options ∅ (Some truncated_cache) ∅ [acme]
     = (initial_run JNull ∅, Raised JSONDecodeError)
  /\ requests (fst (@main ascii_lib offline default_options ∅
                      (Some truncated_cache) ∅ [acme])) = []
  /\ report (fst (@main ascii_lib offline default_options ∅
                    (Some truncated_cache) ∅ [acme])) = [].
Proof.
  split; [reflexivity |].
  exact (@load_cache_missing_or_unparseable ascii_lib offline default_options
           ∅ ∅ [acme] truncated_cache eq_refl).
Defined.

(** A cache file cut off in the middle, and an empty one, are not
    loaded as the empty cache: the error reaches the caller. *)
Lemma load_cache_malformed_raises :
  load_cache (Some truncated_cache) = Raised JSONDecodeError
  /\ load_cache (Some []) = Raised JSONDecodeError
  /\ snd (@main ascii_lib offline default_options ∅ (Some truncated_cache) ∅
            [acme])
     = Raised JSONDecodeError.
Proof. repeat split. Qed.

(** A well-formed file is loaded as the document it holds. *)
Example load_cache_well_formed :
  load_cache (Some (truncated_cache ++ cps "null}}"))
  = Returned (JObj [(cps "A", JObj [(cps "qid", JNull)])]).
Proof. vm_compute. reflexivity. Qed.

(** ** SourceResolver: the preferred source *)

(** C4: with [--prefer official], when the scan of the official site gives
    an image, the image and the candidate URL of the scan are the result of
    the acquisition, and the state is the one the scan left: the directory
    site and the wikimedia file are not consulted. *)
Theorem prefer_official_chooses_official_candidate `{L : PyLib}
    (w : web) (args : options) (bdbase_map : gmap str str)
    (name : str) (info official_url : json) (s s1 : run)
    (image : pil_image) (source_url : option str) :
  prefer args = PreferOfficial ->
  py_get info (cps "official_url") JNull = Returned official_url ->
  find_image_from_official_site w official_url s
    = (s1, Returned (Some image, source_url)) ->
  acquire_image w args bdbase_map name info s
    = (s1, Returned (Some image, source_url))
  /\ extends_requests is_official_call s s1.
Proof.
  intros Hp Hu Hscan. split.
  - unfold acquire_image. rewrite Hp.
    unfold mbind, M_bind, bind, lift. rewrite Hu. cbv beta iota.
    rewrite Hscan. reflexivity.
  - pose proof (only_calls_official w is_official_call official_url
                  eq_refl eq_refl s) as H.
    rewrite Hscan in H. exact H.
Qed.

Lemma prefer_official_chooses_official_candidate_witness :
  prefer default_options = PreferOfficial
  /\ py_get acme_info (cps "official_url") JNull = Returned (JStr acme_site)
  /\ exists s1,
       @find_image_from_official_site ascii_lib acme_web (JStr acme_site)
         (initial_run (JObj [(acme, acme_info)]) ∅)
       = (s1, Returned (Some acme_logo,
                        Some (cps "https://acme.example/og.png")))
       /\ @acquire_image ascii_lib acme_web default_options ∅ acme acme_info
            (initial_run (JObj [(acme, acme_info)]) ∅)
          = (s1, Returned (Some acme_logo,
                           Some (cps "https://acme.example/og.png")))
       /\ extends_requests is_official_call
            (initial_run (JObj [(acme, acme_info)]) ∅) s1.
Proof.
  split; [reflexivity |]. split; [reflexivity |].
  eexists. split; [vm_compute; reflexivity |].
  apply (@prefer_official_chooses_official_candidate ascii_lib acme_web
           default_options ∅ acme acme_info (JStr acme_site)).
  - reflexivity.
  - reflexivity.
  - vm_compute. reflexivity.
Defined.

(** The first scenario of the specification: the record of Acme Comics
    has an official site and a logo file, the page of the site has an
    og:image; the step takes the meta image and asks for nothing else. *)
Example acme_resolves_to_meta_image :
  let s' := fst (@process_publisher ascii_lib acme_web default_options ∅ acme
                   (initial_run (JObj [(acme, acme_info)]) ∅)) in
  (List.map (fun rq => (req_by rq, req_url rq)) (requests s'),
   List.map (fun row => nth 7 row JNull) (report s'))
  = ([(ByHtmlCandidates, acme_site);
      (ByDownloadImage, cps "https://acme.example/og.png")],
     [JStr (cps "https://acme.example/og.png")]).
Proof. vm_compute. reflexivity. Qed.


(** When the page of the official site is served and its best candidate
    can be downloaded and decoded, the scan returns that candidate after
    exactly two requests. *)
Lemma official_scan_takes_best_candidate `{L : PyLib} (w : web)
    (site : str) (s : run) (page answer : http_response)
    (c : candidate) (rest : list candidate) (data : list N)
    (image : pil_image) :
  nonempty site = true ->
  http_get w (length (requests s)) site JNull = Returned page ->
  status_ok page = true ->
  rank_candidates (resp_url page) (start_tags w (text page)) = c :: rest ->
  http_get w (S (length (requests s))) (cand_url c) JNull = Returned answer ->
  status_ok answer = true ->
  contains (cps "image/svg") (lower (or_str (content_type answer) [])) = false ->
  read_chunks max_bytes_default 0 [] (chunks answer) = Some data ->
  open_image w data = Some image ->
  exists s1,
    find_image_from_official_site w (JStr site) s
    = (s1, Returned (Some image, Some (cand_url c)))
    /\ requests s1
       = requests s ++ [RequestRecord ByHtmlCandidates site JNull;
                        RequestRecord ByDownloadImage (cand_url c) JNull].
Proof.
  intros Hsite Hpage Hok Hrank Hans Hok' Hsvg Hread Hopen.
  unfold status_ok in Hok, Hok'. apply negb_true_iff in Hok, Hok'.
  unfold find_image_from_official_site. cbn [truthy]. rewrite Hsite.
  cbn [negb].
  unfold fetch_html_candidates, catch, mbind, M_bind, bind, requests_get,
    raise_for_status.
  rewrite Hpage, Hok. cbv beta iota. unfold mret, M_ret, ret. cbv beta iota.
  rewrite Hrank. cbn [first_usable].
  unfold download_image, catch, mbind, M_bind, bind, requests_get,
    raise_for_status.
  cbn [requests]. rewrite length_app. cbn [length].
  replace (length (requests s) + 1) with (S (length (requests s))) by lia.
  rewrite Hans, Hok'. cbv beta iota. rewrite Hsvg, Hread.
  unfold mret, M_ret, ret. cbv beta iota. rewrite Hopen.
  eexists. split; [reflexivity |].
  cbn [requests]. rewrite <- app_assoc. reflexivity.
Qed.

(** ** ThrottledTransport: what else the pacing and the loop do *)

(** X1: the wait [get_adjust_delay] computes is never negative and never
    NaN, whatever the clock, the delay and the last request time are. *)
Theorem get_adjust_delay_not_negative (now delay last_time : pyfloat) :
  fle fzero (get_adjust_delay now delay last_time) = true.
Proof.
  unfold get_adjust_delay, py_max.
  destruct (flt fzero (fsub delay (fsub now last_time))) eqn:E.
  - apply flt_fle, E.
  - reflexivity.
Qed.

(** X2: once at least the drawn delay has passed since the last request
    to the host, nothing is left to wait. *)
Theorem get_adjust_delay_elapsed (now delay last_time : Q) :
  (delay <= now - last_time)%Q ->
  get_adjust_delay (FFin now) (FFin delay) (FFin last_time) = fzero.
Proof.
  intros H. unfold get_adjust_delay, py_max, fzero. cbn.
  destruct (Qle_bool (delay + - (now + - last_time)) (0 # 1)) eqn:E;
    [reflexivity |].
  exfalso. apply not_true_iff_false in E. apply E.
  apply Qle_bool_iff. unfold Qminus in H. lra.
Qed.

Lemma get_adjust_delay_elapsed_witness :
  (2 # 1 <= (10 # 1) - (7 # 1))%Q
  /\ get_adjust_delay (FFin (10 # 1)) (FFin (2 # 1)) (FFin (7 # 1)) = fzero.
Proof.
  split; [unfold Qle; cbn; lia |].
  apply (get_adjust_delay_elapsed (10 # 1) (2 # 1) (7 # 1)).
  unfold Qle; cbn; lia.
Defined.

Section TransportMore.
Context {response : Type}.
Variable env : @environment response.
Variable args : arguments.

(** The loop hands back the first outcome that is not a connection
    error. *)
Lemma request_loop_first_outcome attempts method url :
  forall (k : nat) todo s,
    k < length todo ->
    Forall (fun attempt => (attempt < attempts)%Z) todo ->
    (forall i, i < k ->
       original_request env (dispatches s + i) method url
       = Raised ConnectionError) ->
    original_request env (dispatches s + k) method url
    <> Raised ConnectionError ->
    exists s',
      request_loop env args attempts todo method url s
      = (s', request_outcome
               (original_request env (dispatches s + k) method url))
      /\ dispatches s' = dispatches s + k + 1.
Proof.
  intros k. induction k as [| k IH]; intros todo s Hlen Hlt Hfail Hk.
  - destruct todo as [| attempt todo]; [cbn in Hlen; lia |].
    cbn [request_loop].
    destruct (pace_dispatches env args (netloc_of env url) s) as [Hp1 _].
    destruct (dispatch_counts env (netloc_of env url) method url
                (pace env args (netloc_of env url) s)) as (Hd1 & _ & Hd3).
    destruct (dispatch env (netloc_of env url) method url
                (pace env args (netloc_of env url) s)) as [s1 r].
    cbn [fst snd] in Hd1, Hd3. rewrite Hp1 in Hd3.
    rewrite Nat.add_0_r in Hk |- *. rewrite <- Hd3 in Hk |- *.
    exists s1. split; [| lia].
    destruct r as [r | e]; [reflexivity |].
    destruct e; try reflexivity. contradiction.
  - destruct todo as [| attempt todo]; [cbn in Hlen; lia |].
    apply Forall_cons in Hlt. destruct Hlt as [Ha Hrest].
    cbn [request_loop].
    destruct (pace_dispatches env args (netloc_of env url) s) as [Hp1 _].
    destruct (dispatch_counts env (netloc_of env url) method url
                (pace env args (netloc_of env url) s)) as (Hd1 & _ & Hd3).
    destruct (dispatch env (netloc_of env url) method url
                (pace env args (netloc_of env url) s)) as [s1 r].
    cbn [fst snd] in Hd1, Hd3. rewrite Hp1 in Hd3, Hd1.
    pose proof (Hfail 0 ltac:(lia)) as H0. rewrite Nat.add_0_r in H0.
    rewrite H0 in Hd3. rewrite Hd3.
    assert (Hc : (attempts <=? attempt)%Z = false) by (apply Z.leb_gt; lia).
    rewrite Hc.
    replace (dispatches s + S k) with (dispatches s1 + k) in Hk |- * by lia.
    destruct (IH todo s1) as (s' & Hrun & Hn).
    + cbn in Hlen. lia.
    + exact Hrest.
    + intros i Hi. rewrite Hd1.
      replace (S (dispatches s) + i) with (dispatches s + S i) by lia.
      apply Hfail. lia.
    + exact Hk.
    + exists s'. split; [exact Hrun | lia].
Qed.

(** X3: when the first [k] dispatches fail with a connection error and
    the next one does not, and that one is still within the
    [attempts - 1] dispatches of the loop, [request] returns its response,
    or raises its exception, after exactly [k + 1] dispatches. *)
Theorem request_first_outcome (method url : str) (s : session) (k : nat) :
  (Z.of_nat k < Z.max 1 (request_attempts args) - 1)%Z ->
  (forall i, i < k ->
     original_request env (dispatches s + i) method url
     = Raised ConnectionError) ->
  original_request env (dispatches s + k) method url
  <> Raised ConnectionError ->
  exists s',
    request env args method url s
    = (s', request_outcome
             (original_request env (dispatches s + k) method url))
    /\ dispatches s' = dispatches s + k + 1.
Proof.
  intros Hk Hfail Hne. unfold request.
  apply (request_loop_first_outcome _ method url k); try assumption.
  - rewrite py_range_length. lia.
  - apply py_range_below.
Qed.

(** X4: with [--request-attempts] at 1 or below the loop has no
    iteration: nothing is dispatched, the session is left as it is, and
    the caller gets [None]. *)
Theorem request_single_attempt_sends_nothing (method url : str) (s : session) :
  (request_attempts args <= 1)%Z ->
  request env args method url s = (s, Returned None).
Proof.
  intros H. unfold request.
  replace (Z.max 1 (request_attempts args)) with 1%Z by lia.
  reflexivity.
Qed.

(** X5: a host whose last request is at least the upper bound of the
    delay range old is not waited for: whatever delay is drawn, [pace]
    does not sleep. *)
Theorem pace_no_sleep_after_upper_bound (host : str) (s : session)
    (t l lo hi : Q) :
  clock s = FFin t ->
  last_request_time s host = FFin l ->
  delay_range args = (FFin lo, FFin hi) ->
  (lo <= hi)%Q ->
  (hi <= t - l)%Q ->
  events (pace env args host s) = events s.
Proof.
  intros Hc Hl Hr Hle Hold. unfold pace. rewrite Hr, Hc, Hl. cbn [fst snd events].
  assert (Hraw : exists r,
             get_random_delay (normalvariate env (draws s)) (FFin lo) (FFin hi)
             = FFin r /\ (r <= hi)%Q).
  { unfold get_random_delay.
    destruct (clamp_in_range (FFin lo) (FFin hi)
                (normalvariate env (draws s)
                   (fdiv_const (fadd (FFin hi) (FFin lo)) 2)
                   (fdiv_const (fsub (FFin hi) (FFin lo)) 4)))
      as [Hlo Hhi].
    { cbn. apply Qle_bool_iff, Hle. }
    destruct (py_max _ _) as [| | r |]; try discriminate.
    exists r. split; [reflexivity |]. cbn in Hhi. apply Qle_bool_iff, Hhi. }
  destruct Hraw as (r & -> & Hr').
  assert (E : flt fzero (get_adjust_delay (FFin t) (FFin r) (FFin l)) = false).
  { unfold get_adjust_delay, py_max, fzero. cbn.
    destruct (Qle_bool (r + - (t + - l)) (0 # 1)) eqn:E; cbn.
    - reflexivity.
    - exfalso. apply not_true_iff_false in E. apply E.
      apply Qle_bool_iff. unfold Qminus in Hold. lra. }
  rewrite E. apply app_nil_r.
Qed.

End TransportMore.

Lemma request_first_outcome_witness :
  (Z.of_nat 1 < Z.max 1 (request_attempts default_arguments) - 1)%Z
  /\ exists s',
       request flaky_host default_arguments (cps "GET") (cps "h")
         (new_session fzero)
       = (s', Returned (Some 1))
       /\ dispatches s' = 2.
Proof.
  split; [reflexivity |].
  apply (request_first_outcome flaky_host default_arguments (cps "GET")
           (cps "h") (new_session fzero) 1).
  - reflexivity.
  - intros i Hi. destruct i; [reflexivity | lia].
  - discriminate.
Defined.

Lemma request_single_attempt_sends_nothing_witness :
  (request_attempts single_attempt <= 1)%Z
  /\ request flaky_host single_attempt (cps "GET") (cps "h") (new_session fzero)
     = (new_session fzero, Returned None).
Proof.
  split; [cbn; lia |].
  apply (request_single_attempt_sends_nothing flaky_host single_attempt).
  cbn; lia.
Defined.

Lemma pace_no_sleep_after_upper_bound_witness :
  events (pace flaky_host default_arguments (cps "h")
            (new_session (FFin (5 # 1))))
  = events (new_session (FFin (5 # 1))).
Proof.
  apply (pace_no_sleep_after_upper_bound flaky_host default_arguments (cps "h")
           (new_session (FFin (5 # 1))) (5 # 1) (0 # 1) (1 # 1) (3 # 1)).
  - reflexivity.
  - reflexivity.
  - reflexivity.
  - unfold Qle; cbn; lia.
  - unfold Qle; cbn; lia.
Defined.

(** ** SourceResolver: downloads and sources *)

(** What the loop over the chunks keeps is a prefix of the body, within
    the cap. *)
Lemma read_chunks_prefix max_bytes cs : forall downloaded data out,
  read_chunks max_bytes downloaded data cs = Some out ->
  downloaded = Z.of_nat (length data) ->
  (downloaded <= max_bytes)%Z ->
  (exists n, out = data ++ concat (firstn n cs))
  /\ (Z.of_nat (length out) <= max_bytes)%Z.
Proof.
  induction cs as [| chunk cs IH]; intros downloaded data out Hrun Hd Hle.
  - cbn in Hrun. injection Hrun as <-. split; [| lia].
    exists 0. cbn. rewrite app_nil_r. reflexivity.
  - cbn [read_chunks] in Hrun. destruct chunk as [| b chunk].
    + injection Hrun as <-. split; [| lia].
      exists 0. cbn. rewrite app_nil_r. reflexivity.
    + destruct (max_bytes <? downloaded + Z.of_nat (length (b :: chunk)))%Z
        eqn:E; [discriminate |].
      apply Z.ltb_ge in E.
      destruct (IH _ _ _ Hrun) as ([n Hn] & Hlen).
      * rewrite length_app. lia.
      * exact E.
      * split; [| exact Hlen].
        exists (S n). cbn [firstn concat]. rewrite Hn, <- app_assoc.
        reflexivity.
Qed.

Section SourceFacts.
Context {L : PyLib}.
Variable w : web.

(** X6: an image comes out of [download_image] only after exactly one
    request that was answered without an error status and without an SVG
    content type, and it is decoded from a prefix of the body of at most
    5 MiB. *)
Theorem download_image_usable (url : str) (s s' : run) (image : pil_image) :
  download_image w url s = (s', Returned (Some image)) ->
  exists resp data n,
    http_get w (length (requests s)) url JNull = Returned resp
    /\ status_ok resp = true
    /\ contains (cps "image/svg") (lower (or_str (content_type resp) []))
       = false
    /\ data = concat (firstn n (chunks resp))
    /\ (Z.of_nat (length data) <= 5 * 1024 * 1024)%Z
    /\ open_image w data = Some image
    /\ requests s' = requests s ++ [RequestRecord ByDownloadImage url JNull].
Proof.
  unfold download_image, mbind, M_bind, bind, requests_get, raise_for_status.
  destruct (http_get w (length (requests s)) url JNull) as [resp | e];
    [| discriminate].
  destruct ((400 <=? status_code resp)%Z && (status_code resp <? 600)%Z)
    eqn:Est; [discriminate |].
  cbv beta iota. unfold ret at 1. cbv beta iota.
  destruct (contains (cps "image/svg") (lower (or_str (content_type resp) [])))
    eqn:Esvg; [discriminate |].
  destruct (read_chunks max_bytes_default 0 [] (chunks resp)) as [data |] eqn:Er;
    [| discriminate].
  unfold ret. intros H. injection H as <- Him.
  destruct (read_chunks_prefix _ _ _ _ _ Er eq_refl ltac:(unfold max_bytes_default; lia))
    as ([n Hn] & Hlen).
  exists resp, data, n. unfold status_ok. rewrite Est.
  repeat split; try assumption; try reflexivity.
Qed.

Lemma download_image_caught (url : str) (s : run) :
  exists image,
    snd (catch (download_image w url) (ret None) s) = Returned image.
Proof.
  unfold catch. destruct (download_image w url s) as [s1 [im | e]];
    eexists; reflexivity.
Qed.

Lemma first_usable_returns (cands : list candidate) : forall s,
  exists r,
    snd (first_usable w cands s) = Returned r
    /\ (fst r = None <-> snd r = None).
Proof.
  induction cands as [| c rest IH]; intros s.
  - exists (None, None). split; [reflexivity | tauto].
  - cbn [first_usable]. unfold mbind, M_bind, bind, catch.
    destruct (download_image w (cand_url c) s) as [s1 [[im |] | e]].
    + eexists. split; [reflexivity |]. cbn. split; discriminate.
    + apply IH.
    + unfold ret. apply IH.
Qed.

(** X7: the scan of the official site never raises: whatever the site
    and the downloads do, it returns a pair, and the pair has an image
    exactly when it has a source URL. *)
Theorem official_site_never_raises (url : json) (s : run) :
  exists r,
    snd (find_image_from_official_site w url s) = Returned r
    /\ (fst r = None <-> snd r = None).
Proof.
  unfold find_image_from_official_site.
  destruct (negb (truthy url)).
  { exists (None, None). split; [reflexivity | tauto]. }
  destruct url;
    try (exists (None, None); split; [reflexivity | tauto]).
  unfold mbind, M_bind, bind, catch.
  destruct (fetch_html_candidates w s0 s) as [s1 [l | e]].
  - unfold mret, M_ret, ret. apply first_usable_returns.
  - unfold ret. exists (None, None). split; [reflexivity | tauto].
Qed.

(** X8: the directory site is asked outside any [try]: when the name is
    not in the prefetched map and the request of the detail page raises,
    [find_image_from_bdbase] raises the same exception. *)
Theorem bdbase_lookup_failure_raises (name : str) (bdbase_map : gmap str str)
    (s : run) (e : exn) :
  bdbase_map !! normalize_key name = None ->
  http_get w (length (requests s))
    (cps "https://www.bdbase.fr/editeurs/" ++ slugify_bdbase name) JNull
  = Raised e ->
  snd (find_image_from_bdbase w name bdbase_map s) = Raised e.
Proof.
  intros Hmap Hget. unfold find_image_from_bdbase.
  rewrite Hmap. destruct (decide (bdbase_map = ∅)) as [_ | _];
    unfold fetch_bdbase_logo_by_slug, mbind, M_bind, bind, requests_get;
    rewrite Hget; reflexivity.
Qed.

Lemma utf8_encode_scalar c :
  utf8_encode c = None <-> is_scalar_value c = false.
Proof.
  unfold utf8_encode, is_scalar_value.
  repeat match goal with
         | |- context [(?a <? ?b)%N] => destruct (N.ltb_spec a b)
         | |- context [(?a <=? ?b)%N] => destruct (N.leb_spec a b)
         end;
    cbn; split; intros; try discriminate; try reflexivity; lia.
Qed.

Lemma quote_scalar f :
  if forallb is_scalar_value f
  then exists q, quote f = Returned q
  else quote f = Raised UnicodeEncodeError.
Proof.
  induction f as [| c f IH]; cbn [forallb quote]; [eexists; reflexivity |].
  destruct (utf8_encode c) as [bytes |] eqn:Ec.
  - destruct (is_scalar_value c) eqn:Es.
    + cbn [andb]. destruct (forallb is_scalar_value f).
      * destruct IH as [q ->]. eexists. reflexivity.
      * rewrite IH. reflexivity.
    + apply utf8_encode_scalar in Es. congruence.
  - apply utf8_encode_scalar in Ec. rewrite Ec. reflexivity.
Qed.

Lemma download_image_one_request url s :
  length (requests (fst (download_image w url s))) <= S (length (requests s)).
Proof.
  unfold download_image, mbind, M_bind, bind, requests_get, raise_for_status.
  destruct (http_get w (length (requests s)) url JNull) as [resp |].
  - destruct ((400 <=? status_code resp)%Z && (status_code resp <? 600)%Z).
    + cbn. rewrite length_app. cbn. lia.
    + cbv beta iota. unfold ret at 1. cbv beta iota.
      destruct (contains _ _).
      * cbn. rewrite length_app. cbn. lia.
      * destruct (read_chunks _ _ _ _); cbn; rewrite length_app; cbn; lia.
  - cbn. rewrite length_app. cbn. lia.
Qed.

(** X9: for a logo file name that is missing or a string, the wikimedia
    source behaves in one of two ways.  When the name has no surrogate
    code point, it never raises, makes at most one request, and returns an
    image exactly when it returns the URL of the file, which is the
    [Special:FilePath] address followed by the quoted name.  When the name
    has one, quoting it raises [UnicodeEncodeError] outside the [try], and
    the source raises it before any request. *)
Theorem wikimedia_source_returns (filename : option str) (s : run) :
  if forallb is_scalar_value (default [] filename) then
    exists r,
      snd (find_image_from_wikimedia w (opt_json filename) s) = Returned r
      /\ (fst r = None <-> snd r = None)
      /\ (forall u, snd r = Some u ->
            exists f, filename = Some f /\ wikimedia_file_url f = Returned u)
      /\ length (requests
                   (fst (find_image_from_wikimedia w (opt_json filename) s)))
         <= S (length (requests s))
  else
    find_image_from_wikimedia w (opt_json filename) s
    = (s, Raised UnicodeEncodeError).
Proof.
  unfold find_image_from_wikimedia.
  destruct filename as [f |]; cbn [opt_json truthy default from_option id].
  2:{ cbn [forallb]. exists (None, None). split; [reflexivity |].
      split; [tauto |]. split; [discriminate | cbn; lia]. }
  pose proof (quote_scalar f) as Hq.
  destruct (forallb is_scalar_value f).
  - destruct Hq as [q Hq].
    destruct (nonempty f) eqn:Ef; cbn [negb].
    + unfold mbind, M_bind, bind, catch, lift, wikimedia_file_url.
      rewrite Hq.
      pose proof (download_image_one_request
                    (cps "https://commons.wikimedia.org/wiki/Special:FilePath/"
                     ++ q) s) as Hreq.
      destruct (download_image w _ s) as [s1 [[im |] | e]];
        unfold ret; cbn [fst snd] in *.
      * eexists. split; [reflexivity |]. cbn [fst snd].
        split; [split; discriminate |]. split; [| exact Hreq].
        intros u Hu. injection Hu as <-. exists f.
        split; [reflexivity |]. rewrite Hq. reflexivity.
      * exists (None, None). split; [reflexivity |].
        split; [tauto |]. split; [discriminate | exact Hreq].
      * exists (None, None). split; [reflexivity |].
        split; [tauto |]. split; [discriminate | exact Hreq].
    + exists (None, None). split; [reflexivity |].
      split; [tauto |]. split; [discriminate | cbn; lia].
  - destruct f as [| c f]; [discriminate Hq |]. cbn [nonempty negb].
    unfold mbind, M_bind, bind, lift, wikimedia_file_url.
    rewrite Hq. reflexivity.
Qed.

(** A name with a lone surrogate, as [json.load] reads it from an
    escape, ends the step for the publisher. *)
Example wikimedia_surrogate_raises :
  @find_image_from_wikimedia ascii_lib offline (JStr [55296%N])
    (initial_run (JObj []) ∅)
  = (initial_run (JObj []) ∅, Raised UnicodeEncodeError).
Proof. reflexivity. Qed.

End SourceFacts.

Lemma download_image_usable_witness :
  exists resp data n,
    http_get acme_web
      (length (requests (initial_run (JObj []) ∅)))
      (cps "https://acme.example/og.png") JNull = Returned resp
    /\ status_ok resp = true
    /\ contains (cps "image/svg")
         (@lower ascii_lib (or_str (content_type resp) [])) = false
    /\ data = concat (firstn n (chunks resp))
    /\ (Z.of_nat (length data) <= 5 * 1024 * 1024)%Z
    /\ open_image acme_web data = Some acme_logo
    /\ requests
         (fst (@download_image ascii_lib acme_web
                 (cps "https://acme.example/og.png")
                 (initial_run (JObj []) ∅)))
       = requests (initial_run (JObj []) ∅)
         ++ [RequestRecord ByDownloadImage (cps "https://acme.example/og.png")
               JNull].
Proof.
  exact (@download_image_usable ascii_lib acme_web
           (cps "https://acme.example/og.png") (initial_run (JObj []) ∅)
           _ acme_logo eq_refl).
Defined.

Lemma bdbase_lookup_failure_raises_witness :
  (∅ : gmap (list N) (list N)) !! @normalize_key ascii_lib acme = None
  /\ snd (@find_image_from_bdbase ascii_lib offline acme ∅
            (initial_run (JObj []) ∅))
     = Raised ConnectionError.
Proof.
  split; [reflexivity |].
  apply (@bdbase_lookup_failure_raises ascii_lib offline acme ∅
           (initial_run (JObj []) ∅) ConnectionError); reflexivity.
Defined.

(** ** [main]: what a step leaves alone *)

Lemma bind_returned {S A B} (m : M S A) (k : A -> M S B) s s' b :
  (m ≫= k) s = (s', Returned b) ->
  exists s1 a, m s = (s1, Returned a) /\ k a s1 = (s', Returned b).
Proof.
  unfold mbind, M_bind, bind. destruct (m s) as [s1 [a | e]]; intros H.
  - exists s1, a. split; [reflexivity | exact H].
  - discriminate.
Qed.

Lemma preserves_ret {X A} (f : run -> X) (a : A) : preserves f (mret a).
Proof. intros s. reflexivity. Qed.

Lemma preserves_ret' {X A} (f : run -> X) (a : A) : preserves f (ret a).
Proof. intros s. reflexivity. Qed.

Lemma preserves_raise {X A} (f : run -> X) e : preserves f (@raise run A e).
Proof. intros s. reflexivity. Qed.

Lemma preserves_lift {X A} (f : run -> X) (r : result A) : preserves f (lift r).
Proof. intros s. reflexivity. Qed.

Lemma preserves_get_state {X} (f : run -> X) : preserves f get_state.
Proof. intros s. reflexivity. Qed.

Lemma preserves_modify {X} (f : run -> X) g :
  (forall s, f (g s) = f s) -> preserves f (modify g).
Proof. intros H s. apply H. Qed.

Lemma preserves_bind {X A B} (f : run -> X) (m : M run A) (k : A -> M run B) :
  preserves f m -> (forall a, preserves f (k a)) -> preserves f (m ≫= k).
Proof.
  intros Hm Hk s. specialize (Hm s).
  unfold mbind, M_bind, bind. destruct (m s) as [s1 [a | e]]; cbn [fst] in *.
  - rewrite Hk. exact Hm.
  - exact Hm.
Qed.

Lemma preserves_catch {X A} (f : run -> X) (m h : M run A) :
  preserves f m -> preserves f h -> preserves f (catch m h).
Proof.
  intros Hm Hh s. specialize (Hm s).
  unfold catch. destruct (m s) as [s1 [a | e]]; cbn [fst] in *.
  - exact Hm.
  - rewrite Hh. exact Hm.
Qed.

Lemma preserves_requests_get {X} (f : run -> X) w by_ url query :
  (forall s rq,
     f {| cache := cache s; cache_writes := cache_writes s;
          requests := rq; report := report s;
          disk_images := disk_images s;
          folder_info_updates := folder_info_updates s |} = f s) ->
  preserves f (requests_get w by_ url query).
Proof. intros H s. unfold requests_get. cbn [fst]. apply H. Qed.

Lemma preserves_from {X A} (f : run -> X) (m : M run A) s s' r :
  preserves f m -> m s = (s', r) -> f s' = f s.
Proof. intros H E. specialize (H s). rewrite E in H. exact H. Qed.

Create HintDb frames.

Ltac preserves_step :=
  match goal with
  | |- preserves _ (mret _) => apply preserves_ret
  | |- preserves _ (ret _) => apply preserves_ret'
  | |- preserves _ (raise _) => apply preserves_raise
  | |- preserves _ (lift _) => apply preserves_lift
  | |- preserves _ get_state => apply preserves_get_state
  | |- preserves _ (modify _) => apply preserves_modify; reflexivity
  | |- preserves _ (requests_get _ _ _ _) =>
      apply preserves_requests_get; reflexivity
  | |- preserves _ (catch _ _) => apply preserves_catch
  | |- preserves _ (mbind _ _) => apply preserves_bind; [| intros ?]
  | |- preserves _ (if ?b then _ else _) => destruct b
  | |- preserves _ (match ?x with _ => _ end) => destruct x
  | |- preserves _ _ => solve [auto with frames nocore]
  end.

Ltac preserves_auto := repeat preserves_step.

Section FrameFacts.
Context {L : PyLib}.
Variable w : web.
Context {X : Type} (f : run -> X).
Hypothesis frame : fetch_frame f.

Lemma preserves_get by_ url query : preserves f (requests_get w by_ url query).
Proof. apply preserves_requests_get, frame. Qed.
#[local] Hint Resolve preserves_get : frames.

Lemma preserves_wiki_search name lang : preserves f (wiki_search w name lang).
Proof. unfold wiki_search, raise_for_status, resp_json. preserves_auto. Qed.

Lemma preserves_wiki_pageprops title lang :
  preserves f (wiki_pageprops w title lang).
Proof. unfold wiki_pageprops, raise_for_status, resp_json. preserves_auto. Qed.

Lemma preserves_wikidata_claims qid : preserves f (wikidata_claims w qid).
Proof. unfold wikidata_claims, raise_for_status, resp_json. preserves_auto. Qed.
#[local] Hint Resolve preserves_wiki_search preserves_wiki_pageprops
  preserves_wikidata_claims : frames.

Lemma preserves_resolve name lang :
  preserves f (resolve_publisher_info w name lang).
Proof. unfold resolve_publisher_info. preserves_auto. Qed.

Lemma preserves_download url : preserves f (download_image w url).
Proof. unfold download_image, raise_for_status. preserves_auto. Qed.
#[local] Hint Resolve preserves_resolve preserves_download : frames.

Lemma preserves_html url : preserves f (fetch_html_candidates w url).
Proof. unfold fetch_html_candidates, raise_for_status. preserves_auto. Qed.
#[local] Hint Resolve preserves_html : frames.

Lemma preserves_first_usable cands : preserves f (first_usable w cands).
Proof.
  induction cands as [| c rest IH]; cbn [first_usable]; [preserves_auto |].
  apply preserves_bind; [preserves_auto |].
  intros [im |]; [preserves_auto | exact IH].
Qed.
#[local] Hint Resolve preserves_first_usable : frames.

Lemma preserves_official url : preserves f (find_image_from_official_site w url).
Proof.
  unfold find_image_from_official_site.
  destruct (negb (truthy url)); [preserves_auto |].
  destruct url; preserves_auto.
Qed.

Lemma preserves_wikimedia filename :
  preserves f (find_image_from_wikimedia w filename).
Proof.
  unfold find_image_from_wikimedia.
  destruct (negb (truthy filename)); [preserves_auto |].
  destruct filename; preserves_auto.
Qed.

Lemma preserves_bdbase name bdbase_map :
  preserves f (find_image_from_bdbase w name bdbase_map).
Proof.
  unfold find_image_from_bdbase, fetch_bdbase_logo_by_slug.
  apply preserves_bind; [preserves_auto |].
  intros [[| c u] |]; preserves_auto.
Qed.
#[local] Hint Resolve preserves_official preserves_wikimedia
  preserves_bdbase : frames.

Lemma preserves_acquire_image args bdbase_map name info :
  preserves f (acquire_image w args bdbase_map name info).
Proof. unfold acquire_image. preserves_auto. Qed.

Lemma preserves_info_row name safe_name info source_url target status :
  preserves f (info_row name safe_name info source_url target status).
Proof. unfold info_row. preserves_auto. Qed.

End FrameFacts.

Lemma report_frame : fetch_frame report.
Proof. intros s rq. reflexivity. Qed.

Lemma disk_images_frame : fetch_frame disk_images.
Proof. intros s rq. reflexivity. Qed.

Lemma cache_frame : fetch_frame cache.
Proof. intros s rq. reflexivity. Qed.

Section StepFacts.
Context {L : PyLib}.
Variable w : web.
Variable args : options.
Variable bdbase_map : gmap str str.

Lemma preserves_cached_or_resolved {X} (f : run -> X) name :
  fetch_frame f ->
  (forall s c, f (set_cache c s) = f s) ->
  (forall s, f {| cache := cache s; cache_writes := cache_writes s ++ [cache s];
                  requests := requests s; report := report s;
                  disk_images := disk_images s;
                  folder_info_updates := folder_info_updates s |} = f s) ->
  preserves f (cached_or_resolved w name).
Proof.
  intros Hf Hc Hs. unfold cached_or_resolved, save_cache.
  apply preserves_bind; [preserves_auto | intros s0].
  apply preserves_bind; [preserves_auto | intros info].
  destruct (negb (truthy info)); [| preserves_auto].
  apply preserves_bind; [apply preserves_resolve, Hf | intros info'].
  apply preserves_bind; [preserves_auto | intros s1].
  apply preserves_bind; [preserves_auto | intros c].
  apply preserves_bind; [apply preserves_modify; intros s; apply Hc | intros _].
  apply preserves_bind; [apply preserves_modify, Hs | intros _].
  preserves_auto.
Qed.

Lemma preserves_supplemental {X} (f : run -> X) name info :
  fetch_frame f ->
  (forall s c, f (set_cache c s) = f s) ->
  (forall s, f {| cache := cache s; cache_writes := cache_writes s ++ [cache s];
                  requests := requests s; report := report s;
                  disk_images := disk_images s;
                  folder_info_updates := folder_info_updates s |} = f s) ->
  preserves f (supplemental w args name info).
Proof.
  intros Hf Hc Hs. unfold supplemental, fetch_bdbase_details, save_cache.
  destruct (opt_update_folder_info args && use_bdbase args); [| preserves_auto].
  apply preserves_bind; [preserves_auto | intros has_d].
  apply preserves_bind; [preserves_auto | intros has_w].
  apply preserves_bind; [| intros ?; preserves_auto].
  destruct (negb has_d || negb has_w); [| preserves_auto].
  apply preserves_bind.
  { apply preserves_bind; [apply preserves_requests_get, Hf | intros resp].
    preserves_auto. }
  intros [d |]; [| preserves_auto].
  repeat (apply preserves_bind; [solve [preserves_auto] | intros ?]).
  apply preserves_bind; [apply preserves_modify; intros s; apply Hc | intros _].
  apply preserves_bind; [apply preserves_modify, Hs | intros _].
  preserves_auto.
Qed.

Lemma info_row_returned name safe_name info source_url target status s s' row :
  info_row name safe_name info source_url target status s = (s', Returned row) ->
  s' = s /\ length row = 10 /\ row_publisher row = JStr name.
Proof.
  unfold info_row, mbind, M_bind, bind, lift, mret, M_ret, ret.
  repeat match goal with
         | |- context [py_get ?a ?b ?c] => destruct (py_get a b c)
         end; intros H; try discriminate.
  injection H as <- <-. repeat split.
Qed.

Lemma update_or_skip_report (b : bool) path d ws s :
  report (fst ((if b then update_folder_info path d ws else ret tt) s))
  = report s.
Proof. destruct b; reflexivity. Qed.

Lemma process_publisher_row (name : str) (s s' : run) :
  process_publisher w args bdbase_map name s = (s', Returned tt) ->
  exists row,
    report s' = report s ++ [row]
    /\ length row = 10
    /\ row_publisher row = JStr name.
Proof.
  unfold process_publisher. intros H.
  apply bind_returned in H. destruct H as (s0 & st & Hg & H).
  injection Hg as <- <-.
  match type of H with
  | (if ?b then _ else _) _ = _ => destruct b
  end.
  { injection H as <-. eexists. cbn [report]. repeat split. }
  apply bind_returned in H. destruct H as (s1 & info & H1 & H).
  assert (R1 : report s1 = report s).
  { apply (preserves_from report _ _ _ _
             (preserves_cached_or_resolved report name report_frame
                ltac:(reflexivity) ltac:(reflexivity)) H1). }
  apply bind_returned in H. destruct H as (s2 & [[info' d] ws] & H2 & H).
  assert (R2 : report s2 = report s1).
  { apply (preserves_from report _ _ _ _
             (preserves_supplemental report name info report_frame
                ltac:(reflexivity) ltac:(reflexivity)) H2). }
  match type of H with
  | (if ?b then _ else _) _ = _ => destruct b
  end.
  { apply bind_returned in H. destruct H as (s3 & [] & H3 & H).
    assert (R3 : report s3 = report s2).
    { pose proof (update_or_skip_report
                    (opt_update_folder_info args && (truthy d || truthy ws))
                    (path_join (path_join (output_root args)
                                  (sanitize_folder_name name))
                       (cps "folder-info.html")) d ws s2) as U.
      rewrite H3 in U. exact U. }
    injection H as <-. eexists. cbn [report]. rewrite R3, R2, R1.
    repeat split. }
  apply bind_returned in H. destruct H as (s3 & [image source_url] & H3 & H).
  assert (R3 : report s3 = report s2).
  { apply (preserves_from report _ _ _ _
             (preserves_acquire_image w report report_frame args bdbase_map
                name info') H3). }
  destruct image as [image |].
  - apply bind_returned in H. destruct H as (s4 & [] & H4 & H).
    assert (R4 : report s4 = report s3).
    { destruct (negb (dry_run args)); [| injection H4 as <-; reflexivity].
      apply bind_returned in H4. destruct H4 as (s5 & im & H5 & H4).
      unfold lift in H5. injection H5 as <- _.
      apply bind_returned in H4. destruct H4 as (s6 & [] & H6 & H4).
      injection H6 as <-.
      pose proof (update_or_skip_report
                    (opt_update_folder_info args && (truthy d || truthy ws))
                    (path_join (path_join (output_root args)
                                  (sanitize_folder_name name))
                       (cps "folder-info.html")) d ws
                    {| cache := cache s3; cache_writes := cache_writes s3;
                       requests := requests s3; report := report s3;
                       disk_images :=
                         <[path_join (path_join (output_root args)
                                        (sanitize_folder_name name))
                             (cps "folder.jpg") := im]> (disk_images s3);
                       folder_info_updates := folder_info_updates s3 |}) as U.
      rewrite H4 in U. exact U. }
    apply bind_returned in H. destruct H as (s5 & row & H5 & H).
    apply info_row_returned in H5. destruct H5 as (-> & Hlen & Hname).
    injection H as <-. exists row. cbn [report].
    rewrite R4, R3, R2, R1. repeat split; assumption.
  - apply bind_returned in H. destruct H as (s4 & row & H4 & H).
    apply info_row_returned in H4. destruct H4 as (-> & Hlen & Hname).
    apply bind_returned in H. destruct H as (s5 & [] & H5 & H).
    injection H5 as <-.
    pose proof (update_or_skip_report
                  (opt_update_folder_info args && (truthy d || truthy ws))
                  (path_join (path_join (output_root args)
                                (sanitize_folder_name name))
                     (cps "folder-info.html")) d ws
                  {| cache := cache s3; cache_writes := cache_writes s3;
                     requests := requests s3; report := report s3 ++ [row];
                     disk_images := disk_images s3;
                     folder_info_updates := folder_info_updates s3 |}) as U.
    rewrite H in U. cbn [fst report] in U.
    exists row. rewrite U, R3, R2, R1. repeat split; assumption.
Qed.

(** X10: a step that ends without an exception has written exactly one
    row of the report, of ten columns, with the publisher in the first
    column. *)
Theorem process_publisher_writes_one_row (name : str) (s s' : run) :
  process_publisher w args bdbase_map name s = (s', Returned tt) ->
  exists row,
    report s' = report s ++ [row]
    /\ length row = 10
    /\ row_publisher row = JStr name.
Proof.
  intros H. destruct (process_publisher_row name s s' H) as (row & R & Hl & Hn).
  exists row. repeat split; assumption.
Qed.

(** X11: a run of the loop that ends without an exception has written
    one row for each publisher, in the order of the list. *)
Theorem process_all_writes_rows (names : list str) : forall (s s' : run),
  process_all w args bdbase_map names s = (s', Returned tt) ->
  exists rows,
    report s' = report s ++ rows
    /\ List.map row_publisher rows = List.map JStr names.
Proof.
  induction names as [| name rest IH]; intros s s' H.
  - injection H as <-. exists []. rewrite app_nil_r. split; reflexivity.
  - cbn [process_all] in H.
    apply bind_returned in H. destruct H as (s1 & [] & H1 & H).
    apply process_publisher_row in H1.
    destruct H1 as (row & R1 & _ & Hname).
    destruct (IH _ _ H) as (rows & R & Hrows).
    exists (row :: rows). rewrite R, R1, <- app_assoc. split; [reflexivity |].
    cbn [List.map]. rewrite Hname, Hrows. reflexivity.
Qed.

Lemma make_square_returned conv image size im :
  make_square conv image size = Returned im ->
  mode im = ModeRGB /\ width im = size /\ height im = size.
Proof.
  unfold make_square.
  destruct (flatten conv image) as [flat | e] eqn:Ef; [| discriminate].
  apply flatten_returned in Ef. destruct Ef as (Em & _ & _).
  destruct (square_box (width flat) (height flat)) as [[[l t] r] b].
  unfold resize, crop. cbn [mode width height pixels].
  destruct ((0 <? size)%Z && (0 <? size)%Z); [| discriminate].
  intros H. injection H as <-. cbn [mode width height].
  repeat split. exact Em.
Qed.

Lemma saved_square_after {A B} name (m : M run A) (k : A -> M run B) :
  preserves disk_images m ->
  (forall a s, saved_square args name s (fst (k a s))) ->
  forall s, saved_square args name s (fst ((m ≫= k) s)).
Proof.
  intros Hm Hk s. specialize (Hm s). unfold mbind, M_bind, bind.
  destruct (m s) as [s1 [a | e]]; cbn [fst] in *.
  - specialize (Hk a s1). unfold saved_square in *. rewrite Hm in Hk. exact Hk.
  - left. exact Hm.
Qed.

Lemma saved_square_keep {A} name (m : M run A) :
  preserves disk_images m ->
  forall s, saved_square args name s (fst (m s)).
Proof. intros Hm s. left. apply Hm. Qed.

Lemma preserves_update_or_skip {X} (f : run -> X) (b : bool) path d ws :
  (forall s u,
     f {| cache := cache s; cache_writes := cache_writes s;
          requests := requests s; report := report s;
          disk_images := disk_images s; folder_info_updates := u |} = f s) ->
  preserves f (if b then update_folder_info path d ws else ret tt).
Proof.
  intros H. destruct b; [| apply preserves_ret'].
  apply preserves_modify. intros s. apply H.
Qed.

Lemma preserves_write_report_row {X} (f : run -> X) row :
  (forall s r,
     f {| cache := cache s; cache_writes := cache_writes s;
          requests := requests s; report := r;
          disk_images := disk_images s;
          folder_info_updates := folder_info_updates s |} = f s) ->
  preserves f (write_report_row row).
Proof. intros H. apply preserves_modify. intros s. apply H. Qed.

(** The images on disk after a step, whatever its outcome. *)
Lemma step_saved_square (name : str) (s : run) :
  saved_square args name s (fst (process_publisher w args bdbase_map name s)).
Proof.
  unfold process_publisher. revert s.
  apply saved_square_after; [apply preserves_get_state | intros st s].
  match goal with
  | |- saved_square _ _ _ (fst ((if ?b then _ else _) _)) => destruct b
  end.
  { apply saved_square_keep, preserves_write_report_row. reflexivity. }
  revert s. apply saved_square_after.
  { apply preserves_cached_or_resolved;
      [apply disk_images_frame | reflexivity | reflexivity]. }
  intros info. apply saved_square_after.
  { apply preserves_supplemental;
      [apply disk_images_frame | reflexivity | reflexivity]. }
  intros [[info' d] ws] s.
  match goal with
  | |- saved_square _ _ _ (fst ((if ?b then _ else _) _)) => destruct b
  end.
  { apply saved_square_keep, preserves_bind.
    - apply preserves_update_or_skip. reflexivity.
    - intros _. apply preserves_write_report_row. reflexivity. }
  revert s. apply saved_square_after.
  { apply preserves_acquire_image, disk_images_frame. }
  intros [[image |] source_url] s.
  - destruct (dry_run args) eqn:Edry; cbn [negb].
    + apply saved_square_keep.
      apply preserves_bind; [apply preserves_ret' | intros _].
      apply preserves_bind; [apply preserves_info_row |].
      intros row. apply preserves_write_report_row. reflexivity.
    + unfold mbind at 1, M_bind at 1, bind at 1.
      unfold mbind at 1, M_bind at 1, bind at 1. unfold lift at 1.
      destruct (make_square (convert_rgb w) image (opt_size args)) as [im |] eqn:Esq;
        [| left; reflexivity].
      apply make_square_returned in Esq. destruct Esq as (Em & Ew & Eh).
      match goal with
      | |- saved_square _ _ _ (fst (match ?x with _ => _ end)) =>
          destruct x as [s1 r1] eqn:E1
      end.
      assert (D1 : disk_images s1
                   = <[target_image_of args name := im]> (disk_images s)).
      { assert (P : preserves disk_images
                      (if opt_update_folder_info args
                          && (truthy d || truthy ws)
                       then update_folder_info
                              (path_join (path_join (output_root args)
                                            (sanitize_folder_name name))
                                 (cps "folder-info.html")) d ws
                       else ret tt))
          by (apply preserves_update_or_skip; reflexivity).
        unfold mbind, M_bind, bind, save_image, modify in E1.
        apply (preserves_from disk_images _ _ _ _ P) in E1.
        exact E1. }
      assert (K : forall (m' : M run unit) s1', 
                 preserves disk_images m' ->
                 disk_images s1' = <[target_image_of args name := im]> (disk_images s) ->
                 saved_square args name s (fst (m' s1'))).
      { intros m' s1' Pm Hd. right. exists im.
        rewrite (Pm s1'). repeat split; assumption. }
      destruct r1 as [[] | e].
      * apply K; [| exact D1].
        apply preserves_bind; [apply preserves_info_row |].
        intros row. apply preserves_write_report_row. reflexivity.
      * right. exists im. repeat split; assumption.
  - apply saved_square_keep.
    apply preserves_bind; [apply preserves_info_row |].
    intros row. apply preserves_bind.
    + apply preserves_write_report_row. reflexivity.
    + intros _. apply preserves_update_or_skip. reflexivity.
Qed.

(** X12: whatever the outcome of a step, the images on disk are as
    before, or one image was saved at the path of the publisher: an RGB
    square of the size of [--size], and never in a dry run. *)
Theorem process_publisher_saves_square (name : str) (s : run) :
  saved_square args name s (fst (process_publisher w args bdbase_map name s)).
Proof. apply step_saved_square. Qed.

(** X13: a dry run writes no image, however many publishers it goes
    through and however it ends. *)
Theorem dry_run_writes_no_image (names : list str) (s : run) :
  dry_run args = true ->
  disk_images (fst (process_all w args bdbase_map names s)) = disk_images s.
Proof.
  intros Hdry. revert s. induction names as [| name rest IH]; intros s;
    [reflexivity |].
  cbn [process_all]. unfold mbind, M_bind, bind.
  pose proof (step_saved_square name s) as Hstep.
  destruct (process_publisher w args bdbase_map name s) as [s1 [[] | e]];
    cbn [fst] in *.
  - rewrite IH. destruct Hstep as [H | (im & _ & _ & _ & _ & H)];
      [exact H | congruence].
  - destruct Hstep as [H | (im & _ & _ & _ & _ & H)]; [exact H | congruence].
Qed.

End StepFacts.

Lemma process_publisher_writes_one_row_witness :
  exists row,
    report (fst (@process_publisher ascii_lib offline default_options ∅ acme
                   (initial_run (JObj [(acme, acme_info)]) ∅)))
    = report (initial_run (JObj [(acme, acme_info)]) ∅) ++ [row]
    /\ length row = 10
    /\ row_publisher row = JStr acme.
Proof.
  apply (@process_publisher_writes_one_row ascii_lib offline default_options ∅
           acme (initial_run (JObj [(acme, acme_info)]) ∅)).
  vm_compute. reflexivity.
Defined.

Lemma process_all_writes_rows_witness :
  exists rows,
    report (fst (@process_all ascii_lib acme_web dry_options ∅ [acme; acme]
                   (initial_run (JObj [(acme, acme_info)]) ∅)))
    = report (initial_run (JObj [(acme, acme_info)]) ∅) ++ rows
    /\ List.map row_publisher rows = List.map JStr [acme; acme].
Proof.
  apply (@process_all_writes_rows ascii_lib acme_web dry_options ∅
           [acme; acme] (initial_run (JObj [(acme, acme_info)]) ∅)).
  vm_compute. reflexivity.
Defined.

Lemma dry_run_writes_no_image_witness :
  dry_run dry_options = true
  /\ disk_images (fst (@process_all ascii_lib acme_web dry_options ∅
                         [acme; acme]
                         (initial_run (JObj [(acme, acme_info)]) ∅)))
     = disk_images (initial_run (JObj [(acme, acme_info)]) ∅).
Proof.
  split; [reflexivity |].
  apply (@dry_run_writes_no_image ascii_lib acme_web dry_options ∅
           [acme; acme] (initial_run (JObj [(acme, acme_info)]) ∅)).
  reflexivity.
Defined.

(** Outside a dry run the step for Acme Comics saves the square. *)
Example acme_saves_square :
  let s' := fst (@process_publisher ascii_lib acme_web default_options ∅ acme
                   (initial_run (JObj [(acme, acme_info)]) ∅)) in
  option_map (fun im => (mode im, width im, height im))
    (disk_images s' !! cps "/out/Acme Comics/folder.jpg")
  = Some (ModeRGB, 312%Z, 312%Z).
Proof. vm_compute. reflexivity. Qed.

(** ** ResolutionCache: records are kept *)

Lemma str_eqb_refl (k : str) : str_eqb k k = true.
Proof. unfold str_eqb. apply bool_decide_eq_true. reflexivity. Qed.

Lemma dict_lookup_set (k : str) (v : json) (m : list (str * json)) :
  dict_lookup k (dict_set k v m) = Some v.
Proof.
  induction m as [| [k' v'] m IH]; cbn.
  - rewrite str_eqb_refl. reflexivity.
  - destruct (str_eqb k' k) eqn:E; cbn.
    + rewrite str_eqb_refl. reflexivity.
    + rewrite E. exact IH.
Qed.

Lemma dict_lookup_set_other (k k' : str) (v : json) (m : list (str * json)) :
  k <> k' -> dict_lookup k' (dict_set k v m) = dict_lookup k' m.
Proof.
  intros Hne. induction m as [| [k0 v0] m IH]; cbn.
  - unfold str_eqb. rewrite bool_decide_eq_false_2 by exact Hne. reflexivity.
  - destruct (str_eqb k0 k) eqn:E; cbn.
    + unfold str_eqb in E. apply bool_decide_eq_true in E. subst k0.
      unfold str_eqb. rewrite !bool_decide_eq_false_2 by exact Hne.
      reflexivity.
    + destruct (str_eqb k0 k'); [reflexivity | exact IH].
Qed.

Section CacheFacts.
Context {L : PyLib}.
Variable w : web.

(** A resolution that returns, returns a record with the five fields. *)
Lemma resolve_publisher_info_returned name lang s s' info :
  resolve_publisher_info w name lang s = (s', Returned info) ->
  exists title lang' qid official_url logo,
    info = make_info title lang' qid official_url logo.
Proof.
  unfold resolve_publisher_info. intros H.
  apply bind_returned in H. destruct H as (s1 & title & _ & H).
  apply bind_returned in H. destruct H as (s2 & [title' lang'] & _ & H).
  destruct (negb (truthy title')).
  { injection H as _ <-. eauto 10. }
  apply bind_returned in H. destruct H as (s3 & qid & _ & H).
  destruct (negb (truthy qid)).
  { injection H as _ <-. eauto 10. }
  apply bind_returned in H. destruct H as (s4 & claims & _ & H).
  apply bind_returned in H. destruct H as (s5 & official_url & _ & H).
  apply bind_returned in H. destruct H as (s6 & p154 & _ & H).
  apply bind_returned in H. destruct H as (s7 & logo & _ & H).
  injection H as _ <-. eauto 10.
Qed.

(** What [cached_or_resolved] has done when it returns: nothing at all on
    a hit; on a miss the record is in the cache under the name and the
    cache was saved, after the requests of the resolution. *)
Lemma cached_or_resolved_returned name s s1 info :
  cached_or_resolved w name s = (s1, Returned info) ->
  truthy info = true
  /\ exists m,
       cache s = JObj m
       /\ ((s1 = s /\ dict_lookup name m = Some info)
           \/ (truthy (default JNull (dict_lookup name m)) = false
               /\ cache s1 = JObj (dict_set name info m)
               /\ cache_writes s1 = cache_writes s ++ [cache s1]
               /\ report s1 = report s
               /\ disk_images s1 = disk_images s)).
Proof.
  unfold cached_or_resolved. intros H.
  apply bind_returned in H. destruct H as (s0 & st & Hg & H).
  injection Hg as <- <-.
  apply bind_returned in H. destruct H as (s0 & cached & Hget & H).
  unfold lift in Hget.
  destruct (cache s) as [| | | | | | m] eqn:Ec; try discriminate.
  cbn [py_get] in Hget. injection Hget as <- <-.
  destruct (truthy (default JNull (dict_lookup name m))) eqn:Et; cbn [negb] in H.
  - injection H as <- <-. split; [exact Et |].
    exists m. split; [reflexivity |]. left. split; [reflexivity |].
    destruct (dict_lookup name m) as [v |]; [reflexivity | discriminate].
  - apply bind_returned in H. destruct H as (s2 & info' & Hres & H).
    assert (Hc2 : cache s2 = cache s).
    { apply (preserves_from cache _ _ _ _
               (preserves_resolve w cache cache_frame name (cps "fr")) Hres). }
    assert (Hw2 : cache_writes s2 = cache_writes s).
    { apply (preserves_from cache_writes _ _ _ _
               (preserves_resolve w cache_writes
                  ltac:(intros ? ?; reflexivity) name (cps "fr")) Hres). }
    assert (Hr2 : report s2 = report s).
    { apply (preserves_from report _ _ _ _
               (preserves_resolve w report report_frame name (cps "fr")) Hres). }
    assert (Hd2 : disk_images s2 = disk_images s).
    { apply (preserves_from disk_images _ _ _ _
               (preserves_resolve w disk_images disk_images_frame name
                  (cps "fr")) Hres). }
    apply resolve_publisher_info_returned in Hres.
    destruct Hres as (t & l & q & o & f & ->).
    apply bind_returned in H. destruct H as (s3 & st & Hg & H).
    injection Hg as <- <-.
    apply bind_returned in H. destruct H as (s3 & c' & Hset & H).
    unfold lift in Hset. rewrite Hc2, Ec in Hset. cbn [py_setitem] in Hset.
    injection Hset as <- <-.
    apply bind_returned in H. destruct H as (s4 & [] & Hm & H).
    injection Hm as <-.
    apply bind_returned in H. destruct H as (s5 & [] & Hs & H).
    injection Hs as <-. injection H as <- <-.
    split; [reflexivity |]. exists m. split; [reflexivity |]. right.
    cbn [cache cache_writes report disk_images set_cache].
    rewrite Hw2, Hr2, Hd2. repeat split; try assumption.
Qed.

(** X14: a record that [cached_or_resolved] has returned is found in the
    cache by the next lookup: the same record comes back and the state,
    the list of requests included, is left as it is. *)
Theorem cached_or_resolved_then_hit (name : str) (s s1 : run) (info : json) :
  cached_or_resolved w name s = (s1, Returned info) ->
  cached_or_resolved w name s1 = (s1, Returned info).
Proof.
  intros H. apply cached_or_resolved_returned in H.
  destruct H as (Ht & m & Hc & [[-> Hl] | (_ & Hc1 & _)]).
  - apply (cached_or_resolved_hit w name s m info Hc Hl Ht).
  - apply (cached_or_resolved_hit w name s1 (dict_set name info m) info Hc1
             (dict_lookup_set name info m) Ht).
Qed.

(** X15: a record that was not in the cache is put there under the name
    of the publisher, the other records are kept, and the cache is saved
    at once, with that record in it. *)
Theorem cached_or_resolved_miss_saves (name : str) (s s1 : run) (info : json)
    (m : list (str * json)) :
  cache s = JObj m ->
  truthy (default JNull (dict_lookup name m)) = false ->
  cached_or_resolved w name s = (s1, Returned info) ->
  exists m1,
    cache s1 = JObj m1
    /\ dict_lookup name m1 = Some info
    /\ (forall other, other <> name -> dict_lookup other m1 = dict_lookup other m)
    /\ cache_writes s1 = cache_writes s ++ [JObj m1].
Proof.
  intros Hc Hmiss H. apply cached_or_resolved_returned in H.
  destruct H as (Ht & m' & Hc' & [[-> Hl] | (_ & Hc1 & Hw & _)]).
  - rewrite Hc in Hc'. injection Hc' as <-. rewrite Hl in Hmiss.
    cbn in Hmiss. congruence.
  - rewrite Hc in Hc'. injection Hc' as <-.
    exists (dict_set name info m). rewrite Hw, Hc1.
    repeat split; try reflexivity.
    + apply dict_lookup_set.
    + intros other Hne. apply dict_lookup_set_other. congruence.
Qed.

End CacheFacts.

(** ** SourceResolver: the requests of a resolution *)

Lemma extends_within_refl n P s : extends_within n P s s.
Proof.
  exists []. rewrite app_nil_r. split; [reflexivity |].
  split; [cbn; lia | constructor].
Qed.

Lemma extends_within_same n P s s' :
  requests s' = requests s -> extends_within n P s s'.
Proof.
  intros E. exists []. rewrite app_nil_r. split; [exact E |].
  split; [cbn; lia | constructor].
Qed.

Lemma extends_within_trans n1 n2 P s1 s2 s3 :
  extends_within n1 P s1 s2 -> extends_within n2 P s2 s3 ->
  extends_within (n1 + n2) P s1 s3.
Proof.
  intros (a & E1 & L1 & H1) (b & E2 & L2 & H2). exists (a ++ b).
  rewrite E2, E1, app_assoc. split; [reflexivity |].
  split; [rewrite length_app; lia | apply List.Forall_app; split; assumption].
Qed.

Lemma extends_within_weaken n n' P s s' :
  n <= n' -> extends_within n P s s' -> extends_within n' P s s'.
Proof.
  intros Hn (a & E & Hl & H). exists a. split; [exact E |].
  split; [lia | exact H].
Qed.

Lemma calls_within_pure {A} n P (m : M run A) :
  preserves requests m -> calls_within n P m.
Proof. intros H s. apply extends_within_same, H. Qed.

Lemma calls_within_weaken {A} n n' P (m : M run A) :
  n <= n' -> calls_within n P m -> calls_within n' P m.
Proof. intros Hn H s. eapply extends_within_weaken; [exact Hn | apply H]. Qed.

Lemma calls_within_bind {A B} n1 n2 P (m : M run A) (k : A -> M run B) :
  calls_within n1 P m -> (forall a, calls_within n2 P (k a)) ->
  calls_within (n1 + n2) P (m ≫= k).
Proof.
  intros Hm Hk s. specialize (Hm s). unfold mbind, M_bind, bind.
  destruct (m s) as [s1 [a | e]]; cbn [fst] in *.
  - eapply extends_within_trans; [exact Hm | apply Hk].
  - eapply extends_within_weaken; [| exact Hm]. lia.
Qed.

Section ResolutionRequests.
Context {L : PyLib}.
Variable w : web.

(** A request followed by computations that make none. *)
Lemma calls_within_get {A} P by_ url query (k : http_response -> M run A) :
  P by_ = true ->
  (forall resp, preserves requests (k resp)) ->
  calls_within 1 P (requests_get w by_ url query ≫= k).
Proof.
  intros HP Hk. change 1 with (1 + 0). apply calls_within_bind.
  - intros s. unfold requests_get. cbn [fst requests].
    eexists [_]. split; [reflexivity |]. split; [cbn; lia |].
    constructor; [exact HP | constructor].
  - intros resp. apply calls_within_pure, Hk.
Qed.

Lemma wiki_search_one_call name lang :
  calls_within 1 is_metadata_call (wiki_search w name lang).
Proof.
  unfold wiki_search. apply calls_within_get; [reflexivity |].
  intros resp. unfold raise_for_status, resp_json. preserves_auto.
Qed.

Lemma wiki_pageprops_one_call title lang :
  calls_within 1 is_metadata_call (wiki_pageprops w title lang).
Proof.
  unfold wiki_pageprops. apply calls_within_get; [reflexivity |].
  intros resp. unfold raise_for_status, resp_json. preserves_auto.
Qed.

Lemma wikidata_claims_one_call qid :
  calls_within 1 is_metadata_call (wikidata_claims w qid).
Proof.
  unfold wikidata_claims. apply calls_within_get; [reflexivity |].
  intros resp. unfold raise_for_status, resp_json. preserves_auto.
Qed.

Lemma get_then_requests {A} by_ url query (k : http_response -> M run A) s :
  (forall resp, preserves requests (k resp)) ->
  requests (fst ((requests_get w by_ url query ≫= k) s))
  = requests s ++ [RequestRecord by_ url query].
Proof.
  intros Hk. unfold mbind, M_bind, bind, requests_get.
  destruct (http_get w (length (requests s)) url query) as [resp | e];
    [| reflexivity].
  rewrite (Hk resp _). reflexivity.
Qed.

Lemma bind_first {A B} n P rq (m : M run A) (k : A -> M run B) :
  (forall s, requests (fst (m s)) = requests s ++ [rq]) ->
  (forall a, calls_within n P (k a)) ->
  forall s, exists more,
    requests (fst ((m ≫= k) s)) = requests s ++ rq :: more
    /\ length more <= n
    /\ Forall (fun r => P (req_by r) = true) more.
Proof.
  intros Hm Hk s. specialize (Hm s). unfold mbind, M_bind, bind.
  destruct (m s) as [s1 [a | e]]; cbn [fst] in *.
  - destruct (Hk a s1) as (more & E & Hl & H). exists more.
    rewrite E, Hm, <- app_assoc. repeat split; assumption.
  - exists []. rewrite Hm. split; [reflexivity |].
    split; [cbn; lia | constructor].
Qed.

(** X16: a resolution starts with the search in French and makes at most
    three more requests, all of them to the search, page-properties and
    claims interfaces: never more than four requests for one publisher,
    whatever the answers are. *)
Theorem resolve_publisher_info_requests (name : str) (s : run) :
  exists more,
    requests (fst (resolve_publisher_info w name (cps "fr") s))
    = requests s
      ++ RequestRecord ByWikiSearch (api_url (cps "fr")) (JStr name) :: more
    /\ length more <= 3
    /\ Forall (fun rq => is_metadata_call (req_by rq) = true) more.
Proof.
  unfold resolve_publisher_info. revert s. apply bind_first.
  - intros s. unfold wiki_search. apply get_then_requests.
    intros resp. unfold raise_for_status, resp_json. preserves_auto.
  - intros title. change 3 with (1 + 2). apply calls_within_bind.
    + destruct (negb (truthy title) && negb (str_eqb (cps "fr") (cps "en"))).
      * change 1 with (1 + 0). apply calls_within_bind;
          [apply wiki_search_one_call |].
        intros t. apply calls_within_pure. preserves_auto.
      * apply calls_within_pure. preserves_auto.
    + intros [title' lang'].
      destruct (negb (truthy title'));
        [apply calls_within_pure; preserves_auto |].
      change 2 with (1 + 1). apply calls_within_bind;
        [apply wiki_pageprops_one_call |].
      intros qid. destruct (negb (truthy qid));
        [apply calls_within_pure; preserves_auto |].
      change 1 with (1 + 0). apply calls_within_bind;
        [apply wikidata_claims_one_call |].
      intros claims. apply calls_within_pure. preserves_auto.
Qed.

End ResolutionRequests.

Lemma cached_or_resolved_then_hit_witness :
  exists s1,
    cached_or_resolved search_only_web acme (initial_run (JObj []) ∅)
    = (s1, Returned (make_info (JStr (cps "A")) (cps "fr") JNull JNull JNull))
    /\ cached_or_resolved search_only_web acme s1
       = (s1, Returned (make_info (JStr (cps "A")) (cps "fr") JNull JNull JNull)).
Proof.
  eexists. split; [vm_compute; reflexivity |].
  apply (cached_or_resolved_then_hit search_only_web acme
           (initial_run (JObj []) ∅)).
  vm_compute. reflexivity.
Defined.

Lemma cached_or_resolved_miss_saves_witness :
  exists s1 m1,
    cached_or_resolved search_only_web acme (initial_run (JObj []) ∅)
    = (s1, Returned (make_info (JStr (cps "A")) (cps "fr") JNull JNull JNull))
    /\ cache s1 = JObj m1
    /\ dict_lookup acme m1
       = Some (make_info (JStr (cps "A")) (cps "fr") JNull JNull JNull)
    /\ (forall other, other <> acme -> dict_lookup other m1 = dict_lookup other [])
    /\ cache_writes s1 = cache_writes (initial_run (JObj []) ∅) ++ [JObj m1].
Proof.
  eexists.
  destruct (cached_or_resolved_miss_saves search_only_web acme
              (initial_run (JObj []) ∅) _
              (make_info (JStr (cps "A")) (cps "fr") JNull JNull JNull) []
              eq_refl eq_refl ltac:(vm_compute; reflexivity))
    as (m1 & H1 & H2 & H3 & H4).
  exists m1. split; [vm_compute; reflexivity |].
  repeat split; assumption.
Defined.

(** ** Text helpers *)

Lemma strip_by_trimmed cls s : trimmed cls (strip_by cls s).
Proof. destruct (strip_by_parts cls s) as (_ & H1 & H2). split; assumption. Qed.

Lemma strip_by_fixed cls s : trimmed cls s -> strip_by cls s = s.
Proof. intros [H1 H2]. apply strip_by_id; assumption. Qed.

Lemma separated_app_r cls a b :
  separated cls (a ++ b) = true -> separated cls b = true.
Proof.
  induction a as [| c a IH]; [trivial |].
  cbn [app separated]. rewrite andb_true_iff. intros [_ H]. exact (IH H).
Qed.

Lemma separated_app_l cls a b :
  separated cls (a ++ b) = true -> separated cls a = true.
Proof.
  induction a as [| c a IH]; [reflexivity |].
  cbn [app separated]. rewrite !andb_true_iff. intros [Hm H].
  split; [| exact (IH H)].
  destruct (cls c); [| reflexivity].
  destruct a as [| d a]; [reflexivity | exact Hm].
Qed.

Lemma separated_strip_by cls cls' s :
  separated cls s = true -> separated cls (strip_by cls' s) = true.
Proof.
  intros H. destruct (strip_by_parts cls' s) as ((pre & post & E) & _).
  rewrite E in H. apply separated_app_r in H. apply separated_app_l in H.
  exact H.
Qed.

Lemma forallb_strip_by (p : N -> bool) cls s :
  forallb p s = true -> forallb p (strip_by cls s) = true.
Proof.
  intros H. destruct (strip_by_parts cls s) as ((pre & post & E) & _).
  rewrite E, !forallb_app in H. apply andb_true_iff in H. destruct H as [_ H].
  apply andb_true_iff in H. destruct H as [H _]. exact H.
Qed.

Lemma separated_weaken (cls1 cls2 : N -> bool) s :
  (forall c, cls2 c = true -> cls1 c = true) ->
  separated cls1 s = true -> separated cls2 s = true.
Proof.
  intros Hsub. induction s as [| c s IH]; [reflexivity |].
  cbn [separated]. rewrite !andb_true_iff. intros [Hm H].
  split; [| exact (IH H)].
  destruct (cls2 c) eqn:E2; [| reflexivity].
  rewrite (Hsub c E2) in Hm.
  destruct s as [| d s]; [reflexivity |].
  apply negb_true_iff in Hm. apply negb_true_iff.
  destruct (cls2 d) eqn:Ed; [| reflexivity].
  rewrite (Hsub d Ed) in Hm. discriminate.
Qed.

(** After [sub_runs] with a separator of the class, the characters of the
    class are separators standing alone. *)
Lemma sub_runs_separated cls sep t :
  cls sep = true -> separated cls (sub_runs cls [sep] t) = true.
Proof.
  intros Hsep. induction t as [| c t IH]; [reflexivity |].
  destruct (cls c) eqn:Ec.
  - cbn [sub_runs]. rewrite Ec.
    destruct t as [| d t]; [cbn; rewrite Hsep; reflexivity |].
    destruct (cls d) eqn:Ed; [exact IH |].
    rewrite sub_runs_keep in IH |- * by exact Ed.
    cbn [app].
    change (separated cls (sep :: d :: sub_runs cls [sep] t))
      with ((if cls sep then negb (cls d) else true)
            && separated cls (d :: sub_runs cls [sep] t)).
    rewrite Hsep, Ed, IH. reflexivity.
  - rewrite sub_runs_keep by exact Ec.
    cbn [separated]. rewrite Ec, IH. reflexivity.
Qed.

Lemma sub_runs_chars cls sep t :
  forallb (fun c => negb (cls c) || N.eqb c sep) (sub_runs cls [sep] t) = true.
Proof.
  induction t as [| c t IH]; [reflexivity |].
  destruct (cls c) eqn:Ec.
  - cbn [sub_runs]. rewrite Ec.
    destruct t as [| d t]; [cbn; rewrite N.eqb_refl, orb_true_r; reflexivity |].
    destruct (cls d) eqn:Ed; [exact IH |].
    cbn [app forallb]. rewrite N.eqb_refl, orb_true_r. exact IH.
  - rewrite sub_runs_keep by exact Ec.
    cbn [forallb]. rewrite Ec, IH. reflexivity.
Qed.

Lemma sub_runs_fixed cls sep s :
  separated cls s = true ->
  forallb (fun c => negb (cls c) || N.eqb c sep) s = true ->
  sub_runs cls [sep] s = s.
Proof.
  induction s as [| c s IH]; [reflexivity |].
  cbn [separated forallb]. rewrite !andb_true_iff. intros [Hm Hs] [Hc Hall].
  cbn [sub_runs]. destruct (cls c) eqn:Ec.
  - cbn in Hc. apply N.eqb_eq in Hc. subst c.
    destruct s as [| d s]; [reflexivity |].
    apply negb_true_iff in Hm. rewrite Hm, (IH Hs Hall). reflexivity.
  - rewrite (IH Hs Hall). reflexivity.
Qed.

Lemma sub_chars_map cls r s :
  sub_chars cls [r] s = List.map (fun c => if cls c then r else c) s.
Proof.
  unfold sub_chars. induction s as [| c s IH]; [reflexivity |].
  cbn. rewrite IH. destruct (cls c); reflexivity.
Qed.

Lemma lstrip_by_empty cls s :
  lstrip_by cls s = [] -> forallb cls s = true.
Proof.
  induction s as [| c s IH]; [reflexivity |].
  cbn. destruct (cls c); [exact IH | discriminate].
Qed.

Lemma strip_by_empty cls s : strip_by cls s = [] -> forallb cls s = true.
Proof.
  unfold strip_by. intros H.
  assert (H' : lstrip_by cls (rev (lstrip_by cls s)) = []).
  { rewrite <- (rev_involutive (lstrip_by cls (rev (lstrip_by cls s)))), H.
    reflexivity. }
  apply lstrip_by_empty in H'.
  pose proof (lstrip_by_head cls s) as Hh.
  destruct (lstrip_by cls s) as [| c a] eqn:Ea.
  - apply lstrip_by_empty, Ea.
  - exfalso. rewrite forallb_forall in H'.
    specialize (H' c ltac:(apply List.in_rev; rewrite rev_involutive; left; reflexivity)).
    congruence.
Qed.

Ltac chars2 :=
  unfold is_unsafe_path_char, is_hyphen, is_space, is_lower_alnum, not_alnum,
    space in *;
  repeat match goal with
         | H : _ = false |- _ => apply not_true_iff_false in H
         | |- _ = false => apply not_true_iff_false; intro
         | H : negb _ = true |- _ => apply negb_true_iff in H
         | |- negb _ = true => apply negb_true_iff
         end;
  repeat progress
    rewrite ?orb_true_iff, ?andb_true_iff, ?N.leb_le, ?N.eqb_eq in *;
  try lia.

(** X17: a folder name has none of the characters a path cannot hold,
    has no white space at either end, and is left as it is when sanitized
    again. *)
Theorem sanitize_folder_name_safe (name : str) :
  forallb (fun c => negb (is_unsafe_path_char c)) (sanitize_folder_name name)
  = true
  /\ trimmed is_space (sanitize_folder_name name)
  /\ sanitize_folder_name (sanitize_folder_name name)
     = sanitize_folder_name name.
Proof.
  unfold sanitize_folder_name. change (cps "-") with [45%N].
  rewrite !sub_chars_map. unfold strip.
  set (v := strip_by is_space name).
  pose proof (strip_by_trimmed is_space name) as Hv. fold v in Hv.
  set (f := fun c : N => if is_unsafe_path_char c then 45%N else c).
  assert (Hf : forall c, is_space (f c) = is_space c).
  { intros c. unfold f. destruct (is_unsafe_path_char c) eqn:E; [| reflexivity].
    destruct (is_space c) eqn:E2; [exfalso; chars2 | reflexivity]. }
  assert (Hsafe : forallb (fun c => negb (is_unsafe_path_char c)) (List.map f v)
                  = true).
  { apply forallb_forall. intros c Hc. apply List.in_map_iff in Hc.
    destruct Hc as (x & <- & _). unfold f.
    destruct (is_unsafe_path_char x) eqn:E; [reflexivity | rewrite E; reflexivity]. }
  assert (Htrim : trimmed is_space (List.map f v)).
  { destruct Hv as [H1 H2]. split.
    - destruct v as [| c v']; [exact I |]. cbn. rewrite Hf. exact H1.
    - rewrite <- List.map_rev. destruct (rev v) as [| c v']; [exact I |].
      cbn. rewrite Hf. exact H2. }
  split; [exact Hsafe |]. split; [exact Htrim |].
  rewrite (strip_by_fixed _ _ Htrim).
  clear Htrim. induction (List.map f v) as [| c l IH]; [reflexivity |].
  cbn [forallb] in Hsafe. apply andb_true_iff in Hsafe.
  destruct Hsafe as [Hc Hl]. cbn [List.map]. rewrite (IH Hl).
  unfold f at 1. apply negb_true_iff in Hc. rewrite Hc. reflexivity.
Qed.

(** X18: when the replacement has none of the unsafe characters (the
    default, the empty string, has none), a safe file name has none
    either, and making it safe again changes nothing. *)
Theorem get_safe_file_name_safe (file_name replacement : str) :
  forallb (fun c => negb (is_unsafe_path_char c)) replacement = true ->
  forallb (fun c => negb (is_unsafe_path_char c))
    (get_safe_file_name file_name replacement) = true
  /\ get_safe_file_name (get_safe_file_name file_name replacement) replacement
     = get_safe_file_name file_name replacement.
Proof.
  intros Hr. unfold get_safe_file_name.
  assert (Hsafe : forallb (fun c => negb (is_unsafe_path_char c))
                    (sub_chars is_unsafe_path_char replacement file_name)
                  = true).
  { unfold sub_chars. induction file_name as [| c s IH]; [reflexivity |].
    cbn [flat_map]. rewrite forallb_app, IH, andb_true_r.
    destruct (is_unsafe_path_char c) eqn:E; [exact Hr |].
    cbn. rewrite E. reflexivity. }
  split; [exact Hsafe |].
  apply sub_chars_id, Hsafe.
Qed.

Lemma get_safe_file_name_safe_witness :
  forallb (fun c => negb (is_unsafe_path_char c)) [] = true
  /\ forallb (fun c => negb (is_unsafe_path_char c))
       (get_safe_file_name (cps "Who? What: a/b") []) = true
  /\ get_safe_file_name (get_safe_file_name (cps "Who? What: a/b") []) []
     = get_safe_file_name (cps "Who? What: a/b") [].
Proof.
  split; [reflexivity |].
  apply (get_safe_file_name_safe (cps "Who? What: a/b") []). reflexivity.
Defined.

Section SlugFacts.
Context {L : PyLib}.

(** X19: whatever the name, the slug of the directory site is made of
    lowercase ASCII letters, digits and single hyphens, with no hyphen at
    either end. *)
Theorem slugify_bdbase_well_formed (name : str) :
  well_formed_slug (slugify_bdbase name).
Proof.
  unfold slugify_bdbase. change (cps "-") with [45%N].
  change (fun c => negb (is_lower_alnum c)) with not_alnum.
  match goal with
  | |- well_formed_slug
         (sub_runs is_hyphen _ (strip_by is_hyphen (sub_runs not_alnum _ ?t))) =>
      generalize t
  end.
  intros t.
  assert (Hh : not_alnum 45%N = true) by reflexivity.
  pose proof (sub_runs_separated not_alnum 45%N t Hh) as Hsep.
  pose proof (sub_runs_chars not_alnum 45%N t) as Hch.
  set (u := sub_runs not_alnum [45%N] t) in *.
  pose proof (separated_strip_by not_alnum is_hyphen u Hsep) as Hsep'.
  pose proof (forallb_strip_by _ is_hyphen u Hch) as Hch'.
  pose proof (strip_by_trimmed is_hyphen u) as Htrim.
  set (v := strip_by is_hyphen u) in *.
  assert (Hsh : separated is_hyphen v = true).
  { apply (separated_weaken not_alnum); [| exact Hsep'].
    intros c Hc. unfold is_hyphen in Hc. apply N.eqb_eq in Hc. subst c.
    reflexivity. }
  assert (Hfix : sub_runs is_hyphen [45%N] v = v).
  { apply sub_runs_fixed; [exact Hsh |].
    apply forallb_forall. intros c _. unfold is_hyphen.
    destruct (N.eqb c 45); reflexivity. }
  rewrite Hfix. split; [| split; assumption].
  eapply forallb_impl; [| exact Hch'].
  intros c Hc. cbn beta in Hc. unfold not_alnum in Hc.
  rewrite negb_involutive in Hc. exact Hc.
Qed.

End SlugFacts.

(** X20: every publisher [parse_publishers] returns is a non-empty name
    without white space at either end, and a list yields at most one name
    per line. *)
Theorem parse_publishers_names (lines : list str) :
  Forall (fun name => name <> [] /\ trimmed is_space name)
    (parse_publishers lines)
  /\ length (parse_publishers lines) <= length lines.
Proof.
  unfold parse_publishers.
  set (f := fun line : list N =>
              let line := strip line in
              if startswith (cps "- ") line then [strip (skipn 2 line)] else []).
  assert (Hf : forall line,
             length (f line) <= 1
             /\ Forall (fun name => name <> [] /\ trimmed is_space name) (f line)).
  { intros line. unfold f. cbv zeta. unfold strip.
    pose proof (strip_by_trimmed is_space line) as [_ Hlast].
    destruct (startswith (cps "- ") (strip_by is_space line)) eqn:E;
      [| split; [cbn; lia | constructor]].
    split; [cbn; lia |]. constructor; [| constructor].
    split; [| apply strip_by_trimmed].
    apply startswith_spec in E. destruct E as [rest E].
    rewrite E in Hlast |- *. change (cps "- ") with [45%N; 32%N] in *.
    cbn [app skipn] in *.
    intros Hempty. apply strip_by_empty in Hempty.
    cbn [rev] in Hlast. rewrite <- !app_assoc in Hlast.
    destruct (rev rest) as [| c r] eqn:Er.
    - cbn in Hlast. discriminate.
    - cbn in Hlast. rewrite forallb_forall in Hempty.
      assert (Hin : In c rest).
      { apply List.in_rev. rewrite Er. left. reflexivity. }
      specialize (Hempty c Hin).
      congruence. }
  induction lines as [| line lines [IH1 IH2]].
  - split; [constructor | reflexivity].
  - cbn [flat_map]. destruct (Hf line) as [Hl Hn]. split.
    + apply List.Forall_app. split; assumption.
    + rewrite length_app. cbn [length]. lia.
Qed.

(** X21: [normalize_whitespace] leaves no white space at either end and
    no two white-space characters next to each other. *)
Theorem normalize_whitespace_separated (s : str) :
  separated is_space (normalize_whitespace s) = true
  /\ trimmed is_space (normalize_whitespace s).
Proof.
  unfold normalize_whitespace. change (cps " ") with [space].
  split; [| apply strip_by_trimmed].
  apply separated_strip_by.
  assert (H : forall t,
             separated is_space (sub_long_runs is_space [space] false t) = true
             /\ (separated is_space (sub_long_runs is_space [space] true t) = true
                 /\ match sub_long_runs is_space [space] true t with
                    | c :: _ => is_space c = false
                    | [] => True
                    end)).
  { induction t as [| c t (IH1 & IH2 & IH3)]; [repeat split |].
    cbn [sub_long_runs]. destruct (is_space c) eqn:Ec.
    - split; [| split; assumption].
      destruct t as [| d t]; [cbn; rewrite Ec; reflexivity |].
      destruct (is_space d) eqn:Ed.
      + cbn [app separated]. change (is_space space) with true. cbn iota.
        rewrite IH2, andb_true_r.
        destruct (sub_long_runs is_space [space] true (d :: t));
          [reflexivity | rewrite IH3; reflexivity].
      + revert IH1. cbn [sub_long_runs]. rewrite Ed. intros IH1.
        cbn [separated] in IH1 |- *. rewrite Ec, Ed. cbn [negb andb].
        rewrite Ed in IH1. exact IH1.
    - cbn [separated]. rewrite Ec. cbn [andb]. repeat split; assumption. }
  apply H.
Qed.

(** X22: the text [strip_tags] returns has no white space at either end,
    and its only white space is single spaces. *)
Theorem strip_tags_single_spaces (chunks : list str) :
  separated is_space (strip_tags chunks) = true
  /\ forallb (fun c => negb (is_space c) || N.eqb c space) (strip_tags chunks)
     = true
  /\ trimmed is_space (strip_tags chunks).
Proof.
  unfold strip_tags, strip. change (cps " ") with [space].
  split; [| split].
  - apply separated_strip_by, sub_runs_separated. reflexivity.
  - apply forallb_strip_by, sub_runs_chars.
  - apply strip_by_trimmed.
Qed.

Example normalize_whitespace_example :
  normalize_whitespace (cps "  Batman   and" ++ [9%N] ++ cps "Robin  ")
  = cps "Batman and" ++ [9%N] ++ cps "Robin".
Proof. vm_compute. reflexivity. Qed.

Example parse_publishers_example :
  parse_publishers [cps "# Editeurs"; cps "-  Dargaud  " ++ [10%N];
                    cps "- "; cps "-Glenat"; cps " - Casterman"]
  = [cps "Dargaud"; cps "Casterman"].
Proof. vm_compute. reflexivity. Qed.

(** ** CandidateRanker: what is never a candidate *)

Section CandidateFacts.
Context {L : PyLib}.

Lemma _add_candidate_link p url score source :
  exists new,
    candidates (_add_candidate p url score source) = candidates p ++ new
    /\ length new <= 1
    /\ Forall joined_from_link new.
Proof.
  unfold _add_candidate.
  destruct (nonempty url) eqn:E1; cbn [negb orb].
  - destruct (startswith (cps "data:") url) eqn:E2.
    + exists []. rewrite app_nil_r. repeat split; [cbn; lia | constructor].
    + eexists [_]. cbn [candidates]. repeat split; [cbn; lia |].
      constructor; [| constructor].
      exists (base_url p), url. repeat split; assumption.
  - exists []. rewrite app_nil_r. repeat split; [cbn; lia | constructor].
Qed.

Lemma handle_starttag_link p tag attrs :
  exists new,
    candidates (handle_starttag p tag attrs) = candidates p ++ new
    /\ length new <= 1
    /\ Forall joined_from_link new.
Proof.
  assert (Hnone : exists new : list candidate,
             candidates p = candidates p ++ new
             /\ length new <= 1 /\ Forall joined_from_link new).
  { exists []. rewrite app_nil_r. repeat split; [cbn; lia | constructor]. }
  unfold handle_starttag.
  destruct (str_eqb (lower tag) (cps "base")).
  { destruct (attr_get (make_attrs_dict attrs) "href") as [[| c h] |];
      cbn [candidates]; exact Hnone. }
  destruct (str_eqb (lower tag) (cps "meta")).
  { match goal with |- context [if ?b then _ else _] => destruct b end;
      [apply _add_candidate_link | exact Hnone]. }
  destruct (str_eqb (lower tag) (cps "link")).
  { match goal with |- context [if ?b then _ else _] => destruct b end;
      [apply _add_candidate_link | exact Hnone]. }
  destruct (str_eqb (lower tag) (cps "img")); [| exact Hnone].
  match goal with |- context [if ?b then _ else _] => destruct b end;
    [exact Hnone | apply _add_candidate_link].
Qed.

Lemma feed_links tags : forall p,
  exists new,
    candidates (feed p tags) = candidates p ++ new
    /\ length new <= length tags
    /\ Forall joined_from_link new.
Proof.
  induction tags as [| t tags IH]; intros p.
  - exists []. rewrite app_nil_r. repeat split; [cbn; lia | constructor].
  - cbn [feed fold_left].
    destruct (handle_starttag_link p (fst t) (snd t)) as (n1 & E1 & L1 & H1).
    destruct (IH (handle_starttag p (fst t) (snd t))) as (n2 & E2 & L2 & H2).
    exists (n1 ++ n2). unfold feed in E2. rewrite E2, E1, app_assoc.
    repeat split.
    + rewrite length_app. cbn [length]. lia.
    + apply List.Forall_app. split; assumption.
Qed.

(** X23: a page gives at most one candidate per tag, and no candidate
    comes from an empty value or from an inline [data:] URL. *)
Theorem rank_candidates_links (final_url : str)
    (tags : list (str * list (str * option str))) :
  length (rank_candidates final_url tags) <= length tags
  /\ Forall joined_from_link (rank_candidates final_url tags).
Proof.
  unfold rank_candidates.
  destruct (feed_links tags (new_parser final_url)) as (new & E & Hl & H).
  cbn [candidates new_parser app] in E.
  pose proof (sorted_by_score_desc_perm
                (candidates (feed (new_parser final_url) tags))) as P.
  split.
  - rewrite <- (Permutation_length P), E. exact Hl.
  - apply (Permutation_Forall P). rewrite E. exact H.
Qed.

(** ** The directory site *)

Lemma editor_event_invariant p e :
  (Forall from_editor_image (entries p)
   /\ match _last_image_src p with
      | Some src => contains (cps "/images/editeurs/") src = true
      | None => True
      end) ->
  Forall from_editor_image (entries (editor_event p e))
  /\ match _last_image_src (editor_event p e) with
     | Some src => contains (cps "/images/editeurs/") src = true
     | None => True
     end.
Proof.
  intros [He Hs]. destruct e as [tag attrs | data | tag]; cbn [editor_event].
  - unfold editor_starttag.
    destruct (str_eqb (lower tag) (cps "img")).
    + destruct (contains (cps "/images/editeurs/")
                  (or_str (attr_get (make_attrs_dict attrs) "src") [])) eqn:E;
        split; cbn; assumption.
    + destruct (str_eqb (lower tag) (cps "a")); [| split; assumption].
      destruct (startswith _ _); split; cbn; assumption.
  - unfold editor_data. destruct (_in_link p); split; cbn; assumption.
  - unfold editor_endtag.
    destruct (str_eqb (lower tag) (cps "a") && _in_link p); [| split; assumption].
    split; cbn [entries _last_image_src]; [| exact Hs].
    destruct (match strip (_link_text p) with
              | [] => _last_image_alt p
              | c :: t => Some (c :: t)
              end) as [[| c n] |]; try exact He.
    destruct (_last_image_src p) as [[| d src] |]; try exact He.
    apply List.Forall_app. split; [exact He |].
    constructor; [| constructor]. split; [discriminate | exact Hs].
Qed.

(** X24: every entry the parser of the directory site collects has a
    name that is not empty and an image whose address contains
    [/images/editeurs/]. *)
Theorem editor_entries_from_images (events : list html_event) :
  Forall from_editor_image (editor_entries events).
Proof.
  unfold editor_entries.
  assert (H : forall p,
             (Forall from_editor_image (entries p)
              /\ match _last_image_src p with
                 | Some src => contains (cps "/images/editeurs/") src = true
                 | None => True
                 end) ->
             Forall from_editor_image
               (entries (fold_left editor_event events p))).
  { induction events as [| e events IH]; intros p Hp; [apply Hp |].
    cbn [fold_left]. apply IH, editor_event_invariant, Hp. }
  apply H. split; [constructor | exact I].
Qed.

Lemma bdbase_map_fold (found : list (str * str)) : forall (m : gmap str str) key,
  nonempty key = true ->
  fold_left bdbase_map_step found m !! key
  = match m !! key with
    | Some url => Some url
    | None => first_with_key key found
    end.
Proof.
  induction found as [| [name url] found IH]; intros m key Hkey.
  - cbn. destruct (m !! key); reflexivity.
  - cbn [fold_left]. rewrite (IH _ key Hkey).
    unfold bdbase_map_step, first_with_key. cbn [fst snd List.find].
    destruct (nonempty (normalize_key name)
              && negb (bool_decide (is_Some (m !! normalize_key name)))) eqn:E.
    + apply andb_true_iff in E. destruct E as [_ E].
      apply negb_true_iff, bool_decide_eq_false in E.
      unfold str_eqb. destruct (decide (normalize_key name = key)) as [Heq | Hne].
      * subst key.
        rewrite lookup_insert_eq, bool_decide_eq_true_2 by reflexivity.
        destruct (m !! normalize_key name) eqn:Em; [| reflexivity].
        exfalso. apply E. eexists. reflexivity.
      * rewrite lookup_insert_ne, bool_decide_eq_false_2 by assumption.
        reflexivity.
    + destruct (m !! key) eqn:Em; [reflexivity |].
      unfold str_eqb. destruct (decide (normalize_key name = key)) as [Heq | Hne].
      * subst key. rewrite Hkey in E. cbn in E.
        apply negb_false_iff, bool_decide_eq_true in E.
        rewrite Em in E. destruct E as [? E]. discriminate.
      * rewrite bool_decide_eq_false_2 by assumption. reflexivity.
Qed.

(** X25: the map of the directory site has no empty key, and under any
    other key it holds the image of the first entry whose normalised name
    is that key: later entries with the same key never replace it. *)
Theorem bdbase_map_first_wins (found : list (str * str)) (key : str) :
  bdbase_map_of found !! key
  = if nonempty key then first_with_key key found else None.
Proof.
  unfold bdbase_map_of. destruct (nonempty key) eqn:Hkey.
  - rewrite (bdbase_map_fold found ∅ key Hkey).
    rewrite lookup_empty. reflexivity.
  - destruct key; [| discriminate].
    assert (H : forall m : gmap str str,
               m !! [] = None ->
               fold_left bdbase_map_step found m !! [] = None).
    { induction found as [| e found IH]; intros m Hm; [exact Hm |].
      cbn [fold_left]. apply IH. unfold bdbase_map_step.
      destruct (nonempty (normalize_key (fst e))) eqn:E; cbn [andb];
        [| exact Hm].
      destruct (negb _); [| exact Hm].
      rewrite lookup_insert_ne; [exact Hm |].
      intros Heq. rewrite Heq in E. discriminate. }
    apply H. apply lookup_empty.
Qed.

End CandidateFacts.

Example bdbase_map_keeps_first :
  @bdbase_map_of ascii_lib
    [(cps "Dargaud", cps "/a.png"); (cps "DARGAUD!", cps "/b.png")]
    !! cps "dargaud"
  = Some (cps "/a.png").
Proof. vm_compute. reflexivity. Qed.

(** ** PaginatedCrawler *)

Section CrawlerFacts.
Context {L : PyLib} {response item : Type}.
Variable env : @environment response.
Variable args : arguments.
Variable items_of : response -> result (list item).
Variable next_of : response -> result (option str).
Variable url_of : response -> str.

Lemma request_served url resp s :
  (2 <= request_attempts args)%Z ->
  serves env url resp ->
  exists s',
    request env args (cps "GET") url s = (s', Returned (Some resp))
    /\ dispatches s' = S (dispatches s).
Proof.
  intros Ha Hs. unfold request.
  destruct (request_loop_first_outcome env args
              (Z.max 1 (request_attempts args)) (cps "GET") url 0
              (py_range 1 (Z.max 1 (request_attempts args))) s)
    as (s' & Hrun & Hn).
  - rewrite py_range_length. lia.
  - apply py_range_below.
  - intros i Hi. lia.
  - rewrite Nat.add_0_r, Hs. discriminate.
  - exists s'. rewrite Hrun, Nat.add_0_r, Hs. split; [reflexivity | lia].
Qed.

(** X26: on a listing that ends, with at least two attempts configured,
    the crawl returns the items of all its pages in page order, after one
    request per page, as soon as the fuel covers the pages. *)
Theorem scrape_list_collects (pages : list (list item)) :
  (2 <= request_attempts args)%Z ->
  forall (fuel : nat) (url : str) (found : list item) (s : session),
    listing env items_of next_of url_of url pages ->
    length pages <= fuel ->
    exists s',
      scrape_list env args items_of next_of url_of fuel url found s
      = (s', Returned (Some (found ++ concat pages)))
      /\ dispatches s' = dispatches s + length pages.
Proof.
  intros Ha fuel url found s Hl. revert fuel found s.
  induction Hl as [url resp items Hs Hi Hn
                  | url resp items href rest Hs Hi Hn Hrest IH];
    intros fuel found s Hfuel.
  - destruct fuel as [| fuel]; [cbn in Hfuel; lia |].
    cbn [scrape_list].
    destruct (request_served url resp s Ha Hs) as (s' & -> & Hd).
    rewrite Hi, Hn. exists s'. cbn [concat length]. rewrite app_nil_r.
    split; [reflexivity | lia].
  - destruct fuel as [| fuel]; [cbn in Hfuel; lia |].
    cbn [scrape_list].
    destruct (request_served url resp s Ha Hs) as (s1 & -> & Hd).
    rewrite Hi, Hn.
    destruct (IH fuel (found ++ items) s1) as (s' & Hrun & Hd').
    { cbn in Hfuel. lia. }
    exists s'. rewrite Hrun. cbn [concat length]. rewrite app_assoc.
    split; [reflexivity | lia].
Qed.

(** X27: with [--request-attempts] at 1 or below the crawl cannot start:
    [session.get] returns [None] without a request, and reading the page
    raises [AttributeError]. *)
Theorem scrape_list_single_attempt (fuel : nat) (url : str)
    (found : list item) (s : session) :
  (request_attempts args <= 1)%Z ->
  scrape_list env args items_of next_of url_of (S fuel) url found s
  = (s, Raised AttributeError).
Proof.
  intros H. cbn [scrape_list]. unfold request.
  replace (Z.max 1 (request_attempts args)) with 1%Z by lia.
  reflexivity.
Qed.

End CrawlerFacts.

Lemma three_pages_listing :
  @listing ascii_lib nat nat three_pages three_pages_items three_pages_next
    (fun _ => []) (cps "p1") [[10; 11]; [20]; []].
Proof.
  eapply listing_next with (resp := 1) (href := cps "p2");
    [intros n; reflexivity | reflexivity | reflexivity |].
  eapply listing_next with (resp := 2) (href := cps "p3");
    [intros n; reflexivity | reflexivity | reflexivity |].
  eapply listing_last with (resp := 3);
    [intros n; reflexivity | reflexivity | reflexivity].
Qed.

Lemma scrape_list_collects_witness :
  exists s',
    @scrape_list ascii_lib nat nat three_pages default_arguments
      three_pages_items three_pages_next (fun _ => []) 5 (cps "p1") []
      (new_session fzero)
    = (s', Returned (Some ([] ++ concat [[10; 11]; [20]; []])))
    /\ dispatches s' = dispatches (new_session fzero) + length [[10; 11]; [20]; @nil nat].
Proof.
  apply (@scrape_list_collects ascii_lib nat nat three_pages default_arguments
           three_pages_items three_pages_next (fun _ => [])
           [[10; 11]; [20]; []]).
  - cbn. lia.
  - exact three_pages_listing.
  - cbn. lia.
Defined.

Lemma scrape_list_single_attempt_witness :
  (request_attempts single_attempt <= 1)%Z
  /\ @scrape_list ascii_lib nat nat three_pages single_attempt
       three_pages_items three_pages_next (fun _ => []) 5 (cps "p1") []
       (new_session fzero)
     = (new_session fzero, Raised AttributeError).
Proof.
  split; [cbn; lia |].
  apply (@scrape_list_single_attempt ascii_lib nat nat three_pages
           single_attempt three_pages_items three_pages_next (fun _ => [])
           4 (cps "p1") [] (new_session fzero)).
  cbn; lia.
Defined.
